(** * pigo: a shallow embedding of the face-detection driver

    The repository is a Go package ([pigo]) with a command-line driver.  The
    file under verification holds the detector object ([faceDetector]), its
    two methods [DetectFaces] and [DrawFaces], the image normaliser
    [ImgToNRGBA] and the image reader [GetImage]; the command ([main], with
    [inSlice]) is embedded in module [cmd], its progress indicator in module
    [spinner].  The cascade core the methods call ([Unpack], [RunCascade],
    [ClusterDetections], [RgbToGrayscale]) lives in a file of the package that
    is not among the sources; it enters the development as an interface
    ([PigoCore]) and, for the properties that speak about the core itself, as
    a model written from the specification (modules [Cascade], [Window],
    [Runner] and [Clusterer]).

    Layout: the Go library types the driver uses; the image normaliser; the
    core of the specification; the driver; the conditions and sample data of
    the statements; the properties. *)

From Stdlib Require Import ZArith Lia List Bool Ascii String QArith Qround.
From Stdlib Require Import Floats.SpecFloat.
From stdpp Require Import base option gmap list strings.

Open Scope Z_scope.

(** ** Go's [int] on a 64-bit target

    Values are mathematical integers; every arithmetic operation is followed
    by the two's-complement wrap-around of the machine. *)
Module GoInt.

Definition wrap (z : Z) : Z := (z + 2 ^ 63) mod 2 ^ 64 - 2 ^ 63.

Definition add (a b : Z) : Z := wrap (a + b).
Definition sub (a b : Z) : Z := wrap (a - b).
Definition mul (a b : Z) : Z := wrap (a * b).
(** [a / b] truncates towards zero. *)
Definition quot (a b : Z) : Z := wrap (Z.quot a b).

Definition in_range (z : Z) : Prop := - 2 ^ 63 <= z < 2 ^ 63.

End GoInt.

(** ** IEEE-754 numbers

    [float32] and [float64] are the Standard Library's specification floats at
    the two precisions; all operations round to nearest-even. *)
Module float32.
Definition prec : Z := 24.
Definition emax : Z := 128.
Definition of_Z (z : Z) : spec_float := binary_normalize prec emax z 0 false.
Definition add : spec_float -> spec_float -> spec_float := SFadd prec emax.
Definition mul : spec_float -> spec_float -> spec_float := SFmul prec emax.
Definition div : spec_float -> spec_float -> spec_float := SFdiv prec emax.
Definition ltb : spec_float -> spec_float -> bool := SFltb.
Definition leb : spec_float -> spec_float -> bool := SFleb.
(** The number whose little-endian binary32 encoding is the 32-bit word [w]. *)
Definition of_bits (w : Z) : spec_float :=
  let s := Z.testbit w 31 in
  let e := Z.land (Z.shiftr w 23) 255 in
  let m := Z.land w (2 ^ 23 - 1) in
  if e =? 0 then
    match m with
    | Zpos p => S754_finite s p (-149)
    | _ => S754_zero s
    end
  else if e =? 255 then
    (if m =? 0 then S754_infinity s else S754_nan)
  else
    match m + 2 ^ 23 with
    | Zpos p => S754_finite s p (e - 150)
    | _ => S754_zero s
    end.
End float32.

Module float64.
Definition prec : Z := 53.
Definition emax : Z := 1024.
Definition of_Z (z : Z) : spec_float := binary_normalize prec emax z 0 false.
Definition add : spec_float -> spec_float -> spec_float := SFadd prec emax.
Definition sub : spec_float -> spec_float -> spec_float := SFsub prec emax.
Definition mul : spec_float -> spec_float -> spec_float := SFmul prec emax.
Definition div : spec_float -> spec_float -> spec_float := SFdiv prec emax.
Definition ltb : spec_float -> spec_float -> bool := SFltb.
Definition leb : spec_float -> spec_float -> bool := SFleb.
(** Conversion to an integer, truncating towards zero; a value that is not
    finite converts to 0. *)
Definition trunc (x : spec_float) : Z :=
  match x with
  | S754_finite s m e =>
      let a := if 0 <=? e then Zpos m * 2 ^ e else Zpos m / 2 ^ (- e) in
      if s then - a else a
  | _ => 0
  end.
(** Largest integer not above [x]; a value that is not finite gives 0. *)
Definition floor (x : spec_float) : Z :=
  match x with
  | S754_finite s m e =>
      let z := if s then Zneg m else Zpos m in
      if 0 <=? e then z * 2 ^ e else z / 2 ^ (- e)
  | _ => 0
  end.
(** The exact rational value of a finite number (0 when it is not finite). *)
Definition to_Q (x : spec_float) : Q :=
  match x with
  | S754_finite s m e =>
      let z := if s then Zneg m else Zpos m in
      if 0 <=? e then inject_Z (z * 2 ^ e)
      else Qmake z (Z.to_pos (2 ^ (- e)))
  | _ => 0%Q
  end.
(** [2 * math.Pi], the binary64 number 0x401921FB54442D18. *)
Definition two_pi : spec_float := S754_finite false 7074237752028440 (-50).
End float64.

(** ** Cosine and sine on binary64

    Modelled from the spec: the [cos] and [sin] the classifier of 4.B takes
    of [angle * 2 pi], as functions on binary64 numbers.  The value is the
    sum of the Taylor series at the argument reduced modulo [2 pi], computed
    in fixed-point arithmetic with at least 256 fractional bits beyond the
    integer part of the argument, and rounded to nearest. *)
Module trig.

(** [arctan (1/n)] with [b] fractional bits, by its power series. *)
Fixpoint atan_inv_loop (fuel : nat) (n2 p k acc : Z) : Z :=
  match fuel with
  | O => acc
  | S f =>
      if p =? 0 then acc
      else
        let t := p / (2 * k + 1) in
        atan_inv_loop f n2 (p / n2) (k + 1) (if Z.even k then acc + t else acc - t)
  end.

Definition atan_inv (b n : Z) : Z :=
  atan_inv_loop (Z.to_nat b) (n * n) (2 ^ b / n) 0 0.

(** [pi] with [b] fractional bits, by Machin's formula. *)
Definition pi (b : Z) : Z := 16 * atan_inv b 5 - 4 * atan_inv b 239.

(** The finite number [(-1)^s * m * 2^e] with [b] fractional bits. *)
Definition to_fixed (b : Z) (s : bool) (m : positive) (e : Z) : Z :=
  let v := if 0 <=? e + b then Zpos m * 2 ^ (e + b) else Zpos m / 2 ^ (- (e + b)) in
  if s then - v else v.

(** The representative of [x] modulo [2 pi] between [-pi] and [pi]. *)
Definition reduce (b x : Z) : Z :=
  let p := pi b in x - ((x + p) / (2 * p)) * (2 * p).

(** Sum of the series whose first term is [term] and in which the term after
    [term] is [- term * r2 / ((n + 1) (n + 2))]. *)
Fixpoint series (fuel : nat) (b r2 term n acc : Z) : Z :=
  match fuel with
  | O => acc
  | S f =>
      if term =? 0 then acc
      else series f b r2
                  (Z.quot (- Z.quot (term * r2) (2 ^ b)) ((n + 1) * (n + 2)))
                  (n + 2) (acc + term)
  end.

Definition sin_fixed (b r : Z) : Z :=
  series (Z.to_nat b) b (Z.quot (r * r) (2 ^ b)) r 1 0.
Definition cos_fixed (b r : Z) : Z :=
  series (Z.to_nat b) b (Z.quot (r * r) (2 ^ b)) (2 ^ b) 0 0.

Definition round (b v : Z) : spec_float :=
  binary_normalize float64.prec float64.emax v (- b) false.

(** Fractional bits used for an argument [m * 2^e]. *)
Definition bits (m : positive) (e : Z) : Z :=
  256 + Z.max 0 (Z.log2 (Zpos m) + e + 1).

(** Below [2^-100] the sine is the argument and the cosine is 1. *)
Definition tiny (m : positive) (e : Z) : bool := Z.log2 (Zpos m) + e <? -100.

Definition sin (x : spec_float) : spec_float :=
  match x with
  | S754_zero _ => x
  | S754_finite s m e =>
      if tiny m e then x
      else let b := bits m e in round b (sin_fixed b (reduce b (to_fixed b s m e)))
  | _ => S754_nan
  end.

Definition cos (x : spec_float) : spec_float :=
  match x with
  | S754_zero _ => float64.of_Z 1
  | S754_finite s m e =>
      if tiny m e then float64.of_Z 1
      else let b := bits m e in round b (cos_fixed b (reduce b (to_fixed b s m e)))
  | _ => S754_nan
  end.

End trig.

(** ** Package [image]: points and rectangles *)
Module image.

Record Point := mkPoint { X : Z; Y : Z }.
Record Rectangle := mkRectangle { Min : Point; Max : Point }.

(** [image.Rect(x0, y0, x1, y1)]: the rectangle with the two corners, put in
    canonical order. *)
Definition Rect (x0 y0 x1 y1 : Z) : Rectangle :=
  let '(x0, x1) := if x1 <? x0 then (x1, x0) else (x0, x1) in
  let '(y0, y1) := if y1 <? y0 then (y1, y0) else (y0, y1) in
  mkRectangle (mkPoint x0 y0) (mkPoint x1 y1).

Definition Dx (r : Rectangle) : Z := GoInt.sub (X (Max r)) (X (Min r)).
Definition Dy (r : Rectangle) : Z := GoInt.sub (Y (Max r)) (Y (Min r)).

(** [r.Sub(p)] translates [r] by [-p]. *)
Definition Sub (r : Rectangle) (p : Point) : Rectangle :=
  mkRectangle
    (mkPoint (GoInt.sub (X (Min r)) (X p)) (GoInt.sub (Y (Min r)) (Y p)))
    (mkPoint (GoInt.sub (X (Max r)) (X p)) (GoInt.sub (Y (Max r)) (Y p))).

End image.

(** ** Package [image/color] *)
Module color.

Record NRGBA := mkNRGBA { R : Z; G : Z; B : Z; A : Z }.

(** One channel of [color.YCbCrToRGB]: a 32-bit value is shifted down by 16
    when it lies in [0, 2^24), and saturates to 0 or 255 otherwise. *)
Definition channel (v : Z) : Z :=
  (if Z.land (v mod 2 ^ 32) 4278190080 =? 0
   then Z.shiftr v 16
   else Z.lnot (Z.shiftr v 31)) mod 256.

Definition YCbCrToRGB (y cb cr : Z) : Z * Z * Z :=
  let yy1 := y * 65793 in
  let cb1 := cb - 128 in
  let cr1 := cr - 128 in
  (channel (yy1 + 91881 * cr1),
   channel (yy1 - 22554 * cb1 - 46802 * cr1),
   channel (yy1 + 116130 * cb1)).

End color.

(** ** Package [image]: pixel buffers *)
Module pixbuf.
Import image.

(** [p[i]]: [None] stands for the run-time panic of an index out of range. *)
Definition index (p : list Z) (i : Z) : option Z :=
  if i <? 0 then None else p !! Z.to_nat i.

(** [p[i] = v]. *)
Definition store (p : list Z) (i v : Z) : option (list Z) :=
  if (0 <=? i) && (i <? Z.of_nat (length p))
  then Some (<[Z.to_nat i := v]> p) else None.

(** [p[lo:hi]]; the capacity of a buffer is taken equal to its length. *)
Definition slice (p : list Z) (lo hi : Z) : option (list Z) :=
  if (0 <=? lo) && (lo <=? hi) && (hi <=? Z.of_nat (length p))
  then Some (take (Z.to_nat (hi - lo)) (drop (Z.to_nat lo) p)) else None.

(** [copy(dst[di:di+n], src[si:si+n])], returning the new contents of [dst]. *)
Definition copy (dst : list Z) (di : Z) (src : list Z) (si n : Z)
  : option (list Z) :=
  d ← slice dst di (GoInt.add di n);
  s ← slice src si (GoInt.add si n);
  let k := Nat.min (length d) (length s) in
  Some (take (Z.to_nat di) dst ++ take k s ++ drop (Z.to_nat di + k) dst).

(** [image.NRGBA]: non-premultiplied 8-bit RGBA, four bytes per pixel. *)
Record NRGBA := mkNRGBA { Pix : list Z; Stride : Z; NRGBA_Rect : Rectangle }.

Definition PixOffset (p : NRGBA) (x y : Z) : Z :=
  GoInt.add
    (GoInt.mul (GoInt.sub y (Y (Min (NRGBA_Rect p)))) (Stride p))
    (GoInt.mul (GoInt.sub x (X (Min (NRGBA_Rect p)))) 4).

(** The buffer length check of the image constructors: -1 when a factor is
    negative or the product does not fit a non-negative [int]. *)
Definition mul3NonNeg (x y z : Z) : Z :=
  if (x <? 0) || (y <? 0) || (z <? 0) then -1
  else if 2 ^ 64 <=? x * y then -1
  else if 2 ^ 64 <=? x * y * z then -1
  else if 2 ^ 63 <=? x * y * z then -1
  else x * y * z.

(** [image.NewNRGBA(r)]; it panics on a negative or huge rectangle. *)
Definition NewNRGBA (r : Rectangle) : option NRGBA :=
  let n := mul3NonNeg 4 (Dx r) (Dy r) in
  if n <? 0 then None
  else Some (mkNRGBA (replicate (Z.to_nat n) 0) (GoInt.mul 4 (Dx r)) r).

Inductive YCbCrSubsampleRatio :=
  Ratio444 | Ratio422 | Ratio420 | Ratio440 | Ratio411 | Ratio410.

(** [image.YCbCr]: three planes, the chroma planes possibly subsampled. *)
Record YCbCr := mkYCbCr {
  YPlane : list Z; CbPlane : list Z; CrPlane : list Z;
  YStride : Z; CStride : Z;
  SubsampleRatio : YCbCrSubsampleRatio;
  YCbCr_Rect : Rectangle }.

Definition YOffset (p : YCbCr) (x y : Z) : Z :=
  GoInt.add (GoInt.mul (GoInt.sub y (Y (Min (YCbCr_Rect p)))) (YStride p))
            (GoInt.sub x (X (Min (YCbCr_Rect p)))).

Definition COffset (p : YCbCr) (x y : Z) : Z :=
  let mx := X (Min (YCbCr_Rect p)) in
  let my := Y (Min (YCbCr_Rect p)) in
  let q := GoInt.quot in
  let line (dy dx : Z) := GoInt.add (GoInt.mul dy (CStride p)) dx in
  match SubsampleRatio p with
  | Ratio422 => line (GoInt.sub y my) (GoInt.sub (q x 2) (q mx 2))
  | Ratio420 => line (GoInt.sub (q y 2) (q my 2)) (GoInt.sub (q x 2) (q mx 2))
  | Ratio440 => line (GoInt.sub (q y 2) (q my 2)) (GoInt.sub x mx)
  | Ratio411 => line (GoInt.sub y my) (GoInt.sub (q x 4) (q mx 4))
  | Ratio410 => line (GoInt.sub (q y 2) (q my 2)) (GoInt.sub (q x 4) (q mx 4))
  | Ratio444 => line (GoInt.sub y my) (GoInt.sub x mx)
  end.

(** Any other implementation of [image.Image]: its bounds, and for each point
    the colour [At] returns, already converted by [color.NRGBAModel]. *)
Record Generic := mkGeneric {
  Generic_Bounds : Rectangle;
  Generic_At : Z -> Z -> color.NRGBA }.

End pixbuf.

(** ** The image normaliser of package [pigo] *)
Module imgconv.
Import image pixbuf.

(** [*image.NRGBA] values are addresses into a store of pixel buffers, so
    that returning the argument itself differs from returning a copy. *)
Definition loc := positive.
Abbreviation heap := (gmap positive NRGBA).

(** The dynamic type of an [image.Image] value, as the type switch sees it. *)
Inductive Image :=
  | ImNRGBA (p : loc)
  | ImYCbCr (y : YCbCr)
  | ImOther (g : Generic).

(** [img.Bounds()]; a nil [*image.NRGBA] panics. *)
Definition Bounds (h : heap) (img : Image) : option Rectangle :=
  match img with
  | ImNRGBA p => NRGBA_Rect <$> h !! p
  | ImYCbCr y => Some (YCbCr_Rect y)
  | ImOther g => Some (Generic_Bounds g)
  end.

Definition alloc (h : heap) (v : NRGBA) : heap * loc :=
  let l := fresh (dom h) in (<[l := v]> h, l).

(** [for i := i0; i < i0 + n; i++ { body }] over a state that may panic. *)
Fixpoint for_range {St : Type} (n : nat) (i : Z)
    (body : Z -> St -> option St) (s : St) : option St :=
  match n with
  | O => Some s
  | S n' => s' ← body i s; for_range n' (i + 1) body s'
  end.

(** The three pixel loops of [ImgToNRGBA]; each returns the final [dst.Pix]. *)
Definition fill_from_NRGBA (src dst : NRGBA) (srcBounds : Rectangle)
    (dstW dstH : Z) : option (list Z) :=
  let srcMinX := X (Min srcBounds) in
  let srcMinY := Y (Min srcBounds) in
  let rowSize := GoInt.mul (Dx srcBounds) 4 in
  for_range (Z.to_nat dstH) 0 (fun dstY pix =>
    let di := PixOffset dst 0 dstY in
    let si := PixOffset src srcMinX (GoInt.add srcMinY dstY) in
    for_range (Z.to_nat dstW) 0 (fun _ pix =>
      copy pix di (Pix src) si rowSize) pix) (Pix dst).

Definition fill_from_YCbCr (src : YCbCr) (dst : NRGBA) (srcBounds : Rectangle)
    (dstW dstH : Z) : option (list Z) :=
  let srcMinX := X (Min srcBounds) in
  let srcMinY := Y (Min srcBounds) in
  for_range (Z.to_nat dstH) 0 (fun dstY pix =>
    let di := PixOffset dst 0 dstY in
    snd <$> for_range (Z.to_nat dstW) 0 (fun dstX '(di, pix) =>
      let srcX := GoInt.add srcMinX dstX in
      let srcY := GoInt.add srcMinY dstY in
      let siy := YOffset src srcX srcY in
      let sic := COffset src srcX srcY in
      y ← index (YPlane src) siy;
      cb ← index (CbPlane src) sic;
      cr ← index (CrPlane src) sic;
      let '(r, g, b) := color.YCbCrToRGB y cb cr in
      pix ← store pix (GoInt.add di 0) r;
      pix ← store pix (GoInt.add di 1) g;
      pix ← store pix (GoInt.add di 2) b;
      pix ← store pix (GoInt.add di 3) 255;
      Some (GoInt.add di 4, pix)) (di, pix)) (Pix dst).

Definition fill_from_Generic (src : Generic) (dst : NRGBA)
    (srcBounds : Rectangle) (dstW dstH : Z) : option (list Z) :=
  let srcMinX := X (Min srcBounds) in
  let srcMinY := Y (Min srcBounds) in
  for_range (Z.to_nat dstH) 0 (fun dstY pix =>
    let di := PixOffset dst 0 dstY in
    snd <$> for_range (Z.to_nat dstW) 0 (fun dstX '(di, pix) =>
      let c := Generic_At src (GoInt.add srcMinX dstX)
                              (GoInt.add srcMinY dstY) in
      pix ← store pix (GoInt.add di 0) (color.R c);
      pix ← store pix (GoInt.add di 1) (color.G c);
      pix ← store pix (GoInt.add di 2) (color.B c);
      pix ← store pix (GoInt.add di 3) (color.A c);
      Some (GoInt.add di 4, pix)) (di, pix)) (Pix dst).

(** [ImgToNRGBA(img)]: the image itself when it already is an
    [*image.NRGBA] with min-point (0, 0), a freshly allocated converted copy
    otherwise.  [None] is a panic. *)
Definition ImgToNRGBA (h : heap) (img : Image) : option (heap * loc) :=
  srcBounds ← Bounds h img;
  let same :=
    if (X (Min srcBounds) =? 0) && (Y (Min srcBounds) =? 0)
    then match img with ImNRGBA p => Some p | _ => None end
    else None in
  match same with
  | Some src0 => Some (h, src0)
  | None =>
      let dstBounds := Sub srcBounds (Min srcBounds) in
      let dstW := Dx dstBounds in
      let dstH := Dy dstBounds in
      dst ← NewNRGBA dstBounds;
      pix ← match img with
            | ImNRGBA p =>
                src ← h !! p; fill_from_NRGBA src dst srcBounds dstW dstH
            | ImYCbCr src => fill_from_YCbCr src dst srcBounds dstW dstH
            | ImOther src => fill_from_Generic src dst srcBounds dstW dstH
            end;
      Some (alloc h (mkNRGBA pix (Stride dst) (NRGBA_Rect dst)))
  end.

End imgconv.

(** ** Package [pigo]: the data the driver exchanges with the cascade core

    The three types are declared in the core file, which is not among the
    sources; their fields and types are the ones the driver reads and
    writes. *)
Record Detection := mkDetection { Row : Z; Col : Z; Scale : Z; Q : spec_float }.

Record ImageParams := mkImageParams {
  Pixels : list Z; Rows : Z; Cols : Z; Dim : Z }.

Record CascadeParams := mkCascadeParams {
  MinSize : Z; MaxSize : Z;
  ShiftFactor : spec_float; ScaleFactor : spec_float;
  Image_Params : ImageParams }.

(** ** The cascade core, modelled from the specification

    The core file of the package - the deserializer [Unpack], the window
    classifier, the sweep [RunCascade] and the clusterer [ClusterDetections] -
    is not among the sources.  The four modules below are written from
    sections 3, 4 and 6 of the specification. *)
Module Cascade.

(** *** 4.A  Deserializer *)

(** Modelled from the spec: the two error kinds of section 7, which the
    missing deserializer returns. *)
Inductive Error := TruncatedStream | InvalidShape.

(** Modelled from the spec: the Cascade Model of section 3, which the missing
    deserializer builds: per internal node four signed offsets, per leaf a
    binary32 prediction, per tree a binary32 stage threshold. *)
Record Node := mkNode { r1 : Z; c1 : Z; r2 : Z; c2 : Z }.

Record Tree := mkTree {
  nodes : list Node; leaves : list spec_float; threshold : spec_float }.

Record Model := mkModel { tree_depth : Z; tree_count : Z; trees : list Tree }.

(** Sequencing of fallible reads. *)
Definition bindE {A B E : Type} (m : A + E) (f : A -> B + E) : B + E :=
  match m with
  | inl a => f a
  | inr e => inr e
  end.

(** Modelled from the spec: reading one field of [n] bytes; the deserializer
    "ran out of bytes before a field completed" when fewer are left. *)
Definition take_bytes (n : nat) (bs : list Z) : (list Z * list Z) + Error :=
  if (n <=? length bs)%nat then inl (take n bs, drop n bs)
  else inr TruncatedStream.

(** Modelled from the spec: the little-endian value of a group of bytes, and
    its reading as a signed number of [bits] bits. *)
Definition le_word (b : list Z) : Z := fold_right (fun x acc => x + 256 * acc) 0 b.

Definition signed (bits : Z) (w : Z) : Z :=
  if w <? 2 ^ (bits - 1) then w else w - 2 ^ bits.

(** Modelled from the spec: a "32-bit signed int" field. *)
Definition read_i32 (bs : list Z) : (Z * list Z) + Error :=
  bindE (take_bytes 4 bs) (fun '(b, rest) => inl (signed 32 (le_word b), rest)).

(** Modelled from the spec: the 4-tuples [(r1, c1, r2, c2)] of the node
    block and the floats of the leaf block, in stream order. *)
Fixpoint decode_nodes (n : nat) (b : list Z) : list Node :=
  match n, b with
  | S k, x1 :: x2 :: x3 :: x4 :: rest =>
      mkNode (signed 8 x1) (signed 8 x2) (signed 8 x3) (signed 8 x4)
      :: decode_nodes k rest
  | _, _ => []
  end.

Fixpoint decode_leaves (n : nat) (b : list Z) : list spec_float :=
  match n, b with
  | S k, x1 :: x2 :: x3 :: x4 :: rest =>
      float32.of_bits (le_word [x1; x2; x3; x4]) :: decode_leaves k rest
  | _, _ => []
  end.

(** Modelled from the spec: the per-tree layout of 4.A, "(2^tree_depth - 1)
    x 4 signed 8-bit values", "2^tree_depth IEEE-754 32-bit floats", "one
    32-bit float". *)
Definition read_tree (depth : Z) (bs : list Z) : (Tree * list Z) + Error :=
  let n_nodes := Z.to_nat (2 ^ depth - 1) in
  let n_leaves := Z.to_nat (2 ^ depth) in
  bindE (take_bytes (4 * n_nodes) bs) (fun '(nb, bs1) =>
  bindE (take_bytes (4 * n_leaves) bs1) (fun '(lb, bs2) =>
  bindE (take_bytes 4 bs2) (fun '(tb, bs3) =>
  inl (mkTree (decode_nodes n_nodes nb) (decode_leaves n_leaves lb)
              (float32.of_bits (le_word tb)), bs3)))).

(** Modelled from the spec: "Repeated per tree, in order". *)
Fixpoint read_trees (n : nat) (depth : Z) (bs : list Z) : list Tree + Error :=
  match n with
  | O => inl []
  | S k =>
      bindE (read_tree depth bs) (fun '(t, rest) =>
      bindE (read_trees k depth rest) (fun ts => inl (t :: ts)))
  end.

(** Modelled from the spec: the "implementation-defined safety ceiling
    (e.g., 16)" on [tree_depth]. *)
Definition safety_ceiling : Z := 16.

(** Modelled from the spec: the condition of [InvalidShape]. *)
Definition invalid_shape (depth count : Z) : bool :=
  (depth <=? 0) || (count <=? 0) || (safety_ceiling <? depth).

(** Modelled from the spec: [parse_cascade] of 4.A and 6, the deserializer
    the driver calls [Unpack].  The fields are read in layout order: eight
    reserved bytes, [tree_depth], [tree_count]; the shape is checked as soon
    as the header is complete, before any size is computed from it; then the
    trees are read one after the other. *)
Definition parse_cascade (bs : list Z) : Model + Error :=
  bindE (take_bytes 8 bs) (fun '(_, bs1) =>
  bindE (read_i32 bs1) (fun '(depth, bs2) =>
  bindE (read_i32 bs2) (fun '(count, bs3) =>
  if invalid_shape depth count then inr InvalidShape
  else
    bindE (read_trees (Z.to_nat count) depth bs3) (fun ts =>
    inl (mkModel depth count ts))))).

(** Modelled from the spec: the header fields at offsets 8 and 12 that a
    stream declares, when its 16 header bytes are there. *)
Definition declared (bs : list Z) : option (Z * Z) :=
  if (16 <=? length bs)%nat
  then Some (signed 32 (le_word (take 4 (drop 8 bs))),
             signed 32 (le_word (take 4 (drop 12 bs))))
  else None.

(** Modelled from the spec: the bytes one tree occupies in the layout of
    4.A, and the size of the whole layout a header declares. *)
Definition tree_size (depth : Z) : Z := (2 ^ depth - 1) * 4 + 2 ^ depth * 4 + 4.
Definition layout_size (depth count : Z) : Z := 16 + count * tree_size depth.

End Cascade.

(** *** 4.B  Window classifier *)
Module Window.
Import Cascade.

(** Modelled from the spec: the grayscale image of section 3, addressed as
    [pixel(r,c) = buffer[r*stride + c]]; a position outside the buffer reads
    as 0, since the classifier never fails. *)
Record Gray := mkGray { pixels : list Z; rows : Z; cols : Z; stride : Z }.

(** Modelled from the spec: [pixel(r,c)], for the missing classifier. *)
Definition pixel (im : Gray) (r c : Z) : Z :=
  let i := r * stride im + c in
  if i <? 0 then 0 else nth (Z.to_nat i) (pixels im) 0.

(** Modelled from the spec: "Clamp each sampled (r + dr, c + dc) to the
    image bounds". *)
Definition clamp (hi x : Z) : Z := Z.max 0 (Z.min hi x).

(** Modelled from the spec: the cosine and sine the rotation path takes of
    [angle * 2 pi]; they are a parameter of the classifier. *)
Class Trig := { cos : spec_float -> spec_float; sin : spec_float -> spec_float }.

(** Modelled from the spec: the displacement of one sample point, rotated
    when [angle > 0] and plain integer arithmetic otherwise; both truncate. *)
Definition displacement `{Trig} (angle : spec_float) (s ro co : Z) : Z * Z :=
  if float64.ltb (S754_zero false) angle then
    let theta := float64.mul angle float64.two_pi in
    let cs := cos theta in
    let sn := sin theta in
    let scale x := float64.trunc
      (float64.div (float64.mul x (float64.of_Z s)) (float64.of_Z 256)) in
    (scale (float64.sub (float64.mul cs (float64.of_Z ro))
                        (float64.mul sn (float64.of_Z co))),
     scale (float64.add (float64.mul sn (float64.of_Z ro))
                        (float64.mul cs (float64.of_Z co))))
  else (Z.quot (ro * s) 256, Z.quot (co * s) 256).

(** Modelled from the spec: the intensity at one clamped sample point. *)
Definition sample `{Trig} (im : Gray) (angle : spec_float) (r c s ro co : Z) : Z :=
  let '(dr, dc) := displacement angle s ro co in
  pixel im (clamp (rows im - 1) (r + dr)) (clamp (cols im - 1) (c + dc)).

(** Modelled from the spec: [tree_depth] comparisons from the root, "descend
    to the left child if true, right otherwise", children of node [i] being
    [2i+1] and [2i+2]. *)
Fixpoint descend `{Trig} (levels : nat) (t : Tree) (im : Gray) (angle : spec_float)
    (r c s : Z) (i : nat) : nat :=
  match levels with
  | O => i
  | S k =>
      let n := nth i (nodes t) (mkNode 0 0 0 0) in
      let p1 := sample im angle r c s (r1 n) (c1 n) in
      let p2 := sample im angle r c s (r2 n) (c2 n) in
      descend k t im angle r c s
        (if p1 <=? p2 then (2 * i + 1)%nat else (2 * i + 2)%nat)
  end.

(** Modelled from the spec: steps 2 to 4 of the algorithm; the running score
    accumulates across trees and a tree rejects when [score <= threshold]. *)
Fixpoint run_trees `{Trig} (depth : nat) (ts : list Tree) (im : Gray)
    (angle : spec_float) (r c s : Z) (score : spec_float) : option spec_float :=
  match ts with
  | [] => Some score
  | t :: ts' =>
      let leaf := (descend depth t im angle r c s 0 - (2 ^ depth - 1))%nat in
      let score' := float32.add score (nth leaf (leaves t) (S754_zero false)) in
      if float32.leb score' (threshold t) then None
      else run_trees depth ts' im angle r c s score'
  end.

(** Modelled from the spec: [classify] of 4.B, the missing window
    classifier; [None] is a rejection. *)
Definition classify `{Trig} (m : Model) (im : Gray) (r c s : Z)
    (angle : spec_float) : option spec_float :=
  run_trees (Z.to_nat (tree_depth m)) (trees m) im angle r c s (S754_zero false).

End Window.

(** Modelled from the spec: the classifier's cosine and sine are the binary64
    functions of module [trig]. *)
Definition series_trig : Window.Trig :=
  {| Window.cos := trig.cos; Window.sin := trig.sin |}.

(** *** 4.C  Sweep *)
Module Runner.
Import Cascade Window.

(** Modelled from the spec: the cascade parameters of section 3.  The two
    factors are the real numbers of the text, kept as exact rationals. *)
Record Params := mkParams {
  min_size : Z; max_size : Z;
  shift_factor : QArith_base.Q; scale_factor : QArith_base.Q }.

(** Modelled from the spec: invariants I1 and I2 of section 3. *)
Definition I1 (p : Params) : Prop := 0 < min_size p /\ min_size p <= max_size p.
Definition I2 (p : Params) : Prop :=
  (1 < scale_factor p)%Q /\ (0 < shift_factor p)%Q /\ (shift_factor p <= 1)%Q.

(** Modelled from the spec: "For r = s/2 to rows - s/2, stepping by step",
    both ends included. *)
Definition positions (lo hi step : Z) : list Z :=
  if hi <? lo then []
  else map (fun k => lo + Z.of_nat k * step) (seq 0 (S (Z.to_nat ((hi - lo) / step)))).

(** Modelled from the spec: "step = max(1, floor(s * shift_factor))". *)
Definition step_of (p : Params) (s : Z) : Z :=
  Z.max 1 (Qfloor (inject_Z s * shift_factor p)).

(** Modelled from the spec: "s = floor(s * scale_factor); if new s equals old
    s, add 1 to guarantee progress". *)
Definition next_scale (p : Params) (s : Z) : Z :=
  let s' := Qfloor (inject_Z s * scale_factor p) in
  if s' =? s then s + 1 else s'.

(** Modelled from the spec: all windows of one scale, rows ascending, then
    columns ascending, with a detection for each window that is accepted. *)
Definition sweep_scale `{Trig} (m : Model) (im : Gray) (p : Params)
    (angle : spec_float) (s : Z) : list Detection :=
  let step := step_of p s in
  flat_map (fun r =>
    flat_map (fun c =>
      match classify m im r c s angle with
      | Some q => [mkDetection r c s q]
      | None => []
      end) (positions (Z.quot s 2) (cols im - Z.quot s 2) step))
    (positions (Z.quot s 2) (rows im - Z.quot s 2) step).

(** Modelled from the spec: the scale loop "while s <= max_size"; [None]
    when the iterations allowed do not suffice. *)
Fixpoint sweep `{Trig} (fuel : nat) (m : Model) (im : Gray) (p : Params)
    (angle : spec_float) (s : Z) : option (list Detection) :=
  if max_size p <? s then Some []
  else match fuel with
       | O => None
       | S f =>
           ds ← sweep f m im p angle (next_scale p s);
           Some (sweep_scale m im p angle s ++ ds)
       end.

(** Modelled from the spec: "Values outside [0, 1] MUST be reduced modulo 1". *)
Definition reduce_angle (a : spec_float) : spec_float :=
  if float64.ltb a (S754_zero false) || float64.ltb (float64.of_Z 1) a
  then match a with
       | S754_finite _ _ _ => float64.sub a (float64.of_Z (float64.floor a))
       | _ => S754_nan
       end
  else a.

(** Iterations that suffice when the scale grows by at least one each time. *)
Definition scale_steps (p : Params) : nat := Z.to_nat (max_size p - min_size p + 1).

(** Modelled from the spec: [run_cascade] of 4.C and 6, the missing sweep
    the driver calls [RunCascade]. *)
Definition run_cascade `{Trig} (m : Model) (im : Gray) (p : Params)
    (angle : spec_float) : option (list Detection) :=
  sweep (scale_steps p) m im p (reduce_angle angle) (min_size p).

End Runner.

(** *** 4.C  Clusterer *)
Module Clusterer.

(** Modelled from the spec: the IoU of two squares; the half side [s/2] is
    the integer half used throughout, the ratio is a binary64 number. *)
Definition iou (a b : Detection) : spec_float :=
  let left := Z.max (Col a - Z.quot (Scale a) 2) (Col b - Z.quot (Scale b) 2) in
  let right := Z.min (Col a + Z.quot (Scale a) 2) (Col b + Z.quot (Scale b) 2) in
  let top := Z.max (Row a - Z.quot (Scale a) 2) (Row b - Z.quot (Scale b) 2) in
  let bot := Z.min (Row a + Z.quot (Scale a) 2) (Row b + Z.quot (Scale b) 2) in
  let inter := Z.max 0 (right - left) * Z.max 0 (bot - top) in
  let union := Scale a * Scale a + Scale b * Scale b - inter in
  if union =? 0 then S754_zero false
  else float64.div (float64.of_Z inter) (float64.of_Z union).

(** Modelled from the spec: "[iou_threshold] outside [0, 1] is treated as
    the nearest endpoint". *)
Definition clamp_threshold (t : spec_float) : spec_float :=
  if float64.ltb t (S754_zero false) then S754_zero false
  else if float64.ltb (float64.of_Z 1) t then float64.of_Z 1
  else t.

(** Modelled from the spec: "joined iff their IoU is strictly greater than
    [iou_threshold]". *)
Definition joined (t : spec_float) (a b : Detection) : bool :=
  float64.ltb t (iou a b).

(** Modelled from the spec: the union-find partition, over indices:
    [parent !! i] is the parent of [i], a root is its own parent, and a union
    keeps the smaller root, so that a component is named by its minimum
    index. *)
Fixpoint find (fuel : nat) (parent : list nat) (i : nat) : nat :=
  match fuel with
  | O => i
  | S f =>
      match parent !! i with
      | Some j => if (j =? i)%nat then i else find f parent j
      | None => i
      end
  end.

Definition union (parent : list nat) (i j : nat) : list nat :=
  let ri := find (length parent) parent i in
  let rj := find (length parent) parent j in
  if (ri =? rj)%nat then parent
  else if (ri <? rj)%nat then <[rj := ri]> parent
  else <[ri := rj]> parent.

(** Modelled from the spec: every pair of detections is compared once, and
    joined when the IoU asks for it. *)
Definition pairs (n : nat) : list (nat * nat) :=
  flat_map (fun i => map (fun j => (i, j)) (seq (S i) (n - S i))) (seq 0 n).

Definition link (t : spec_float) (ds : list Detection)
    (parent : list nat) (ij : nat * nat) : list nat :=
  match ds !! fst ij, ds !! snd ij with
  | Some a, Some b => if joined t a b then union parent (fst ij) (snd ij) else parent
  | _, _ => parent
  end.

Definition partition (t : spec_float) (ds : list Detection) : list nat :=
  fold_left (link t ds) (pairs (length ds)) (seq 0 (length ds)).

(** Modelled from the spec: the representative of a component, "the
    score-weighted means of its members" and the summed score.  Sums and
    quotients are binary32; a mean becomes an integer by truncation. *)
Definition weighted_sum (f : Detection -> Z) (ms : list Detection) : spec_float :=
  fold_left (fun acc d => float32.add acc (float32.mul (Q d) (float32.of_Z (f d))))
            ms (S754_zero false).

Definition score_sum (ms : list Detection) : spec_float :=
  fold_left (fun acc d => float32.add acc (Q d)) ms (S754_zero false).

Definition representative (ms : list Detection) : Detection :=
  let q := score_sum ms in
  mkDetection (float64.trunc (float32.div (weighted_sum Row ms) q))
              (float64.trunc (float32.div (weighted_sum Col ms) q))
              (float64.trunc (float32.div (weighted_sum Scale ms) q))
              q.

(** Modelled from the spec: the members of the component rooted at [root],
    in raw order; [j] is the index of the head of [ds] in a list of [n]
    detections. *)
Fixpoint members_from (parent : list nat) (n root j : nat) (ds : list Detection)
  : list Detection :=
  match ds with
  | [] => []
  | d :: ds' =>
      (if (find n parent j =? root)%nat then [d] else [])
      ++ members_from parent n root (S j) ds'
  end.

Definition members (parent : list nat) (ds : list Detection) (root : nat)
  : list Detection :=
  members_from parent (length ds) root 0 ds.

(** Modelled from the spec: [cluster] of 4.C and 6, the missing clusterer
    the driver calls [ClusterDetections]; one representative per component,
    components ordered by their minimum-index member. *)
Definition cluster (ds : list Detection) (iou_threshold : spec_float)
  : list Detection :=
  let parent := partition (clamp_threshold iou_threshold) ds in
  flat_map (fun i =>
    if (find (length ds) parent i =? i)%nat
    then [representative (members parent ds i)] else [])
    (seq 0 (length ds)).

End Clusterer.

(** ** Package [gg]: a drawing context

    The 2D library is outside the repository; a context is its size and the
    sequence of drawing calls made on it. *)
Module gg.

Inductive Op :=
  | DrawImage (im : imgconv.Image) (x y : Z)
  | DrawArc (x y r angle1 angle2 : spec_float)
  | DrawRectangle (x y w h : spec_float)
  | SetLineWidth (lineWidth : spec_float)
  | SetStrokeStyle (c : color.NRGBA)
  | Stroke.

Record Context := mkContext { width : Z; height : Z; ops : list Op }.

(** [gg.NewContext(width, height)] is
    [NewContextForRGBA(image.NewRGBA(image.Rect(0, 0, width, height)))].
    [image.Rect] puts the two corners in canonical order; [image.NewRGBA]
    panics, as [image.NewNRGBA] does, when the rectangle is too large for its
    buffer length to be an [int]; the context takes its width and height from
    the size of the rectangle.  [None] is the panic. *)
Definition NewContext (w h : Z) : option Context :=
  let r := image.Rect 0 0 w h in
  if pixbuf.mul3NonNeg 4 (image.Dx r) (image.Dy r) <? 0 then None
  else Some (mkContext (image.Dx r) (image.Dy r) []).

Definition call (c : Context) (o : Op) : Context :=
  mkContext (width c) (height c) (ops c ++ [o]).

End gg.

(** ** Errors and files *)
Inductive error :=
  | PathError (op path : string)
  | UnpackError (e : Cascade.Error).

(** [path/filepath.Ext]: the suffix beginning at the final dot of the final
    element of the path, or the empty string. *)
Fixpoint has_separator (s : string) : bool :=
  match s with
  | EmptyString => false
  | String c r => Ascii.eqb c "/"%char || has_separator r
  end.

Fixpoint Ext (s : string) : string :=
  match s with
  | EmptyString => EmptyString
  | String c r =>
      match Ext r with
      | EmptyString =>
          if Ascii.eqb c "."%char && negb (has_separator r) then s else EmptyString
      | e => e
      end
  end.

Module os.

(** Files by name, and the names at which a file can be created. *)
Record FileSys := mkFileSys {
  files : gmap string (list Z);
  creatable : string -> bool }.

(** [ioutil.ReadFile]. *)
Definition ReadFile (fs : FileSys) (name : string) : list Z + error :=
  match files fs !! name with
  | Some data => inl data
  | None => inr (PathError "open" name)
  end.

(** [os.OpenFile(name, os.O_CREATE|os.O_RDWR, 0755)]: an existing file is
    opened as it is (no truncation), a missing one is created empty. *)
Definition OpenFile (fs : FileSys) (name : string) : FileSys + error :=
  match files fs !! name with
  | Some _ => inl fs
  | None =>
      if creatable fs name
      then inl (mkFileSys (<[name := []]> (files fs)) (creatable fs))
      else inr (PathError "open" name)
  end.

(** Writing [data] from offset 0 of an open file. *)
Definition Write (fs : FileSys) (name : string) (data : list Z) : FileSys :=
  match files fs !! name with
  | Some old =>
      mkFileSys (<[name := data ++ drop (length data) old]> (files fs))
                (creatable fs)
  | None => fs
  end.

End os.

(** ** The driver

    [World] is the state a call can observe or change: the package-level
    variable [dc], the file system, and the store of pixel buffers. *)
Record World := mkWorld {
  dc : option gg.Context;
  fsys : os.FileSys;
  hp : imgconv.heap }.

(** What a call of the driver comes to: it panics, it does not end, or it
    returns a value and leaves a world. *)
Inductive outcome (A : Type) :=
  | Panic
  | Diverge
  | Return (w : World) (a : A).
Arguments Panic {A}.
Arguments Diverge {A}.
Arguments Return {A} w a.

(** What a call into the absent core file comes to: a value, a panic, or a
    run that does not end. *)
Inductive run (A : Type) :=
  | Yields (a : A)
  | Panics
  | Diverges.
Arguments Yields {A} a.
Arguments Panics {A}.
Arguments Diverges {A}.

(** The functions of the absent core file, as the driver calls them.
    Nothing is known of them but their signatures: any of them may panic or
    fail to end on some argument. *)
Class PigoCore := {
  Pigo : Type;
  Unpack : list Z -> run (Pigo + error);
  RunCascade : Pigo -> CascadeParams -> spec_float -> run (list Detection);
  ClusterDetections : Pigo -> list Detection -> spec_float -> run (list Detection);
  RgbToGrayscale : pixbuf.NRGBA -> run (list Z) }.

(** The encoders of [image/jpeg] and [image/png], applied to the picture the
    drawing context renders. *)
Class Encoders := {
  jpeg_Encode : gg.Context -> list Z;
  png_Encode : gg.Context -> list Z }.

Record faceDetector := mkFaceDetector {
  angle : spec_float;
  cascadeFile : string;
  destination : string;
  minSize : Z;
  maxSize : Z;
  shiftFactor : spec_float;
  scaleFactor : spec_float;
  iouThreshold : spec_float }.

Definition NewFaceDetector (destination cf : string) (minSize maxSize : Z)
    (shf scf iou angle : spec_float) : faceDetector :=
  mkFaceDetector angle cf destination minSize maxSize shf scf iou.

(** The parameters [DetectFaces] hands to [RunCascade]. *)
Definition cascade_params (fd : faceDetector) (pixels : list Z) (rows cols : Z)
  : CascadeParams :=
  mkCascadeParams (minSize fd) (maxSize fd) (shiftFactor fd) (scaleFactor fd)
                  (mkImageParams pixels rows cols cols).

(** A call into the core that panics or does not end makes the caller do
    the same. *)
Definition core_call {A B : Type} (r : run A) (k : A -> outcome B) : outcome B :=
  match r with
  | Yields a => k a
  | Panics => Panic
  | Diverges => Diverge
  end.

(** A step that panics makes the caller panic. *)
Definition or_panic {A B : Type} (o : option A) (k : A -> outcome B) : outcome B :=
  match o with
  | Some a => k a
  | None => Panic
  end.

(** [DetectFaces], statement by statement: the conversion, the grayscale
    buffer of the converted image, the bounds of the source, the new drawing
    context stored in [dc] with the source drawn on it, the cascade file,
    its unpacking, the sweep and the clustering.  [NewPigo()] and [Unpack]
    on its value are the one call [Unpack] of the interface. *)
Definition DetectFaces `{PigoCore} (fd : faceDetector) (w : World)
    (src : imgconv.Image) : outcome (list Detection + error) :=
  or_panic (imgconv.ImgToNRGBA (hp w) src) (fun '(h1, res) =>
  or_panic (h1 !! res) (fun res_img =>
  core_call (RgbToGrayscale res_img) (fun pixels =>
  or_panic (imgconv.Bounds h1 src) (fun bounds =>
  let cols := image.X (image.Max bounds) in
  let rows := image.Y (image.Max bounds) in
  or_panic (gg.NewContext cols rows) (fun ctx =>
  let w1 := mkWorld (Some (gg.call ctx (gg.DrawImage src 0 0))) (fsys w) h1 in
  let cParams := cascade_params fd pixels rows cols in
  match os.ReadFile (fsys w) (cascadeFile fd) with
  | inr err => Return w1 (inr err)
  | inl cascade_bytes =>
      core_call (Unpack cascade_bytes) (fun unpacked =>
      match unpacked with
      | inr err => Return w1 (inr err)
      | inl classifier =>
          core_call (RunCascade classifier cParams (angle fd)) (fun faces =>
          core_call (ClusterDetections classifier faces (iouThreshold fd))
            (fun faces => Return w1 (inl faces)))
      end)
  end))))).

Definition qThresh : spec_float := float32.of_Z 5.

(** [face.Q > qThresh]. *)
Definition above_qThresh (face : Detection) : bool := float32.ltb qThresh (Q face).

(** The rectangle [DrawFaces] records for a face. *)
Definition face_rect (face : Detection) : image.Rectangle :=
  image.Rect (GoInt.sub (Col face) (GoInt.quot (Scale face) 2))
             (GoInt.sub (Row face) (GoInt.quot (Scale face) 2))
             (Scale face) (Scale face).

Definition face_shape (isCircle : bool) (face : Detection) : gg.Op :=
  if isCircle then
    gg.DrawArc (float64.of_Z (Col face)) (float64.of_Z (Row face))
               (float64.of_Z (GoInt.quot (Scale face) 2))
               (float64.of_Z 0) float64.two_pi
  else
    gg.DrawRectangle
      (float64.of_Z (GoInt.sub (Col face) (GoInt.quot (Scale face) 2)))
      (float64.of_Z (GoInt.sub (Row face) (GoInt.quot (Scale face) 2)))
      (float64.of_Z (Scale face)) (float64.of_Z (Scale face)).

(** The calls one marked face makes on the context, in order. *)
Definition face_marker (isCircle : bool) (face : Detection) : list gg.Op :=
  [ face_shape isCircle face;
    gg.SetLineWidth (float64.of_Z 2);
    gg.SetStrokeStyle (color.mkNRGBA 255 0 0 255);
    gg.Stroke ].

(** One iteration of the loop over [faces]. *)
Definition mark_face (isCircle : bool)
    (st : gg.Context * list image.Rectangle) (face : Detection)
  : gg.Context * list image.Rectangle :=
  if above_qThresh face
  then (fold_left gg.call (face_marker isCircle face) (fst st),
        snd st ++ [face_rect face])
  else st.

Definition mark_faces (isCircle : bool) (faces : list Detection)
    (ctx : gg.Context) : gg.Context * list image.Rectangle :=
  fold_left (mark_face isCircle) faces (ctx, []).

(** The encoder the extension of the destination selects, if any. *)
Definition encode_for `{Encoders} (ext : string) (ctx : gg.Context)
  : option (list Z) :=
  if (String.eqb ext ".jpg" || String.eqb ext ".jpeg")%bool
  then Some (jpeg_Encode ctx)
  else if String.eqb ext ".png" then Some (png_Encode ctx)
  else None.

(** [DrawFaces] returns the bytes of the written file, the rectangles and the
    error; a nil slice is the empty list.  Every method of a nil [dc]
    panics. *)
Definition DrawFaces `{Encoders} (fd : faceDetector) (w : World)
    (faces : list Detection) (isCircle : bool)
  : outcome (list Z * list image.Rectangle * option error) :=
  match dc w with
  | None => Panic
  | Some ctx =>
      let '(ctx, rects) := mark_faces isCircle faces ctx in
      match os.OpenFile (fsys w) (destination fd) with
      | inr err => Return (mkWorld (Some ctx) (fsys w) (hp w)) ([], [], Some err)
      | inl fs1 =>
          let fs2 := match encode_for (Ext (destination fd)) ctx with
                     | Some data => os.Write fs1 (destination fd) data
                     | None => fs1
                     end in
          let w' := mkWorld (Some ctx) fs2 (hp w) in
          match os.ReadFile fs2 (destination fd) with
          | inl rf => Return w' (rf, rects, None)
          | inr err => Return w' ([], rects, Some err)
          end
      end
  end.

(** ** [GetImage]

    [image.Decode] is outside the repository: it takes the bytes of a file
    to an image, which it allocates, or to an error of its own. *)
Inductive Decoded :=
  | DecodedNRGBA (n : pixbuf.NRGBA)
  | DecodedYCbCr (y : pixbuf.YCbCr)
  | DecodedOther (g : pixbuf.Generic).

Class Decoder := {
  DecodeError : Type;
  image_Decode : list Z -> Decoded + DecodeError }.

(** The error [GetImage] returns: that of [os.Open] or that of
    [image.Decode]. *)
Inductive GetImage_error `{Decoder} :=
  | OpenFailed (err : error)
  | DecodeFailed (err : DecodeError).

(** [os.Open(name)], with the reads that follow it: the bytes of the file,
    or the error of opening it. *)
Definition os_Open (fs : os.FileSys) (name : string) : list Z + error :=
  match os.files fs !! name with
  | Some data => inl data
  | None => inr (PathError "open" name)
  end.

Definition GetImage `{Decoder} (w : World) (input : string)
  : World * (imgconv.Image + GetImage_error) :=
  match os_Open (fsys w) input with
  | inr err => (w, inr (OpenFailed err))
  | inl file =>
      match image_Decode file with
      | inr err => (w, inr (DecodeFailed err))
      | inl (DecodedNRGBA n) =>
          let '(h, l) := imgconv.alloc (hp w) n in
          (mkWorld (dc w) (fsys w) h, inl (imgconv.ImNRGBA l))
      | inl (DecodedYCbCr y) => (w, inl (imgconv.ImYCbCr y))
      | inl (DecodedOther g) => (w, inl (imgconv.ImOther g))
      end
  end.

(** ** The command-line driver (package [main]) *)
Module cmd.

(** [inSlice] checks if a slice contains the string value. *)
Fixpoint inSlice (ext : string) (types : list string) : bool :=
  match types with
  | [] => false
  | t :: rest => if String.eqb t ext then true else inSlice ext rest
  end.

(** The values of the command-line flags after [flag.Parse]. *)
Record flags := mkFlags {
  source : string;
  destination : string;
  cascadeFile : string;
  minSize : Z;
  maxSize : Z;
  shiftFactor : spec_float;
  scaleFactor : spec_float;
  angle : spec_float;
  iouThreshold : spec_float;
  circleMarker : bool;
  outputAsJSON : bool }.

Definition fileTypes : list string := [".jpg"; ".jpeg"; ".png"]%string.

(** The constant 1.05 as a [float64]. *)
Definition min_scale : spec_float :=
  float64.div (float64.of_Z 105) (float64.of_Z 100).

(** The calls of [log.Fatal] in [main], by their message. *)
Inductive fatal :=
  | Usage
  | TypeNotSupported (ext : string)
  | ScaleFactorTooSmall
  | DetectionError (err : error)
  | OutputError (err : error).

Inductive exit :=
  | Fatal (m : fatal)
  | Done.

(** The checks at the start of [main]: the fatal message they end in, if
    any. *)
Definition checks (f : flags) : option fatal :=
  if ((String.length (source f) =? 0)%nat
      || (String.length (destination f) =? 0)%nat
      || (String.length (cascadeFile f) =? 0)%nat)%bool
  then Some Usage
  else
    let ext := Ext (destination f) in
    if negb (inSlice ext fileTypes) then Some (TypeNotSupported ext)
    else if float64.ltb (scaleFactor f) min_scale then Some ScaleFactorTooSmall
    else None.

(** The detector [main] builds from the flags. *)
Definition detector (f : flags) : faceDetector :=
  NewFaceDetector (destination f) (cascadeFile f) (minSize f) (maxSize f)
                  (shiftFactor f) (scaleFactor f) (iouThreshold f) (angle f).

(** [encoding/json]'s [Marshal] on the rectangles. *)
Class Json := { json_Marshal : list image.Rectangle -> list Z }.

(** [ioutil.WriteFile(name, data, 0644)], its error dropped as [main]
    drops it: the file is created or truncated and holds [data]. *)
Definition WriteFile (fs : os.FileSys) (name : string) (data : list Z)
  : os.FileSys :=
  match os.files fs !! name with
  | None => if os.creatable fs name
            then os.mkFileSys (<[name := data]> (os.files fs)) (os.creatable fs)
            else fs
  | Some _ => os.mkFileSys (<[name := data]> (os.files fs)) (os.creatable fs)
  end.

(** [main], from the parsed flags on.  It calls [DetectFaces] with the path
    of the source image; the method with that signature is not among the
    sources and enters as [detect].  The progress indicator and the timing
    only print. *)
Definition main `{Encoders} `{Json}
    (detect : faceDetector -> World -> string -> outcome (list Detection + error))
    (f : flags) (w : World) : outcome exit :=
  match checks f with
  | Some m => Return w (Fatal m)
  | None =>
      let fd := detector f in
      match detect fd w (source f) with
      | Panic => Panic
      | Diverge => Diverge
      | Return w1 (inr err) => Return w1 (Fatal (DetectionError err))
      | Return w1 (inl faces) =>
          match DrawFaces fd w1 faces (circleMarker f) with
          | Panic => Panic
          | Diverge => Diverge
          | Return w2 (_, _, Some err) => Return w2 (Fatal (OutputError err))
          | Return w2 (_, rects, None) =>
              let out := json_Marshal rects in
              if outputAsJSON f
              then Return (mkWorld (dc w2) (WriteFile (fsys w2) "output.json" out)
                                   (hp w2)) Done
              else Return w2 Done
          end
      end
  end.

End cmd.

(** ** The progress indicator of the command

    [start] makes a channel of capacity 1 and launches a goroutine that, for
    each rune of the string in turn and over and over, either takes a value
    from the channel and returns, or prints the rune and sleeps; [stop]
    sends a value on the channel.  A state holds the channel ([None] is the
    nil channel of a spinner that was never started, otherwise the number of
    values buffered), the goroutines launched so far and the runes printed.
    A goroutine is at the [select] for a rune, or past it in the [default]
    branch and about to print the rune, or has returned; the goroutines and
    the caller interleave between these points. *)
Module spinner.

Definition frames : list ascii := ["-"; "\"; "|"; "/"]%char.

(** The channel's capacity, [make(chan struct{}, 1)]. *)
Definition capacity : nat := 1.

Inductive routine :=
  | AtSelect (i : nat)
  | AtPrint (i : nat)
  | Returned.

Record state := mkState {
  stopChan : option nat;
  routines : list routine;
  printed : list ascii }.

(** A spinner as [new(spinner)] makes it. *)
Definition new : state := mkState None [] [].

Definition start (s : state) : state :=
  mkState (Some 0%nat) (routines s ++ [AtSelect 0]) (printed s).

(** [s.stopChan <- struct{}{}]: [None] when the send cannot proceed, on a
    full channel as on a nil one. *)
Definition stop (s : state) : option state :=
  match stopChan s with
  | Some n =>
      if (n <? capacity)%nat
      then Some (mkState (Some (S n)) (routines s) (printed s))
      else None
  | None => None
  end.

(** The index of the rune after [i]: the inner loop ranges over the string,
    the outer loop starts it again. *)
Definition next (i : nat) : nat :=
  if (S i <? length frames)%nat then S i else 0%nat.

(** The rune at an index of the string. *)
Definition rune (i : nat) : ascii := nth i frames "-"%char.

(** One turn of goroutine [k]: through the [select], or through the
    [Printf] and the [Sleep] of its [default] branch.  [None] when there is
    no such goroutine or it has returned. *)
Definition turn (k : nat) (s : state) : option state :=
  match routines s !! k with
  | Some (AtSelect i) =>
      match stopChan s with
      | Some (S n) =>
          Some (mkState (Some n) (<[k := Returned]> (routines s)) (printed s))
      | _ =>
          Some (mkState (stopChan s) (<[k := AtPrint i]> (routines s)) (printed s))
      end
  | Some (AtPrint i) =>
      Some (mkState (stopChan s) (<[k := AtSelect (next i)]> (routines s))
                    (printed s ++ [rune i]))
  | _ => None
  end.

(** The goroutines take turns in the order of a schedule; a turn that
    cannot be taken is skipped. *)
Definition run (schedule : list nat) (s : state) : state :=
  fold_left (fun s k => default s (turn k s)) schedule s.

End spinner.

(** ** The specification's core behind the driver's interface *)

(** The image and the parameters of the specification's sweep, taken from
    the driver's [CascadeParams]; a factor that is not a finite number counts
    as 0. *)
Definition gray_of (ip : ImageParams) : Window.Gray :=
  Window.mkGray (Pixels ip) (Rows ip) (Cols ip) (Dim ip).

Definition params_of (cp : CascadeParams) : Runner.Params :=
  Runner.mkParams (MinSize cp) (MaxSize cp)
                  (float64.to_Q (ShiftFactor cp)) (float64.to_Q (ScaleFactor cp)).

(** Modelled from the spec: the grayscale conversion of section 6, "standard
    ITU-R BT.601 luma: y = 0.299 R + 0.587 G + 0.114 B, truncated to 8 bits",
    over the four-byte pixels of the buffer. *)
Definition luma (r g b : Z) : Z :=
  let coef n := float64.div (float64.of_Z n) (float64.of_Z 1000) in
  let term n v := float64.mul (coef n) (float64.of_Z v) in
  float64.trunc (float64.add (float64.add (term 299 r) (term 587 g)) (term 114 b))
  mod 256.

(** Modelled from the spec: the grayscale buffer of a pixel buffer, for the
    missing [RgbToGrayscale]. *)
Fixpoint luma_of_pix (pix : list Z) : list Z :=
  match pix with
  | r :: g :: b :: _ :: rest => luma r g b :: luma_of_pix rest
  | _ => []
  end.

(** The core of the specification as an instance of the interface.  Its
    deserializer, its clusterer and its grayscale conversion return on every
    argument; its sweep returns when the scale steps allowed suffice, as
    they do under I1 and I2, and counts as a run without end otherwise. *)
Definition spec_core `{Window.Trig} : PigoCore := {|
  Pigo := Cascade.Model;
  Unpack bs :=
    match Cascade.parse_cascade bs with
    | inl m => Yields (inl m)
    | inr e => Yields (inr (UnpackError e))
    end;
  RunCascade m cp a :=
    match Runner.run_cascade m (gray_of (Image_Params cp)) (params_of cp) a with
    | Some ds => Yields ds
    | None => Diverges
    end;
  ClusterDetections _ ds t := Yields (Clusterer.cluster ds t);
  RgbToGrayscale n := Yields (luma_of_pix (pixbuf.Pix n)) |}.

(** * Statements: conditions and sample data *)

(** ** Conditions used in the statements *)

Section reading.
Import image pixbuf imgconv.

(** What the conversion reads from its source has to be there. *)
Definition readable (h : heap) (img : Image) (b : Rectangle) : Prop :=
  match img with
  | ImNRGBA p =>
      exists src, h !! p = Some src /\
        forall y, 0 <= y < Dy b -> 0 < Dx b ->
          let si := PixOffset src (X (Min b)) (GoInt.add (Y (Min b)) y) in
          is_Some (slice (Pix src) si (GoInt.add si (GoInt.mul (Dx b) 4)))
  | ImYCbCr src =>
      forall x y, 0 <= x < Dx b -> 0 <= y < Dy b ->
        let sx := GoInt.add (X (Min b)) x in
        let sy := GoInt.add (Y (Min b)) y in
        is_Some (index (YPlane src) (YOffset src sx sy))
        /\ is_Some (index (CbPlane src) (COffset src sx sy))
        /\ is_Some (index (CrPlane src) (COffset src sx sy))
  | ImOther _ => True
  end.

End reading.

(** A drawing context of the given size on which [src] has been drawn at
    (0, 0), and nothing else. *)
Definition fresh_canvas (src : imgconv.Image) (width height : Z) : gg.Context :=
  gg.mkContext width height [gg.DrawImage src 0 0].

(** What a call computes from the bytes of the cascade file, or from the
    failure to read them: the error of reading, the error of unpacking, or
    the clustered sweep - when the calls into the core return. *)
Definition detection_result `{PigoCore} (fd : faceDetector)
    (file : list Z + error) (cParams : CascadeParams)
  : run (list Detection + error) :=
  match file with
  | inr err => Yields (inr err)
  | inl cascade_bytes =>
      match Unpack cascade_bytes with
      | Yields (inr err) => Yields (inr err)
      | Yields (inl classifier) =>
          match RunCascade classifier cParams (angle fd) with
          | Yields raw =>
              match ClusterDetections classifier raw (iouThreshold fd) with
              | Yields faces => Yields (inl faces)
              | Panics => Panics
              | Diverges => Diverges
              end
          | Panics => Panics
          | Diverges => Diverges
          end
      | Panics => Panics
      | Diverges => Diverges
      end
  end.

(** A value of Go's [float32]: a zero, an infinity, a NaN, or a finite
    number in the one form binary32 has for it. *)
Definition is_float32 (x : spec_float) : Prop :=
  match x with
  | S754_finite _ m e => bounded float32.prec float32.emax m e = true
  | _ => True
  end.

(** The number is strictly greater than 5: it is +Inf, or it is a positive
    finite [m * 2^e] with [5 < m * 2^e], the inequality cleared of the
    negative power. *)
Definition greater_than_five (x : spec_float) : Prop :=
  match x with
  | S754_infinity false => True
  | S754_finite false m e => 5 * 2 ^ Z.max 0 (- e) < Z.pos m * 2 ^ Z.max 0 e
  | _ => False
  end.

#[global] Instance greater_than_five_dec (x : spec_float) :
  Decision (greater_than_five x).
Proof. destruct x as [| [|] | | [|] m e]; simpl; apply _. Defined.

(** The context after the loop over [faces]: the markers of the faces that
    pass the gate, in order, after what was drawn before. *)
Definition marked (isCircle : bool) (faces : list Detection) (ctx : gg.Context)
  : gg.Context :=
  gg.mkContext (gg.width ctx) (gg.height ctx)
    (gg.ops ctx ++ flat_map (face_marker isCircle) (List.filter above_qThresh faces)).

(** The rectangles a call returns: those of the loop, or none when the
    destination cannot be opened. *)
Definition returned_rects (fd : faceDetector) (w : World) (faces : list Detection)
  : list image.Rectangle :=
  match os.OpenFile (fsys w) (destination fd) with
  | inl _ => map face_rect (List.filter above_qThresh faces)
  | inr _ => []
  end.


(** Bytes one tree takes from the stream. *)
Definition tree_bytes (depth : Z) : nat :=
  (4 * Z.to_nat (2 ^ depth - 1) + 4 * Z.to_nat (2 ^ depth) + 4)%nat.

(** "Some field of the declared layout cannot be read in full": the header
    is incomplete, or the stream is shorter than the layout it declares. *)
Definition field_unreadable (bs : list Z) : Prop :=
  match Cascade.declared bs with
  | None => True
  | Some (depth, count) => Z.of_nat (length bs) < Cascade.layout_size depth count
  end.

(** The centre of a detection is a pixel of the image, and lies strictly
    inside it. *)
Definition centre_in_image (im : Window.Gray) (d : Detection) : Prop :=
  0 <= Row d < Window.rows im /\ 0 <= Col d < Window.cols im.

Definition centre_strictly_inside (im : Window.Gray) (d : Detection) : Prop :=
  0 < Row d < Window.rows im /\ 0 < Col d < Window.cols im.

(** Two detections of [ds] at different indices are never joined. *)
Definition separated (t : spec_float) (ds : list Detection) : Prop :=
  forall i j a b, ds !! i = Some a -> ds !! j = Some b -> i <> j ->
                  Clusterer.joined (Clusterer.clamp_threshold t) a b = false.

(** ** Notions used in the statements about the sources *)

(** [p.Pix[p.PixOffset(x, y) + k]]: channel [k] of the pixel at (x, y). *)
Definition channel_at (p : pixbuf.NRGBA) (x y k : Z) : option Z :=
  pixbuf.index (pixbuf.Pix p) (GoInt.add (pixbuf.PixOffset p x y) k).

(** The four stores of one pixel in the per-pixel loops. *)
Definition store_pixel (di : Z) (pix : list Z) (a b c d : Z)
  : option (Z * list Z) :=
  p1 ← pixbuf.store pix (GoInt.add di 0) a;
  p2 ← pixbuf.store p1 (GoInt.add di 1) b;
  p3 ← pixbuf.store p2 (GoInt.add di 2) c;
  p4 ← pixbuf.store p3 (GoInt.add di 3) d;
  Some (GoInt.add di 4, p4).



(** The content of a file before a call, empty when there is none. *)
Definition content_of (fs : os.FileSys) (name : string) : list Z :=
  default [] (os.files fs !! name).

(** The extensions [DrawFaces] has an encoder for. *)
Definition encoded_extensions : list string := [".jpg"; ".jpeg"; ".png"]%string.

(** What the encoder chosen by the extension writes for a picture. *)
Definition encoding `{Encoders} (ext : string) (picture : gg.Context) : list Z :=
  if String.eqb ext ".png" then png_Encode picture else jpeg_Encode picture.

(** Writing [data] over [old] from offset 0 without truncating. *)
Definition overwrite (data old : list Z) : list Z :=
  data ++ drop (length data) old.

(** The square [dc.DrawRectangle(x, y, w, h)] outlines for a face, in the
    coordinates of the picture: from (x, y) to (x + w, y + h). *)
Definition drawn_square (face : Detection) : image.Rectangle :=
  let x := GoInt.sub (Col face) (GoInt.quot (Scale face) 2) in
  let y := GoInt.sub (Row face) (GoInt.quot (Scale face) 2) in
  image.Rect x y (x + Scale face) (y + Scale face).

(** While nothing is sent, a started spinner keeps an empty channel and one
    goroutine, which is at the rune whose index is the number of runes
    printed, modulo 4; the runes printed follow the string, over and over. *)
Definition spinning (s : spinner.state) : Prop :=
  spinner.stopChan s = Some 0%nat
  /\ (exists i, (spinner.routines s = [spinner.AtSelect i]
                 \/ spinner.routines s = [spinner.AtPrint i])
       /\ i = (length (spinner.printed s) mod 4)%nat)
  /\ forall j, (j < length (spinner.printed s))%nat ->
       spinner.printed s !! j = spinner.frames !! (j mod 4)%nat.

(** A spinner that has been sent the value, [m] turns of its goroutine away
    from the return at most, [p] being what was printed when the value was
    sent. *)
Definition stopping (p : list ascii) (m : nat) (s : spinner.state) : Prop :=
  match m with
  | 0%nat =>
      spinner.routines s = [spinner.Returned]
      /\ exists late, spinner.printed s = p ++ late /\ (length late <= 1)%nat
  | 1%nat =>
      spinner.stopChan s = Some 1%nat
      /\ (exists i, spinner.routines s = [spinner.AtSelect i])
      /\ exists late, spinner.printed s = p ++ late /\ (length late <= 1)%nat
  | _ =>
      spinner.stopChan s = Some 1%nat
      /\ (exists i, spinner.routines s = [spinner.AtPrint i])
      /\ spinner.printed s = p
  end.

(** The turns of goroutine 0 in a schedule. *)
Definition turns_of_first (schedule : list nat) : nat :=
  length (filter (fun k => k = 0%nat) schedule).

(** ** Sample data *)

(** A two-by-one picture of some other image type, away from the origin. *)
Definition sample_generic : pixbuf.Generic :=
  pixbuf.mkGeneric
    (image.mkRectangle (image.mkPoint 3 5) (image.mkPoint 5 6))
    (fun x y => color.mkNRGBA (10 * x) (10 * y) 7 255).

(** A two-by-two [image.NRGBA] with min-point (1, 1), stored at address 5. *)
Definition sample_nrgba : pixbuf.NRGBA :=
  pixbuf.mkNRGBA [1; 2; 3; 4; 5; 6; 7; 8; 9; 10; 11; 12; 13; 14; 15; 16] 8
    (image.mkRectangle (image.mkPoint 1 1) (image.mkPoint 3 3)).

Definition sample_heap : imgconv.heap := <[5%positive := sample_nrgba]> ∅.

(** The buffer [ImgToNRGBA] allocates for [sample_nrgba], at address 6. *)
Definition sample_converted : pixbuf.NRGBA :=
  pixbuf.mkNRGBA [1; 2; 3; 4; 5; 6; 7; 8; 9; 10; 11; 12; 13; 14; 15; 16] 8
    (image.mkRectangle (image.mkPoint 0 0) (image.mkPoint 2 2)).

(** A cascade of one tree of depth 1 whose two leaves are 6.0 and whose
    threshold is 0.0. *)
Definition sample_cascade : list Z :=
  [0; 0; 0; 0; 0; 0; 0; 0;  1; 0; 0; 0;  1; 0; 0; 0;
   0; 0; 0; 0;  0; 0; 192; 64;  0; 0; 192; 64;  0; 0; 0; 0].

(** A four-by-four [image.NRGBA] at the origin, stored at address 1. *)
Definition sample_photo : pixbuf.NRGBA :=
  pixbuf.mkNRGBA
    (flat_map (fun i => [16 * Z.of_nat i; 8 * Z.of_nat i; 4 * Z.of_nat i; 255])
              (seq 0 16))
    16 (image.mkRectangle (image.mkPoint 0 0) (image.mkPoint 4 4)).

Definition tenths (n : Z) : spec_float :=
  float64.div (float64.of_Z n) (float64.of_Z 10).

Definition sample_detector : faceDetector :=
  NewFaceDetector "out.png" "facefinder" 2 4
                  (tenths 1) (tenths 11) (tenths 2) (S754_zero false).

Definition sample_files : os.FileSys :=
  os.mkFileSys (<["facefinder"%string := sample_cascade]> ∅) (fun _ => true).

Definition sample_world : World :=
  mkWorld None sample_files (<[1%positive := sample_photo]> ∅).

(** Encoders that write only the signature of their format. *)
Definition signature_encoders : Encoders :=
  {| jpeg_Encode := fun _ => [255; 216]; png_Encode := fun _ => [137; 80; 78; 71] |}.

Definition sample_faces : list Detection :=
  [mkDetection 2 2 2 (S754_finite false 14942208 (-17))].

Definition sample_world_after : World :=
  mkWorld (Some (fresh_canvas (imgconv.ImNRGBA 1%positive) 4 4))
          sample_files (<[1%positive := sample_photo]> ∅).

(** A two-by-one picture whose max-point is (-1, -1), and the world after a
    detection on it: the converted copy is at address 2. *)
Definition sample_negative : pixbuf.Generic :=
  pixbuf.mkGeneric
    (image.mkRectangle (image.mkPoint (-3) (-2)) (image.mkPoint (-1) (-1)))
    (fun _ _ => color.mkNRGBA 9 9 9 255).

Definition sample_world_negative_after : World :=
  mkWorld (Some (fresh_canvas (imgconv.ImOther sample_negative) 1 1))
          sample_files
          (<[2%positive := pixbuf.mkNRGBA [9; 9; 9; 255; 9; 9; 9; 255] 8
                             (image.mkRectangle (image.mkPoint 0 0)
                                                (image.mkPoint 2 1))]>
             (<[1%positive := sample_photo]> ∅)).

(** A one-pixel picture far from the origin. *)
Definition sample_far_away : pixbuf.Generic :=
  pixbuf.mkGeneric
    (image.mkRectangle (image.mkPoint (2 ^ 62) (2 ^ 62))
                       (image.mkPoint (2 ^ 62 + 1) (2 ^ 62 + 1)))
    (fun _ _ => color.mkNRGBA 9 9 9 255).

(** A cascade of one tree of depth 1 whose root compares the centre of a
    window of side 4 with the pixel to its right (offset 64 of 256); the
    left leaf is 6.0, the right leaf 3.0, the threshold 0.0. *)
Definition sample_cascade_uneven : list Z :=
  [0; 0; 0; 0; 0; 0; 0; 0;  1; 0; 0; 0;  1; 0; 0; 0;
   0; 0; 0; 64;  0; 0; 192; 64;  0; 0; 64; 64;  0; 0; 0; 0].

(** A gray picture five pixels wide and four high, each row
    0, 0, 10, 200, 50; a detector for windows of side 4 that joins no two
    of them; the world of its run, before and after. *)
Definition sample_strip : pixbuf.NRGBA :=
  pixbuf.mkNRGBA
    (flat_map (fun _ => [0; 0; 0; 255;  0; 0; 0; 255;  10; 10; 10; 255;
                         200; 200; 200; 255;  50; 50; 50; 255]) (seq 0 4))
    20 (image.mkRectangle (image.mkPoint 0 0) (image.mkPoint 5 4)).

Definition sample_detector_strip : faceDetector :=
  NewFaceDetector "out.png" "uneven" 4 4
                  (tenths 1) (tenths 11) (float64.of_Z 1) (S754_zero false).

Definition sample_world_strip : World :=
  mkWorld None
    (os.mkFileSys (<["uneven"%string := sample_cascade_uneven]> ∅) (fun _ => true))
    (<[1%positive := sample_strip]> ∅).

Definition sample_world_strip_after : World :=
  mkWorld (Some (fresh_canvas (imgconv.ImNRGBA 1%positive) 5 4))
          (fsys sample_world_strip) (hp sample_world_strip).

(** The two faces of that run: one scores 6.0, the other 3.0. *)
Definition sample_faces_uneven : list Detection :=
  [mkDetection 2 2 4 (float32.of_Z 6); mkDetection 2 3 4 (float32.of_Z 3)].

(** The world of the sample run once the cascade file has been removed. *)
Definition sample_world_without_cascade : World :=
  mkWorld (dc sample_world_after) (os.mkFileSys ∅ (fun _ => true))
          (hp sample_world_after).

(** The sample file system once the destination has been created. *)
Definition sample_files_opened : os.FileSys :=
  os.mkFileSys (<["out.png"%string := []]> (os.files sample_files))
               (os.creatable sample_files).

(** A complete header that declares a depth of 0 and one tree, and no tree
    after it: the leaf and the threshold of the declared tree are missing. *)
Definition header_only_depth_0 : list Z :=
  [0; 0; 0; 0; 0; 0; 0; 0;  0; 0; 0; 0;  1; 0; 0; 0].

(** The model [sample_cascade] parses to: every window scores 6.0. *)
Definition sample_model : Cascade.Model :=
  Cascade.mkModel 1 1
    [Cascade.mkTree [Cascade.mkNode 0 0 0 0]
                    [float32.of_Z 6; float32.of_Z 6] (S754_zero false)].

Definition one_pixel : Window.Gray := Window.mkGray [0] 1 1 1.

(** Windows of side 1 only. *)
Definition unit_windows : Runner.Params := Runner.mkParams 1 1 (1 # 10) (11 # 10).

Definition unit_score : spec_float := float32.of_Z 1.

(** Two overlapping windows side by side, and a third below their middle. *)
Definition three_windows : list Detection :=
  [mkDetection 20 17 10 unit_score; mkDetection 20 23 10 unit_score;
   mkDetection 26 20 10 unit_score].

(** Two windows far apart. *)
Definition two_windows : list Detection :=
  [mkDetection 10 10 10 unit_score; mkDetection 50 50 10 unit_score].







(** The angle after one more full turn, a binary64 sum. *)
Definition plus_full_turn (a : spec_float) : spec_float :=
  float64.add a (float64.of_Z 1).

(** The angle 2^-60 of a full turn. *)
Definition tiny_angle : spec_float :=
  float64.div (float64.of_Z 1) (float64.of_Z (2 ^ 60)).


(** ** Sample data for the driver and the command *)

(** A two-by-two [image.YCbCr] with one chroma sample for its four pixels. *)
Definition sample_ycbcr : pixbuf.YCbCr :=
  pixbuf.mkYCbCr [10; 20; 30; 40] [128] [128] 2 1 pixbuf.Ratio420
    (image.mkRectangle (image.mkPoint 0 0) (image.mkPoint 2 2)).

(** What [ImgToNRGBA] makes of [sample_generic] and of [sample_ycbcr]. *)
Definition sample_generic_converted : pixbuf.NRGBA :=
  pixbuf.mkNRGBA [30; 50; 7; 255; 40; 50; 7; 255] 8
    (image.mkRectangle (image.mkPoint 0 0) (image.mkPoint 2 1)).

Definition sample_ycbcr_converted : pixbuf.NRGBA :=
  pixbuf.mkNRGBA [10; 10; 10; 255; 20; 20; 20; 255;
                  30; 30; 30; 255; 40; 40; 40; 255] 8
    (image.mkRectangle (image.mkPoint 0 0) (image.mkPoint 2 2)).

(** A generic image whose bounds run backwards. *)
Definition sample_backwards : pixbuf.Generic :=
  pixbuf.mkGeneric (image.mkRectangle (image.mkPoint 4 0) (image.mkPoint 1 3))
                   (fun _ _ => color.mkNRGBA 0 0 0 255).

(** The sample world after detection, nothing creatable. *)
Definition sample_world_locked : World :=
  mkWorld (dc sample_world_after)
          (os.mkFileSys (os.files sample_files) (fun _ => false))
          (hp sample_world_after).

(** The sample detector with a destination no encoder is chosen for, and
    the sample files once that destination has been created. *)
Definition sample_detector_gif : faceDetector :=
  NewFaceDetector "out.gif" "facefinder" 2 4
                  (tenths 1) (tenths 11) (tenths 2) (S754_zero false).

Definition sample_files_gif : os.FileSys :=
  os.mkFileSys (<["out.gif"%string := []]> (os.files sample_files))
               (os.creatable sample_files).

(** The sample world whose destination holds six bytes of an older file. *)
Definition sample_world_stale : World :=
  mkWorld (dc sample_world_after)
          (os.mkFileSys (<["out.png"%string := [1; 2; 3; 4; 5; 6]]>
                           (os.files sample_files)) (fun _ => true))
          (hp sample_world_after).

(** The picture of the sample run with its one face marked by a rectangle,
    and with a circle added by a second call. *)
Definition sample_picture : gg.Context :=
  marked false sample_faces (fresh_canvas (imgconv.ImNRGBA 1%positive) 4 4).

Definition sample_world_drawn : World :=
  mkWorld (Some sample_picture)
          (os.Write sample_files_opened "out.png" [137; 80; 78; 71])
          (hp sample_world_after).

Definition sample_world_drawn_twice : World :=
  mkWorld (Some (marked true sample_faces sample_picture))
          (os.Write sample_files_opened "out.png" [137; 80; 78; 71])
          (hp sample_world_after).

(** A face whose score is exactly the gate. *)
Definition borderline_faces : list Detection :=
  [mkDetection 2 2 2 (float32.of_Z 5)].

(** A decoder that knows one file content, which it decodes to the sample
    photo; a world that holds such a file. *)
Definition sample_decoder : Decoder :=
  {| DecodeError := unit;
     image_Decode := fun file =>
       match file with
       | [137; 80] => inl (DecodedNRGBA sample_photo)
       | _ => inr tt
       end |}.

Definition sample_world_input : World :=
  mkWorld None
          (os.mkFileSys (<["in.png"%string := [137; 80]]> (os.files sample_files))
                        (fun _ => true))
          ∅.

Definition sample_world_decoded : World :=
  mkWorld None (fsys sample_world_input) (<[1%positive := sample_photo]> ∅).

(** Flags for the sample run, a detection step that reads the sample photo,
    and a marshaller that writes one byte per rectangle. *)
Definition sample_flags : cmd.flags :=
  cmd.mkFlags "in.png" "out.png" "facefinder" 2 4
              (tenths 1) (tenths 11) (S754_zero false) (tenths 2) false true.

Definition sample_detect (fd : faceDetector) (w : World) (input : string)
  : outcome (list Detection + error) :=
  @DetectFaces (@spec_core series_trig) fd w (imgconv.ImNRGBA 1%positive).

Definition sample_json : cmd.Json :=
  {| cmd.json_Marshal := fun rects => map (fun _ => 123) rects |}.

Definition sample_world_done : World :=
  mkWorld (Some sample_picture)
          (cmd.WriteFile (os.Write sample_files_opened "out.png" [137; 80; 78; 71])
                         "output.json" [123])
          (hp sample_world_after).

(** * Properties *)

(** ** Machine integers and rectangles *)

Lemma wrap_id (z : Z) : GoInt.in_range z -> GoInt.wrap z = z.
Proof.
  unfold GoInt.in_range, GoInt.wrap. intros Hz.
  rewrite Z.mod_small by lia. lia.
Qed.

Lemma wrap_in_range (z : Z) : GoInt.in_range (GoInt.wrap z).
Proof.
  unfold GoInt.in_range, GoInt.wrap.
  pose proof (Z.mod_pos_bound (z + 2 ^ 63) (2 ^ 64)). lia.
Qed.

Lemma wrap_wrap (z : Z) : GoInt.wrap (GoInt.wrap z) = GoInt.wrap z.
Proof. apply wrap_id, wrap_in_range. Qed.

Lemma sub_diag (a : Z) : GoInt.sub a a = 0.
Proof. unfold GoInt.sub. rewrite Z.sub_diag. reflexivity. Qed.

Lemma sub_0_r (a : Z) : GoInt.sub (GoInt.wrap a) 0 = GoInt.wrap a.
Proof. unfold GoInt.sub. rewrite Z.sub_0_r. apply wrap_wrap. Qed.

Lemma Min_Sub_Min (b : image.Rectangle) :
  image.Min (image.Sub b (image.Min b)) = image.mkPoint 0 0.
Proof. unfold image.Sub. simpl. by rewrite !sub_diag. Qed.

Lemma Dx_Sub_Min (b : image.Rectangle) :
  image.Dx (image.Sub b (image.Min b)) = image.Dx b.
Proof.
  unfold image.Dx, image.Sub. simpl. rewrite sub_diag.
  unfold GoInt.sub at 2 3. apply sub_0_r.
Qed.

Lemma Dy_Sub_Min (b : image.Rectangle) :
  image.Dy (image.Sub b (image.Min b)) = image.Dy b.
Proof.
  unfold image.Dy, image.Sub. simpl. rewrite sub_diag.
  unfold GoInt.sub at 2 3. apply sub_0_r.
Qed.

(** ** [ImgToNRGBA] *)
Section ImgToNRGBA_facts.
Import image pixbuf imgconv.

Lemma NewNRGBA_Rect (r : Rectangle) (d : NRGBA) :
  NewNRGBA r = Some d -> NRGBA_Rect d = r.
Proof.
  unfold NewNRGBA. destruct (_ <? 0); [done|]. by intros [= <-].
Qed.

Lemma point_zero (p : Point) :
  (X p =? 0) && (Y p =? 0) = true -> p = mkPoint 0 0.
Proof.
  destruct p as [x y]. simpl. intros [Hx Hy]%andb_prop.
  apply Z.eqb_eq in Hx, Hy. by subst.
Qed.

(** The two ways [ImgToNRGBA] returns: the argument itself, or a buffer at a
    fresh address whose rectangle is the source bounds moved to the origin. *)
Lemma ImgToNRGBA_cases (h h' : heap) (img : Image) (l : loc) :
  ImgToNRGBA h img = Some (h', l) ->
  (exists n, img = ImNRGBA l /\ h' = h /\ h !! l = Some n
             /\ Min (NRGBA_Rect n) = mkPoint 0 0)
  \/ (exists b pix stride,
        Bounds h img = Some b /\ h !! l = None
        /\ h' = <[l := mkNRGBA pix stride (Sub b (Min b))]> h).
Proof.
  unfold ImgToNRGBA. destruct (Bounds h img) as [b|] eqn:Hb; [simpl|done].
  destruct ((X (Min b) =? 0) && (Y (Min b) =? 0)) eqn:Hz.
  - destruct img as [p|y|g].
    + intros [= <- <-]. left. simpl in Hb.
      destruct (h !! p) as [n|] eqn:Hn; [|done]. simpl in Hb.
      injection Hb as <-. exists n. by rewrite (point_zero _ Hz).
    + destruct (NewNRGBA _) as [dst|] eqn:Hd; [simpl|done].
      destruct (fill_from_YCbCr _ _ _ _ _) as [pix|]; [simpl|done].
      intros [= <- <-]. right. exists b, pix, (Stride dst).
      rewrite (NewNRGBA_Rect _ _ Hd). split_and!; [done| |done].
      apply not_elem_of_dom, is_fresh.
    + destruct (NewNRGBA _) as [dst|] eqn:Hd; [simpl|done].
      destruct (fill_from_Generic _ _ _ _ _) as [pix|]; [simpl|done].
      intros [= <- <-]. right. exists b, pix, (Stride dst).
      rewrite (NewNRGBA_Rect _ _ Hd). split_and!; [done| |done].
      apply not_elem_of_dom, is_fresh.
  - destruct (NewNRGBA _) as [dst|] eqn:Hd; [simpl|done].
    destruct (match img with ImNRGBA p => _ | _ => _ end) as [pix|]; [simpl|done].
    intros [= <- <-]. right. exists b, pix, (Stride dst).
    rewrite (NewNRGBA_Rect _ _ Hd). split_and!; [done| |done].
    apply not_elem_of_dom, is_fresh.
Qed.

Lemma ImgToNRGBA_normalised (h : heap) (p : loc) (n : NRGBA) :
  h !! p = Some n -> Min (NRGBA_Rect n) = mkPoint 0 0 ->
  ImgToNRGBA h (ImNRGBA p) = Some (h, p).
Proof.
  intros Hp Hmin. unfold ImgToNRGBA. simpl. rewrite Hp. simpl.
  by rewrite Hmin.
Qed.

(** Buffers that exist before the call are not touched by it. *)
Lemma ImgToNRGBA_extends (h h' : heap) (img : Image) (l : loc) :
  ImgToNRGBA h img = Some (h', l) -> h ⊆ h'.
Proof.
  intros [(n & _ & -> & _)|(b & pix & stride & _ & Hfresh & ->)]%ImgToNRGBA_cases.
  - done.
  - by apply insert_subseteq.
Qed.

Lemma ImgToNRGBA_result (h h' : heap) (img : Image) (l : loc) :
  ImgToNRGBA h img = Some (h', l) ->
  exists b d, Bounds h img = Some b /\ h' !! l = Some d
    /\ Min (NRGBA_Rect d) = mkPoint 0 0
    /\ Dx (NRGBA_Rect d) = Dx b /\ Dy (NRGBA_Rect d) = Dy b.
Proof.
  intros [(n & -> & -> & Hn & Hmin)|(b & pix & stride & Hb & _ & ->)]%ImgToNRGBA_cases.
  - exists (NRGBA_Rect n), n. simpl. by rewrite Hn.
  - exists b, (mkNRGBA pix stride (Sub b (Min b))).
    rewrite lookup_insert_eq. cbn [NRGBA_Rect].
    by rewrite Min_Sub_Min, Dx_Sub_Min, Dy_Sub_Min.
Qed.

Lemma Bounds_extends (h h' : heap) (img : Image) (b : Rectangle) :
  h ⊆ h' -> Bounds h img = Some b -> Bounds h' img = Some b.
Proof.
  intros Hsub. destruct img as [p|y|g]; simpl; [|done..].
  destruct (h !! p) as [n|] eqn:Hn; [|done]. simpl. intros [= <-].
  by rewrite (lookup_weaken _ _ _ _ Hn Hsub).
Qed.

End ImgToNRGBA_facts.

(** *** [ImgToNRGBA] returns *)
Section ImgToNRGBA_returns.
Import image pixbuf imgconv.

Lemma for_range_total {St : Type} (I : Z -> St -> Prop)
    (body : Z -> St -> option St) (n : nat) :
  forall (i : Z) (s : St),
  I i s ->
  (forall k s0, i <= k < i + Z.of_nat n -> I k s0 ->
     exists s1, body k s0 = Some s1 /\ I (k + 1) s1) ->
  exists s', for_range n i body s = Some s' /\ I (i + Z.of_nat n) s'.
Proof.
  induction n as [|n IH]; intros i s Hi Hstep.
  - exists s. simpl. by rewrite Z.add_0_r.
  - destruct (Hstep i s) as (s1 & Hb & H1); [lia|done|].
    destruct (IH (i + 1) s1) as (s' & Hr & H'); [done| |].
    + intros k s0 Hk. apply Hstep. lia.
    + exists s'. simpl. rewrite Hb. simpl. split; [done|].
      by replace (i + Z.of_nat (S n)) with (i + 1 + Z.of_nat n) by lia.
Qed.

Lemma offset_bound (w h x y : Z) :
  0 <= x < w -> 0 <= y < h ->
  0 <= 4 * w * y + 4 * x /\ 4 * w * y + 4 * x + 4 <= 4 * w * h.
Proof. intros Hx Hy. nia. Qed.

Lemma store_total (pix : list Z) (i v : Z) :
  0 <= i < Z.of_nat (length pix) ->
  exists pix', store pix i v = Some pix' /\ length pix' = length pix.
Proof.
  intros Hi. unfold store.
  destruct (0 <=? i) eqn:H0; [|lia]. destruct (i <? _) eqn:H1; [|lia].
  simpl. eexists. split; [done|]. by rewrite length_insert.
Qed.

Lemma mul3NonNeg_ok (w h : Z) :
  0 <= mul3NonNeg 4 w h ->
  0 <= w /\ 0 <= h /\ 4 * w < 2 ^ 64 /\ 4 * w * h < 2 ^ 63
  /\ mul3NonNeg 4 w h = 4 * w * h.
Proof.
  unfold mul3NonNeg.
  destruct (4 <? 0) eqn:H4; [lia|].
  destruct (w <? 0) eqn:Hw; [simpl; lia|].
  destruct (h <? 0) eqn:Hh; [simpl; lia|]. simpl.
  destruct (2 ^ 64 <=? 4 * w) eqn:H1; [lia|].
  destruct (2 ^ 64 <=? 4 * w * h) eqn:H2; [lia|].
  destruct (2 ^ 63 <=? 4 * w * h) eqn:H3; [lia|]. lia.
Qed.

Lemma PixOffset_fresh (pix : list Z) (r : Rectangle) (w h y : Z) :
  Min r = mkPoint 0 0 -> 0 <= w -> 0 <= y < h -> h < 2 ^ 63 ->
  4 * w * h < 2 ^ 63 ->
  PixOffset (mkNRGBA pix (GoInt.mul 4 w) r) 0 y = 4 * w * y.
Proof.
  intros Hr Hw Hy Hh Hwh. unfold PixOffset. simpl. rewrite Hr. simpl.
  unfold GoInt.add, GoInt.mul, GoInt.sub.
  replace (0 - 0) with 0 by lia. replace (y - 0) with y by lia.
  assert (4 * w <= 4 * w * h) by nia.
  assert (0 <= 4 * w * y <= 4 * w * h) by nia.
  rewrite (wrap_id y) by (unfold GoInt.in_range; nia).
  rewrite (wrap_id (4 * w)) by (unfold GoInt.in_range; nia).
  rewrite (wrap_id 0) by (unfold GoInt.in_range; lia).
  rewrite (wrap_id (y * (4 * w))) by (unfold GoInt.in_range; nia).
  rewrite (wrap_id (0 * 4)) by (unfold GoInt.in_range; lia).
  rewrite wrap_id by (unfold GoInt.in_range; nia). lia.
Qed.

(** One pixel of four stores, as the two per-pixel loops make them. *)
Lemma four_stores (pix : list Z) (di a b c d : Z) :
  0 <= di -> di + 4 <= Z.of_nat (length pix) -> di + 4 < 2 ^ 63 ->
  exists pix',
    (p1 ← store pix (GoInt.add di 0) a;
     p2 ← store p1 (GoInt.add di 1) b;
     p3 ← store p2 (GoInt.add di 2) c;
     p4 ← store p3 (GoInt.add di 3) d;
     Some (GoInt.add di 4, p4)) = Some (di + 4, pix')
    /\ length pix' = length pix.
Proof.
  intros H0 H1 H2. unfold GoInt.add.
  rewrite !wrap_id by (unfold GoInt.in_range; lia).
  destruct (store_total pix (di + 0) a) as (p1 & -> & L1); [lia|]. simpl.
  destruct (store_total p1 (di + 1) b) as (p2 & -> & L2); [lia|]. simpl.
  destruct (store_total p2 (di + 2) c) as (p3 & -> & L3); [lia|]. simpl.
  destruct (store_total p3 (di + 3) d) as (p4 & -> & L4); [lia|]. simpl.
  exists p4. split; [done|]. congruence.
Qed.

Section fresh_destination.
Context (r : Rectangle) (w h : Z).
Hypothesis Hr : Min r = mkPoint 0 0.
Hypothesis Hw : 0 <= w.
Hypothesis Hh : 0 <= h < 2 ^ 63.
Hypothesis Hwh : 4 * w * h < 2 ^ 63.

Let dst := mkNRGBA (replicate (Z.to_nat (4 * w * h)) 0) (GoInt.mul 4 w) r.

Lemma fill_from_Generic_total (src : Generic) (b : Rectangle) :
  is_Some (fill_from_Generic src dst b w h).
Proof.
  unfold fill_from_Generic.
  match goal with |- is_Some (for_range _ _ ?f _) => set (outer := f) end.
  destruct (for_range_total
    (fun _ pix => Z.of_nat (length pix) = 4 * w * h)
    outer (Z.to_nat h) 0 (Pix dst)) as (pix & Hpix & _).
  - subst dst. simpl. rewrite length_replicate. nia.
  - intros y pix Hy Hlen. subst outer. cbv beta zeta.
    unfold dst at 1. rewrite (PixOffset_fresh _ r w h y) by (try done; lia).
    match goal with |- context [for_range _ _ ?f _] => set (inner := f) end.
    destruct (for_range_total
      (fun x (st : Z * list Z) =>
         st.1 = 4 * w * y + 4 * x /\ Z.of_nat (length st.2) = 4 * w * h)
      inner (Z.to_nat w) 0 (4 * w * y, pix)) as ([di' pix'] & Hrun & _ & Hlen').
    + simpl. split; [lia|done].
    + intros x [di0 pix0] Hx [Hdi Hl]. simpl in Hdi, Hl. subst di0 inner.
      cbv beta iota zeta.
      destruct (offset_bound w h x y) as [B0 B1]; [lia..|].
      match goal with
      | |- context [store pix0 _ ?a ≫= _] =>
        match goal with
        | |- context [store _ (GoInt.add _ 1) ?b0] =>
        match goal with
        | |- context [store _ (GoInt.add _ 2) ?c0] =>
        match goal with
        | |- context [store _ (GoInt.add _ 3) ?d0] =>
          destruct (four_stores pix0 (4 * w * y + 4 * x) a b0 c0 d0)
            as (pix1 & -> & L1); [lia..|]
        end end end end.
      eexists. split; [done|]. simpl. split; [lia|]. by rewrite L1.
    + rewrite Hrun. simpl. exists pix'. done.
  - by exists pix.
Qed.

Lemma fill_from_YCbCr_total (src : YCbCr) (b : Rectangle) :
  (forall x y, 0 <= x < w -> 0 <= y < h ->
     let sx := GoInt.add (X (Min b)) x in
     let sy := GoInt.add (Y (Min b)) y in
     is_Some (index (YPlane src) (YOffset src sx sy))
     /\ is_Some (index (CbPlane src) (COffset src sx sy))
     /\ is_Some (index (CrPlane src) (COffset src sx sy))) ->
  is_Some (fill_from_YCbCr src dst b w h).
Proof.
  intros Hread. unfold fill_from_YCbCr.
  match goal with |- is_Some (for_range _ _ ?f _) => set (outer := f) end.
  destruct (for_range_total
    (fun _ pix => Z.of_nat (length pix) = 4 * w * h)
    outer (Z.to_nat h) 0 (Pix dst)) as (pix & Hpix & _).
  - subst dst. simpl. rewrite length_replicate. nia.
  - intros y pix Hy Hlen. subst outer. cbv beta zeta.
    unfold dst at 1. rewrite (PixOffset_fresh _ r w h y) by (try done; lia).
    match goal with |- context [for_range _ _ ?f _] => set (inner := f) end.
    destruct (for_range_total
      (fun x (st : Z * list Z) =>
         st.1 = 4 * w * y + 4 * x /\ Z.of_nat (length st.2) = 4 * w * h)
      inner (Z.to_nat w) 0 (4 * w * y, pix)) as ([di' pix'] & Hrun & _ & Hlen').
    + simpl. split; [lia|done].
    + intros x [di0 pix0] Hx [Hdi Hl]. simpl in Hdi, Hl. subst di0 inner.
      cbv beta iota zeta.
      destruct (offset_bound w h x y) as [B0 B1]; [lia..|].
      destruct (Hread x y) as ([vy ->] & [vcb ->] & [vcr ->]); [lia..|].
      cbn [mbind option_bind].
      destruct (color.YCbCrToRGB vy vcb vcr) as [[cr cg] cb].
      destruct (four_stores pix0 (4 * w * y + 4 * x) cr cg cb 255)
        as (pix1 & -> & L1); [lia..|].
      eexists. split; [done|]. simpl. split; [lia|]. by rewrite L1.
    + rewrite Hrun. simpl. exists pix'. done.
  - by exists pix.
Qed.

Lemma slice_length (p s : list Z) (lo hi : Z) :
  slice p lo hi = Some s -> length s = Z.to_nat (hi - lo).
Proof.
  unfold slice. destruct (_ && _) eqn:Hc; [|done]. intros [= <-].
  apply andb_prop in Hc as [[H0 H1]%andb_prop H2].
  rewrite length_take, length_drop. lia.
Qed.

Lemma copy_total (pix src : list Z) (di si n : Z) :
  0 <= di -> 0 <= n -> di + n <= Z.of_nat (length pix) -> di + n < 2 ^ 63 ->
  is_Some (slice src si (GoInt.add si n)) ->
  exists pix', copy pix di src si n = Some pix' /\ length pix' = length pix.
Proof.
  intros H0 Hn Hlen Hfit [s Hs]. unfold copy. rewrite Hs.
  assert (Hd : exists d, slice pix di (GoInt.add di n) = Some d) .
  { unfold slice, GoInt.add. rewrite wrap_id by (unfold GoInt.in_range; lia).
    destruct (0 <=? di) eqn:E0; [|lia].
    destruct (di <=? di + n) eqn:E1; [|lia].
    destruct (di + n <=? _) eqn:E2; [|lia]. simpl. eauto. }
  destruct Hd as [d Hd]. rewrite Hd. simpl.
  eexists. split; [done|].
  apply slice_length in Hd.
  unfold GoInt.add in Hd. rewrite wrap_id in Hd by (unfold GoInt.in_range; lia).
  rewrite !length_app, !length_take, length_drop. lia.
Qed.

Lemma fill_from_NRGBA_total (src : NRGBA) (b : Rectangle) :
  Dx b = w ->
  (forall y, 0 <= y < h -> 0 < w ->
     let si := PixOffset src (X (Min b)) (GoInt.add (Y (Min b)) y) in
     is_Some (slice (Pix src) si (GoInt.add si (GoInt.mul w 4)))) ->
  is_Some (fill_from_NRGBA src dst b w h).
Proof.
  intros Hb Hread. unfold fill_from_NRGBA. rewrite Hb.
  match goal with |- is_Some (for_range _ _ ?f _) => set (outer := f) end.
  destruct (for_range_total
    (fun _ pix => Z.of_nat (length pix) = 4 * w * h)
    outer (Z.to_nat h) 0 (Pix dst)) as (pix & Hpix & _).
  - subst dst. simpl. rewrite length_replicate. nia.
  - intros y pix Hy Hlen. subst outer. cbv beta zeta.
    unfold dst at 1. rewrite (PixOffset_fresh _ r w h y) by (try done; lia).
    match goal with |- context [for_range _ _ ?f _] => set (inner := f) end.
    destruct (for_range_total
      (fun _ (p : list Z) => Z.of_nat (length p) = 4 * w * h)
      inner (Z.to_nat w) 0 pix) as (pix' & Hrun & Hlen').
    + done.
    + intros x pix0 Hx Hl. subst inner. cbv beta.
      destruct (offset_bound w h x y) as [B0 B1]; [lia..|].
      assert (Hrow : GoInt.mul w 4 = 4 * w).
      { unfold GoInt.mul. rewrite wrap_id by (unfold GoInt.in_range; nia). lia. }
      destruct (copy_total pix0 (Pix src) (4 * w * y)
                  (PixOffset src (X (Min b)) (GoInt.add (Y (Min b)) y))
                  (GoInt.mul w 4)) as (pix1 & -> & L1).
      * nia.
      * lia.
      * rewrite Hrow. nia.
      * rewrite Hrow. nia.
      * apply Hread; lia.
      * exists pix1. split; [done|]. by rewrite L1.
    + exists pix'. by rewrite Hrun.
  - by exists pix.
Qed.

End fresh_destination.

(** [ImgToNRGBA] returns on every image whose bounds pass the allocation
    check and whose pixels are there to be read. *)
Lemma ImgToNRGBA_total (h : heap) (img : Image) (b : Rectangle) :
  Bounds h img = Some b ->
  0 <= mul3NonNeg 4 (Dx b) (Dy b) ->
  readable h img b ->
  is_Some (ImgToNRGBA h img).
Proof.
  intros Hb Halloc Hread. unfold ImgToNRGBA. rewrite Hb. simpl.
  destruct (mul3NonNeg_ok _ _ Halloc) as (Hw & Hh & _ & Hwh & Hn).
  assert (Hh' : Dy b < 2 ^ 63).
  { unfold Dy, GoInt.sub. pose proof (wrap_in_range (Y (Max b) - Y (Min b))) as Hr.
    unfold GoInt.in_range in Hr. lia. }
  assert (Hdst : NewNRGBA (Sub b (Min b)) =
                 Some (mkNRGBA (replicate (Z.to_nat (4 * Dx b * Dy b)) 0)
                               (GoInt.mul 4 (Dx b)) (Sub b (Min b)))).
  { unfold NewNRGBA. rewrite Dx_Sub_Min, Dy_Sub_Min, Hn.
    destruct (4 * Dx b * Dy b <? 0) eqn:E; [lia|done]. }
  rewrite Hdst, Dx_Sub_Min, Dy_Sub_Min. clear Hdst.
  pose proof (Min_Sub_Min b) as Hmin.
  destruct ((X (Min b) =? 0) && (Y (Min b) =? 0)); destruct img as [p|y|g];
    simpl in Hread |- *; try done.
  all: try (destruct Hread as (src & Hsrc & Hread); rewrite Hsrc; simpl).
  all: try (destruct (fill_from_NRGBA_total _ (Dx b) (Dy b) Hmin Hw
               (conj Hh Hh') Hwh src b eq_refl) as [pix ->]; [|done]).
  all: try (destruct (fill_from_YCbCr_total _ (Dx b) (Dy b) Hmin Hw
               (conj Hh Hh') Hwh y b Hread) as [pix ->]; done).
  all: try (destruct (fill_from_Generic_total _ (Dx b) (Dy b) Hmin Hw
               (conj Hh Hh') Hwh g b) as [pix ->]; done).
  intros y0 Hy0 Hw0. by apply Hread.
Qed.

End ImgToNRGBA_returns.

(** C9.  [ImgToNRGBA] hands back an [*image.NRGBA] whose min-point is (0, 0)
    as it is: the same address, the store unchanged.  On every image whose
    bounds can be allocated and whose pixels can be read it returns; the
    result is an [*image.NRGBA] with min-point (0, 0) and the width and height
    of the input, and converting the result again returns the result
    itself. *)
Theorem ImgToNRGBA_idempotent :
  (forall (h : imgconv.heap) (p : imgconv.loc) (n : pixbuf.NRGBA),
     h !! p = Some n ->
     image.Min (pixbuf.NRGBA_Rect n) = image.mkPoint 0 0 ->
     imgconv.ImgToNRGBA h (imgconv.ImNRGBA p) = Some (h, p))
  /\ (forall (h : imgconv.heap) (img : imgconv.Image) (b : image.Rectangle),
        imgconv.Bounds h img = Some b ->
        0 <= pixbuf.mul3NonNeg 4 (image.Dx b) (image.Dy b) ->
        readable h img b ->
        is_Some (imgconv.ImgToNRGBA h img))
  /\ (forall (h h' : imgconv.heap) (img : imgconv.Image) (l : imgconv.loc),
        imgconv.ImgToNRGBA h img = Some (h', l) ->
        imgconv.ImgToNRGBA h' (imgconv.ImNRGBA l) = Some (h', l)
        /\ exists b d,
             imgconv.Bounds h img = Some b /\ h' !! l = Some d
             /\ image.Min (pixbuf.NRGBA_Rect d) = image.mkPoint 0 0
             /\ image.Dx (pixbuf.NRGBA_Rect d) = image.Dx b
             /\ image.Dy (pixbuf.NRGBA_Rect d) = image.Dy b).
Proof.
  split; [exact ImgToNRGBA_normalised|].
  split; [exact ImgToNRGBA_total|].
  intros h h' img l Hrun.
  destruct (ImgToNRGBA_result _ _ _ _ Hrun) as (b & d & Hb & Hd & Hmin & Hx & Hy).
  split; [|by exists b, d].
  by apply (ImgToNRGBA_normalised h' l d).
Qed.

Lemma ImgToNRGBA_sample :
  imgconv.ImgToNRGBA sample_heap (imgconv.ImNRGBA 5%positive)
  = Some (<[6%positive := sample_converted]> sample_heap, 6%positive).
Proof. vm_compute. reflexivity. Qed.

Lemma ImgToNRGBA_idempotent_witness :
  (imgconv.ImgToNRGBA (<[6%positive := sample_converted]> sample_heap)
                      (imgconv.ImNRGBA 6%positive)
   = Some (<[6%positive := sample_converted]> sample_heap, 6%positive)
   /\ exists b d,
        imgconv.Bounds sample_heap (imgconv.ImNRGBA 5%positive) = Some b
        /\ <[6%positive := sample_converted]> sample_heap !! 6%positive = Some d
        /\ image.Min (pixbuf.NRGBA_Rect d) = image.mkPoint 0 0
        /\ image.Dx (pixbuf.NRGBA_Rect d) = image.Dx b
        /\ image.Dy (pixbuf.NRGBA_Rect d) = image.Dy b)
  /\ is_Some (imgconv.ImgToNRGBA ∅ (imgconv.ImOther sample_generic)).
Proof.
  split.
  - exact (proj2 (proj2 ImgToNRGBA_idempotent) _ _ _ _ ImgToNRGBA_sample).
  - apply (proj1 (proj2 ImgToNRGBA_idempotent) ∅ (imgconv.ImOther sample_generic)
             (pixbuf.Generic_Bounds sample_generic)).
    + reflexivity.
    + vm_compute. discriminate.
    + exact I.
Defined.

(** ** The driver *)

Lemma sample_run :
  @DetectFaces (@spec_core series_trig) sample_detector sample_world
               (imgconv.ImNRGBA 1%positive)
  = Return sample_world_after (inl sample_faces).
Proof. vm_compute. reflexivity. Qed.

(** The sample cascade parses to the sample model. *)
Lemma sample_cascade_parses :
  Cascade.parse_cascade sample_cascade = inl sample_model.
Proof. vm_compute. reflexivity. Qed.

(** *** [gg.NewContext] *)

Lemma mul3NonNeg_bound (x y : Z) :
  0 <= pixbuf.mul3NonNeg 4 x y -> 0 <= x /\ 0 <= y /\ 4 * x * y < 2 ^ 63.
Proof.
  unfold pixbuf.mul3NonNeg.
  destruct (4 <? 0) eqn:H4; [lia|].
  destruct (x <? 0) eqn:Hx; [simpl; lia|].
  destruct (y <? 0) eqn:Hy; [simpl; lia|]. simpl.
  destruct (2 ^ 64 <=? 4 * x) eqn:H1; [lia|].
  destruct (2 ^ 64 <=? 4 * x * y) eqn:H2; [lia|].
  destruct (2 ^ 63 <=? 4 * x * y) eqn:H3; [lia|]. lia.
Qed.

(** A context that has been made has the size of
    [image.Rect(0, 0, w, h)]; neither side is negative and four bytes per
    pixel can be counted. *)
Lemma NewContext_inv (w h : Z) (ctx : gg.Context) :
  gg.NewContext w h = Some ctx ->
  ctx = gg.mkContext (image.Dx (image.Rect 0 0 w h))
                     (image.Dy (image.Rect 0 0 w h)) []
  /\ 0 <= image.Dx (image.Rect 0 0 w h)
  /\ 0 <= image.Dy (image.Rect 0 0 w h)
  /\ 4 * image.Dx (image.Rect 0 0 w h) * image.Dy (image.Rect 0 0 w h) < 2 ^ 63.
Proof.
  unfold gg.NewContext. cbv zeta.
  destruct (pixbuf.mul3NonNeg 4 _ _ <? 0) eqn:E; [done|].
  apply Z.ltb_ge, mul3NonNeg_bound in E. intros [= <-]. by split.
Qed.

(** The side of a rectangle from the origin to a coordinate that is a value
    of [int] is, when it is not negative, the absolute value of the
    coordinate: [image.Rect] has put the corners in order. *)
Lemma Rect_from_origin (w h : Z) :
  (GoInt.in_range w -> 0 <= image.Dx (image.Rect 0 0 w h) ->
   image.Dx (image.Rect 0 0 w h) = Z.abs w)
  /\ (GoInt.in_range h -> 0 <= image.Dy (image.Rect 0 0 w h) ->
      image.Dy (image.Rect 0 0 w h) = Z.abs h).
Proof.
  assert (Hside : forall z, GoInt.in_range z ->
            0 <= GoInt.sub (if z <? 0 then 0 else z) (if z <? 0 then z else 0) ->
            GoInt.sub (if z <? 0 then 0 else z) (if z <? 0 then z else 0) = Z.abs z).
  { intros z Hz. unfold GoInt.sub, GoInt.in_range in *.
    destruct (z <? 0) eqn:E.
    - apply Z.ltb_lt in E. destruct (decide (z = - 2 ^ 63)) as [->|Hne].
      + vm_compute. intros Hneg. by destruct Hneg.
      + intros _. rewrite wrap_id by (unfold GoInt.in_range; lia). lia.
    - apply Z.ltb_ge in E. intros _.
      rewrite wrap_id by (unfold GoInt.in_range; lia). lia. }
  unfold image.Rect, image.Dx, image.Dy.
  split; intros Hr Hpos.
  - specialize (Hside w Hr).
    destruct (w <? 0), (h <? 0); simpl in *; by apply Hside.
  - specialize (Hside h Hr).
    destruct (w <? 0), (h <? 0); simpl in *; by apply Hside.
Qed.

(** *** [DetectFaces] *)

(** Every returning call has this shape. *)
Lemma DetectFaces_inv `{PigoCore} (fd : faceDetector) (w w' : World)
    (src : imgconv.Image) (r : list Detection + error) :
  DetectFaces fd w src = Return w' r ->
  exists h1 res res_img b pixels ctx,
    imgconv.ImgToNRGBA (hp w) src = Some (h1, res)
    /\ h1 !! res = Some res_img
    /\ imgconv.Bounds (hp w) src = Some b
    /\ RgbToGrayscale res_img = Yields pixels
    /\ gg.NewContext (image.X (image.Max b)) (image.Y (image.Max b)) = Some ctx
    /\ w' = mkWorld (Some (gg.call ctx (gg.DrawImage src 0 0))) (fsys w) h1
    /\ detection_result fd (os.ReadFile (fsys w) (cascadeFile fd))
         (cascade_params fd pixels (image.Y (image.Max b)) (image.X (image.Max b)))
       = Yields r.
Proof.
  unfold DetectFaces, or_panic, core_call, detection_result.
  destruct (imgconv.ImgToNRGBA (hp w) src) as [[h1 res]|] eqn:Hconv; [|done].
  destruct (ImgToNRGBA_result _ _ _ _ Hconv) as (b & d & Hb & Hd & _).
  rewrite Hd, (Bounds_extends _ _ _ _ (ImgToNRGBA_extends _ _ _ _ Hconv) Hb).
  destruct (RgbToGrayscale d) as [pixels| |] eqn:Hg; [|done..].
  cbv zeta.
  destruct (gg.NewContext _ _) as [ctx|] eqn:Hctx; [|done].
  intros Hret. exists h1, res, d, b, pixels, ctx.
  enough (w' = mkWorld (Some (gg.call ctx (gg.DrawImage src 0 0))) (fsys w) h1
          /\ match os.ReadFile (fsys w) (cascadeFile fd) with
             | inl cascade_bytes =>
                 match Unpack cascade_bytes with
                 | Yields (inl classifier) =>
                     match RunCascade classifier
                             (cascade_params fd pixels (image.Y (image.Max b))
                                (image.X (image.Max b))) (angle fd) with
                     | Yields raw =>
                         match ClusterDetections classifier raw (iouThreshold fd) with
                         | Yields faces => Yields (inl faces)
                         | Panics => Panics
                         | Diverges => Diverges
                         end
                     | Panics => Panics
                     | Diverges => Diverges
                     end
                 | Yields (inr err) => Yields (inr err)
                 | Panics => Panics
                 | Diverges => Diverges
                 end
             | inr err => Yields (inr err)
             end = Yields r) as [? ?] by by split_and!.
  destruct (os.ReadFile _ _) as [bytes|e]; [|by injection Hret as <- <-].
  destruct (Unpack bytes) as [[cl|e]| |]; [| |done..].
  - destruct (RunCascade cl _ _) as [raw| |]; [|done..].
    destruct (ClusterDetections cl raw _) as [faces| |]; [|done..].
    by injection Hret as <- <-.
  - by injection Hret as <- <-.
Qed.

(** C1, as stated, fails: on the sample input the package-level variable
    [dc] is nil before the call and holds a drawing context after it. *)
Lemma DetectFaces_overwrites_dc :
  exists w' r,
    @DetectFaces (@spec_core series_trig) sample_detector sample_world
                 (imgconv.ImNRGBA 1%positive) = Return w' r
    /\ dc w' <> dc sample_world.
Proof.
  exists sample_world_after, (inl sample_faces). split; [apply sample_run|].
  discriminate.
Qed.

(** A source whose max-point is (-1, -1): the call returns, and the drawing
    context is one pixel wide and one pixel high. *)
Lemma sample_run_negative :
  @DetectFaces (@spec_core series_trig) sample_detector sample_world
               (imgconv.ImOther sample_negative)
  = Return sample_world_negative_after (inl []).
Proof. vm_compute. reflexivity. Qed.

(** A one-pixel source whose max-point is (2^62 + 1, 2^62 + 1): the image
    conversion returns and [gg.NewContext] panics. *)
Lemma sample_run_far_away :
  is_Some (imgconv.ImgToNRGBA (hp sample_world) (imgconv.ImOther sample_far_away))
  /\ @DetectFaces (@spec_core series_trig) sample_detector sample_world
                  (imgconv.ImOther sample_far_away) = Panic.
Proof. split; [vm_compute; by eexists|vm_compute; reflexivity]. Qed.

(** C1, amended.  A call that returns leaves the file system as it was and
    keeps every pixel buffer that existed before it; the one thing it writes
    is the package-level variable [dc], which afterwards holds a new drawing
    context with the source drawn at (0, 0) and nothing else - whether the
    call ends in a detection list or in an error.  The context is that of
    [gg.NewContext(Max.X, Max.Y)] for the max-point of the source bounds: it
    has the size of [image.Rect(0, 0, Max.X, Max.Y)], that is the absolute
    values of the two coordinates, and four bytes for each of its pixels can
    be counted by an [int]. *)
Theorem DetectFaces_frame `{PigoCore} (fd : faceDetector) (w w' : World)
    (src : imgconv.Image) (r : list Detection + error) :
  DetectFaces fd w src = Return w' r ->
  fsys w' = fsys w
  /\ hp w ⊆ hp w'
  /\ exists b,
       imgconv.Bounds (hp w) src = Some b
       /\ let canvas :=
            image.Rect 0 0 (image.X (image.Max b)) (image.Y (image.Max b)) in
          dc w' = Some (fresh_canvas src (image.Dx canvas) (image.Dy canvas))
          /\ 0 <= image.Dx canvas /\ 0 <= image.Dy canvas
          /\ 4 * image.Dx canvas * image.Dy canvas < 2 ^ 63
          /\ (GoInt.in_range (image.X (image.Max b)) ->
              image.Dx canvas = Z.abs (image.X (image.Max b)))
          /\ (GoInt.in_range (image.Y (image.Max b)) ->
              image.Dy canvas = Z.abs (image.Y (image.Max b))).
Proof.
  intros Hrun.
  destruct (DetectFaces_inv _ _ _ _ _ Hrun)
    as (h1 & res & d & b & pixels & ctx & Hc & _ & Hb & _ & Hctx & -> & _).
  destruct (NewContext_inv _ _ _ Hctx) as (-> & Hx & Hy & Hxy).
  destruct (Rect_from_origin (image.X (image.Max b)) (image.Y (image.Max b)))
    as [Hax Hay].
  simpl. split_and!; [done|by eapply ImgToNRGBA_extends|].
  exists b. split; [done|]. cbv zeta. split_and!; auto.
Qed.

Lemma DetectFaces_frame_witness :
  (fsys sample_world_after = fsys sample_world
   /\ hp sample_world ⊆ hp sample_world_after
   /\ exists b,
        imgconv.Bounds (hp sample_world) (imgconv.ImNRGBA 1%positive) = Some b
        /\ let canvas :=
             image.Rect 0 0 (image.X (image.Max b)) (image.Y (image.Max b)) in
           dc sample_world_after
           = Some (fresh_canvas (imgconv.ImNRGBA 1%positive)
                                (image.Dx canvas) (image.Dy canvas))
           /\ 0 <= image.Dx canvas /\ 0 <= image.Dy canvas
           /\ 4 * image.Dx canvas * image.Dy canvas < 2 ^ 63
           /\ (GoInt.in_range (image.X (image.Max b)) ->
               image.Dx canvas = Z.abs (image.X (image.Max b)))
           /\ (GoInt.in_range (image.Y (image.Max b)) ->
               image.Dy canvas = Z.abs (image.Y (image.Max b))))
  /\ (fsys sample_world_negative_after = fsys sample_world
      /\ hp sample_world ⊆ hp sample_world_negative_after
      /\ exists b,
           imgconv.Bounds (hp sample_world) (imgconv.ImOther sample_negative)
           = Some b
           /\ let canvas :=
                image.Rect 0 0 (image.X (image.Max b)) (image.Y (image.Max b)) in
              dc sample_world_negative_after
              = Some (fresh_canvas (imgconv.ImOther sample_negative)
                                   (image.Dx canvas) (image.Dy canvas))
              /\ 0 <= image.Dx canvas /\ 0 <= image.Dy canvas
              /\ 4 * image.Dx canvas * image.Dy canvas < 2 ^ 63
              /\ (GoInt.in_range (image.X (image.Max b)) ->
                  image.Dx canvas = Z.abs (image.X (image.Max b)))
              /\ (GoInt.in_range (image.Y (image.Max b)) ->
                  image.Dy canvas = Z.abs (image.Y (image.Max b)))).
Proof.
  split.
  - exact (@DetectFaces_frame (@spec_core series_trig) sample_detector sample_world
             sample_world_after (imgconv.ImNRGBA 1%positive) _ sample_run).
  - exact (@DetectFaces_frame (@spec_core series_trig) sample_detector sample_world
             sample_world_negative_after (imgconv.ImOther sample_negative) _
             sample_run_negative).
Defined.


Lemma sample_rerun :
  @DetectFaces (@spec_core series_trig) sample_detector
               sample_world_without_cascade (imgconv.ImNRGBA 1%positive)
  = Return sample_world_without_cascade (inr (PathError "open" "facefinder")).
Proof. vm_compute. reflexivity. Qed.




(** C4, as stated, fails: the sample run parses the cascade file; when the
    file is gone afterwards, the next run of the same detector on the same
    image ends in the error of opening it. *)
Lemma DetectFaces_rereads_cascade :
  @DetectFaces (@spec_core series_trig) sample_detector sample_world
               (imgconv.ImNRGBA 1%positive)
  = Return sample_world_after (inl sample_faces)
  /\ @DetectFaces (@spec_core series_trig) sample_detector
        (mkWorld (dc sample_world_after) (os.mkFileSys ∅ (fun _ => true))
                 (hp sample_world_after))
        (imgconv.ImNRGBA 1%positive)
     = Return (mkWorld (dc sample_world_after) (os.mkFileSys ∅ (fun _ => true))
                       (hp sample_world_after))
              (inr (PathError "open" "facefinder")).
Proof. split; [apply sample_run|apply sample_rerun]. Qed.

(** C4, amended.  The detector keeps no parsed model: a run that follows an
    earlier run reads the cascade file named by the detector again and
    unpacks its bytes again, so its outcome is computed from the content the
    file has at the time of that run. *)
Theorem DetectFaces_reads_cascade_every_run `{PigoCore} (fd : faceDetector)
    (w1 w1' w2' : World) (src1 src2 : imgconv.Image)
    (r1 r2 : list Detection + error) (files2 : os.FileSys) :
  DetectFaces fd w1 src1 = Return w1' r1 ->
  DetectFaces fd (mkWorld (dc w1') files2 (hp w1')) src2 = Return w2' r2 ->
  exists cParams,
    detection_result fd (os.ReadFile files2 (cascadeFile fd)) cParams = Yields r2.
Proof.
  intros _ (h1 & res & d & b & pixels & ctx & _ & _ & _ & _ & _ & _ & Hr)%DetectFaces_inv.
  simpl in Hr. eauto.
Qed.

Lemma DetectFaces_reads_cascade_every_run_witness :
  exists cParams,
    @detection_result (@spec_core series_trig) sample_detector
        (os.ReadFile (os.mkFileSys ∅ (fun _ => true)) "facefinder") cParams
    = Yields (@inr (list Detection) error (PathError "open" "facefinder")).
Proof.
  exact (@DetectFaces_reads_cascade_every_run (@spec_core series_trig)
           sample_detector sample_world sample_world_after _ _ _ _ _ _
           sample_run sample_rerun).
Defined.

(** *** [DrawFaces] *)

Lemma call_all (ops : list gg.Op) (ctx : gg.Context) :
  fold_left gg.call ops ctx
  = gg.mkContext (gg.width ctx) (gg.height ctx) (gg.ops ctx ++ ops).
Proof.
  revert ctx. induction ops as [|o ops IH]; intros [wd ht os]; simpl.
  - by rewrite app_nil_r.
  - rewrite IH. simpl. by rewrite <- app_assoc.
Qed.

Lemma mark_faces_acc (isCircle : bool) (faces : list Detection)
    (ctx : gg.Context) (rects : list image.Rectangle) :
  fold_left (mark_face isCircle) faces (ctx, rects)
  = (marked isCircle faces ctx,
     rects ++ map face_rect (List.filter above_qThresh faces)).
Proof.
  revert ctx rects. induction faces as [|f faces IH]; intros ctx rects.
  - destruct ctx. unfold marked. simpl. by rewrite !app_nil_r.
  - simpl. unfold mark_face at 2. destruct (above_qThresh f) eqn:Hf.
    + rewrite IH. unfold marked. rewrite call_all. simpl.
      rewrite Hf. simpl. by rewrite <- !app_assoc.
    + rewrite IH. unfold marked. simpl. by rewrite Hf.
Qed.

(** The loop draws a marker and records a rectangle for exactly the faces
    whose score is above 5.0. *)
Lemma mark_faces_spec (isCircle : bool) (faces : list Detection) (ctx : gg.Context) :
  mark_faces isCircle faces ctx
  = (marked isCircle faces ctx, map face_rect (List.filter above_qThresh faces)).
Proof. unfold mark_faces. by rewrite mark_faces_acc. Qed.

Lemma DrawFaces_inv `{Encoders} (fd : faceDetector) (w : World)
    (faces : list Detection) (isCircle : bool) (ctx : gg.Context) :
  dc w = Some ctx ->
  exists w' bytes err,
    DrawFaces fd w faces isCircle = Return w' (bytes, returned_rects fd w faces, err)
    /\ dc w' = Some (marked isCircle faces ctx)
    /\ hp w' = hp w.
Proof.
  intros Hdc. unfold DrawFaces, returned_rects.
  rewrite Hdc, mark_faces_spec.
  destruct (os.OpenFile _ _) as [fs1|e]; [|by eauto 6].
  destruct (os.ReadFile _ _) as [rf|e]; by eauto 6.
Qed.

(** The digits of a mantissa bound it. *)
Lemma digits2_pos_bounds (m : positive) :
  2 ^ (Z.pos (digits2_pos m) - 1) <= Z.pos m < 2 ^ Z.pos (digits2_pos m).
Proof.
  induction m as [m IH|m IH|]; simpl digits2_pos.
  - rewrite Pos2Z.inj_succ.
    replace (Z.succ (Z.pos (digits2_pos m)) - 1)
      with (Z.succ (Z.pos (digits2_pos m) - 1)) by lia.
    rewrite !Z.pow_succ_r by lia. lia.
  - rewrite Pos2Z.inj_succ.
    replace (Z.succ (Z.pos (digits2_pos m)) - 1)
      with (Z.succ (Z.pos (digits2_pos m) - 1)) by lia.
    rewrite !Z.pow_succ_r by lia. lia.
  - simpl. lia.
Qed.

(** The gate of [DrawFaces], [face.Q > qThresh], on a [float32]: the score
    is a number strictly greater than 5. *)
Lemma above_qThresh_spec (face : Detection) :
  is_float32 (Q face) -> above_qThresh face = true <-> greater_than_five (Q face).
Proof.
  unfold above_qThresh, float32.ltb, SFltb.
  change qThresh with (S754_finite false 10485760 (-21)).
  destruct (Q face) as [s|s| |s m e];
    cbv beta iota delta [SFcompare is_float32 greater_than_five].
  - intros _. by destruct s.
  - intros _. by destruct s.
  - done.
  - intros Hb. destruct s; [done|].
    unfold bounded, canonical_mantissa, fexp, emin, float32.prec, float32.emax in Hb.
    apply andb_true_iff in Hb as [Hc _]. apply Z.eqb_eq in Hc.
    pose proof (digits2_pos_bounds m) as Hm.
    set (d := Z.pos (digits2_pos m)) in *.
    destruct (Z.compare_spec (-21) e) as [<-|Hlt|Hgt].
    + rewrite Pos.compare_cont_spec.
      change (2 ^ (0 `max` (- (-21)))) with 2097152.
      change (2 ^ (0 `max` (-21))) with 1.
      destruct (Pos.compare_spec 10485760 m) as [Heq|Hlt|Hgt]; simpl.
      all: split; intros Hx; try done; try lia.
    + split; [intros _|done].
      assert (d = 24) as Hd by lia. rewrite Hd in Hm.
      destruct (Z.le_gt_cases 0 e).
      * rewrite (Z.max_l 0 (- e)), (Z.max_r 0 e) by lia.
        assert (0 < 2 ^ e) by (apply Z.pow_pos_nonneg; lia).
        change (2 ^ (24 - 1)) with 8388608 in Hm. simpl (2 ^ 0). nia.
      * rewrite (Z.max_r 0 (- e)), (Z.max_l 0 e) by lia.
        assert (2 ^ (- e) <= 2 ^ 20) by (apply Z.pow_le_mono_r; lia).
        change (2 ^ (24 - 1)) with 8388608 in Hm.
        change (2 ^ 20) with 1048576 in *. simpl (2 ^ 0). lia.
    + split; [done|intros Hgt5]. exfalso.
      assert (d <= 24) by lia.
      rewrite (Z.max_r 0 (- e)), (Z.max_l 0 e) in Hgt5 by lia.
      assert (2 ^ 22 <= 2 ^ (- e)) by (apply Z.pow_le_mono_r; lia).
      assert (2 ^ d <= 2 ^ 24) by (apply Z.pow_le_mono_r; lia).
      change (2 ^ 22) with 4194304 in *. change (2 ^ 24) with 16777216 in *.
      simpl (2 ^ 0) in Hgt5. lia.
Qed.

(** The faces that pass the gate are those with a score greater than 5. *)
Lemma gate_filter (faces : list Detection) :
  Forall (fun face => is_float32 (Q face)) faces ->
  List.filter above_qThresh faces
  = filter (fun face => greater_than_five (Q face)) faces.
Proof.
  induction 1 as [|face faces Hface _ IH]; [done|].
  simpl. destruct (above_qThresh_spec face Hface) as [Hto Hfrom].
  destruct (above_qThresh face) eqn:Hgate.
  - rewrite filter_cons_True by auto. by rewrite IH.
  - rewrite filter_cons_False; [done|]. intros Hgt. by specialize (Hfrom Hgt).
Qed.

Lemma sample_run_strip :
  @DetectFaces (@spec_core series_trig) sample_detector_strip sample_world_strip
               (imgconv.ImNRGBA 1%positive)
  = Return sample_world_strip_after (inl sample_faces_uneven).
Proof. vm_compute. reflexivity. Qed.

Lemma sample_faces_uneven_scores :
  Forall (fun face => is_float32 (Q face)) sample_faces_uneven.
Proof. repeat constructor. Qed.

Lemma sample_faces_uneven_gated :
  filter (fun face => greater_than_five (Q face)) sample_faces_uneven
  = [mkDetection 2 2 4 (float32.of_Z 6)].
Proof. vm_compute. reflexivity. Qed.

(** C3.  The list [DetectFaces] returns is the list [ClusterDetections]
    made of the list of [RunCascade], with no detection removed whatever its
    score.  The gate sits in [DrawFaces]: called with that list, whose
    scores are [float32] numbers, it adds to [dc] the markers of the faces
    whose score is a number strictly greater than 5 - in their order, and of
    no other face - and, once the destination is open, returns the
    rectangles of those same faces; it returns none when the destination
    cannot be opened. *)
Theorem score_gate_only_in_DrawFaces `{PigoCore} `{Encoders}
    (fd : faceDetector) (w w' : World) (src : imgconv.Image)
    (faces : list Detection) :
  DetectFaces fd w src = Return w' (inl faces) ->
  Forall (fun face => is_float32 (Q face)) faces ->
  (exists cascade_bytes classifier cParams raw,
     os.ReadFile (fsys w) (cascadeFile fd) = inl cascade_bytes
     /\ Unpack cascade_bytes = Yields (inl classifier)
     /\ RunCascade classifier cParams (angle fd) = Yields raw
     /\ ClusterDetections classifier raw (iouThreshold fd) = Yields faces)
  /\ forall isCircle, exists ctx w'' bytes rects err,
       dc w' = Some ctx
       /\ DrawFaces fd w' faces isCircle = Return w'' (bytes, rects, err)
       /\ dc w''
          = Some (gg.mkContext (gg.width ctx) (gg.height ctx)
                    (gg.ops ctx
                     ++ flat_map (face_marker isCircle)
                          (filter (fun face => greater_than_five (Q face)) faces)))
       /\ (forall files1, os.OpenFile (fsys w') (destination fd) = inl files1 ->
             rects = map face_rect
                       (filter (fun face => greater_than_five (Q face)) faces))
       /\ (forall e, os.OpenFile (fsys w') (destination fd) = inr e -> rects = []).
Proof.
  intros Hrun Hscores.
  destruct (DetectFaces_inv _ _ _ _ _ Hrun)
    as (h1 & res & d & b & pixels & ctx & _ & _ & _ & _ & _ & -> & Hr).
  split.
  - unfold detection_result in Hr.
    destruct (os.ReadFile _ _) as [bytes|e]; [|done].
    destruct (Unpack bytes) as [[cl|e]| |] eqn:Hcl; [|done..].
    destruct (RunCascade cl _ _) as [raw| |] eqn:Hraw; [|done..].
    destruct (ClusterDetections cl raw _) as [fs| |] eqn:Hfs; [|done..].
    injection Hr as <-. eauto 10.
  - intros isCircle.
    destruct (DrawFaces_inv fd
                (mkWorld (Some (gg.call ctx (gg.DrawImage src 0 0))) (fsys w) h1)
                faces isCircle _ eq_refl) as (w'' & bytes & err & Hd & Hdc & _).
    unfold returned_rects in Hd. unfold marked in Hdc.
    rewrite (gate_filter faces Hscores) in Hd, Hdc.
    eexists _, w'', bytes, _, err. split_and!; [done|exact Hd|exact Hdc| |].
    + by intros files1 ->.
    + by intros e ->.
Qed.

Lemma score_gate_only_in_DrawFaces_witness :
  (exists cascade_bytes classifier cParams raw,
     os.ReadFile (fsys sample_world_strip) "uneven" = inl cascade_bytes
     /\ @Unpack (@spec_core series_trig) cascade_bytes = Yields (inl classifier)
     /\ @RunCascade (@spec_core series_trig) classifier cParams (S754_zero false)
        = Yields raw
     /\ @ClusterDetections (@spec_core series_trig) classifier raw (float64.of_Z 1)
        = Yields [mkDetection 2 2 4 (float32.of_Z 6);
                  mkDetection 2 3 4 (float32.of_Z 3)])
  /\ forall isCircle, exists ctx w'' bytes rects err,
       dc sample_world_strip_after = Some ctx
       /\ @DrawFaces signature_encoders sample_detector_strip
                     sample_world_strip_after
                     [mkDetection 2 2 4 (float32.of_Z 6);
                      mkDetection 2 3 4 (float32.of_Z 3)] isCircle
          = Return w'' (bytes, rects, err)
       /\ dc w''
          = Some (gg.mkContext (gg.width ctx) (gg.height ctx)
                    (gg.ops ctx
                     ++ flat_map (face_marker isCircle)
                          [mkDetection 2 2 4 (float32.of_Z 6)]))
       /\ (forall files1,
             os.OpenFile (fsys sample_world_strip_after) "out.png" = inl files1 ->
             rects = map face_rect [mkDetection 2 2 4 (float32.of_Z 6)])
       /\ (forall e,
             os.OpenFile (fsys sample_world_strip_after) "out.png" = inr e ->
             rects = []).
Proof.
  pose proof (@score_gate_only_in_DrawFaces (@spec_core series_trig)
                signature_encoders sample_detector_strip sample_world_strip
                sample_world_strip_after (imgconv.ImNRGBA 1%positive)
                sample_faces_uneven sample_run_strip sample_faces_uneven_scores)
    as Hgate.
  rewrite sample_faces_uneven_gated in Hgate. exact Hgate.
Defined.


Lemma sample_open :
  os.OpenFile (fsys sample_world_after) (destination sample_detector)
  = inl sample_files_opened.
Proof. vm_compute. reflexivity. Qed.


(** ** The deserializer of the specification *)
Section parse_cascade_facts.
Import Cascade.

Lemma take_bytes_enough (n : nat) (bs : list Z) :
  (n <= length bs)%nat -> take_bytes n bs = inl (take n bs, drop n bs).
Proof.
  intros Hn. unfold take_bytes.
  destruct (n <=? length bs)%nat eqn:E; [done|]. apply Nat.leb_gt in E. lia.
Qed.

Lemma take_bytes_short (n : nat) (bs : list Z) :
  (length bs < n)%nat -> take_bytes n bs = inr TruncatedStream.
Proof.
  intros Hn. unfold take_bytes.
  destruct (n <=? length bs)%nat eqn:E; [|done]. apply Nat.leb_le in E. lia.
Qed.

(** A stream shorter than its 16 header bytes is truncated. *)
Lemma parse_cascade_short_header (bs : list Z) :
  (length bs < 16)%nat -> parse_cascade bs = inr TruncatedStream.
Proof.
  intros Hlen. unfold parse_cascade, read_i32.
  destruct (decide (8 <= length bs)%nat) as [H8|H8];
    [rewrite (take_bytes_enough 8) by done|by rewrite take_bytes_short by lia].
  cbn [bindE].
  destruct (decide (4 <= length (drop 8 bs))%nat) as [H12|H12];
    [rewrite (take_bytes_enough 4) by done|by rewrite take_bytes_short by lia].
  cbn [bindE]. rewrite length_drop in H12.
  rewrite (take_bytes_short 4); [done|]. rewrite !length_drop. lia.
Qed.

(** With the header there, parsing is the shape check followed by the trees. *)
Lemma parse_cascade_header (bs : list Z) (depth count : Z) :
  declared bs = Some (depth, count) ->
  parse_cascade bs =
    if invalid_shape depth count then inr InvalidShape
    else bindE (read_trees (Z.to_nat count) depth (drop 16 bs))
               (fun ts => inl (mkModel depth count ts)).
Proof.
  unfold declared. destruct (16 <=? length bs)%nat eqn:Hlen; [|done].
  apply Nat.leb_le in Hlen. intros [= <- <-].
  unfold parse_cascade, read_i32.
  rewrite (take_bytes_enough 8) by lia. cbn [bindE].
  rewrite (take_bytes_enough 4) by (rewrite length_drop; lia). cbn [bindE].
  rewrite (take_bytes_enough 4) by (rewrite !length_drop; lia). cbn [bindE].
  rewrite !drop_drop. done.
Qed.

Lemma read_tree_short (depth : Z) (bs : list Z) :
  (length bs < tree_bytes depth)%nat -> read_tree depth bs = inr TruncatedStream.
Proof.
  unfold tree_bytes, read_tree. intros Hlen.
  set (a := (4 * Z.to_nat (2 ^ depth - 1))%nat) in *.
  set (b := (4 * Z.to_nat (2 ^ depth))%nat) in *.
  destruct (decide (a <= length bs)%nat) as [Ha|Ha];
    [rewrite (take_bytes_enough a) by done|by rewrite take_bytes_short by lia].
  cbn [bindE].
  destruct (decide (b <= length (drop a bs))%nat) as [Hb|Hb];
    [rewrite (take_bytes_enough b) by done|by rewrite take_bytes_short by lia].
  cbn [bindE]. rewrite length_drop in Hb.
  rewrite (take_bytes_short 4); [done|]. rewrite !length_drop. lia.
Qed.

Lemma read_tree_enough (depth : Z) (bs : list Z) :
  (tree_bytes depth <= length bs)%nat ->
  exists t, read_tree depth bs = inl (t, drop (tree_bytes depth) bs).
Proof.
  unfold tree_bytes, read_tree. intros Hlen.
  set (a := (4 * Z.to_nat (2 ^ depth - 1))%nat) in *.
  set (b := (4 * Z.to_nat (2 ^ depth))%nat) in *.
  rewrite (take_bytes_enough a) by lia. cbn [bindE].
  rewrite (take_bytes_enough b) by (rewrite length_drop; lia). cbn [bindE].
  rewrite (take_bytes_enough 4) by (rewrite !length_drop; lia). cbn [bindE].
  rewrite !drop_drop. eexists. do 3 f_equal; lia.
Qed.

Lemma read_trees_short (n : nat) (depth : Z) (bs : list Z) :
  (length bs < n * tree_bytes depth)%nat ->
  read_trees n depth bs = inr TruncatedStream.
Proof.
  revert bs. induction n as [|n IH]; intros bs Hlen; [simpl in Hlen; lia|].
  cbn [read_trees].
  destruct (decide (tree_bytes depth <= length bs)%nat) as [Ht|Ht].
  - destruct (read_tree_enough depth bs Ht) as [t ->]. cbn [bindE].
    rewrite IH; [done|]. rewrite length_drop. simpl in Hlen. lia.
  - by rewrite read_tree_short by lia.
Qed.

Lemma read_trees_enough (n : nat) (depth : Z) (bs : list Z) :
  (n * tree_bytes depth <= length bs)%nat ->
  exists ts, read_trees n depth bs = inl ts /\ length ts = n.
Proof.
  revert bs. induction n as [|n IH]; intros bs Hlen; [by exists []|].
  cbn [read_trees]. simpl in Hlen.
  destruct (read_tree_enough depth bs) as [t ->]; [lia|]. cbn [bindE].
  destruct (IH (drop (tree_bytes depth) bs)) as (ts & -> & Hts).
  { rewrite length_drop. lia. }
  exists (t :: ts). simpl. by rewrite Hts.
Qed.

Lemma valid_shape_bounds (depth count : Z) :
  invalid_shape depth count = false -> 0 < depth <= safety_ceiling /\ 0 < count.
Proof.
  unfold invalid_shape. intros H.
  apply orb_false_elim in H as [[H1 H2]%orb_false_elim H3]. lia.
Qed.

Lemma tree_bytes_size (depth : Z) :
  0 < depth -> Z.of_nat (tree_bytes depth) = tree_size depth.
Proof.
  intros Hd. unfold tree_bytes, tree_size.
  assert (1 <= 2 ^ depth) by (apply (Z.pow_le_mono_r 2 0 depth); lia). lia.
Qed.

(** No deserializer at all can answer [TruncatedStream] on every stream with
    an unreadable field and [InvalidShape] on every header of invalid shape:
    the two conditions meet. *)
Lemma error_clauses_overlap (parse : list Z -> Model + Error) :
  ~ ((forall bs, field_unreadable bs -> parse bs = inr TruncatedStream)
     /\ (forall bs depth count,
           declared bs = Some (depth, count) ->
           invalid_shape depth count = true -> parse bs = inr InvalidShape)).
Proof.
  intros [Ht Hs].
  specialize (Ht header_only_depth_0). specialize (Hs header_only_depth_0 0 1).
  rewrite Hs in Ht; [|done..]. by discriminate Ht.
Qed.

(** C5, as stated, fails: the header-only stream declares a tree whose
    fields cannot be read in full, and the deserializer does not answer
    [TruncatedStream] on it (the depth it declares is 0, the answer is
    [InvalidShape]). *)
Lemma parse_cascade_shape_before_length :
  field_unreadable header_only_depth_0
  /\ parse_cascade header_only_depth_0 <> inr TruncatedStream.
Proof. split; [by vm_compute|]. vm_compute. discriminate. Qed.

(** C5, amended.  The deserializer returns [TruncatedStream] when the
    16-byte header cannot be read in full, [InvalidShape] when the header is
    complete and declares [tree_depth <= 0], [tree_count <= 0] or a
    [tree_depth] above the safety ceiling, and [TruncatedStream] when the
    header is complete and of valid shape and a field of the trees it declares
    cannot be read in full; it returns a model in no such case, and a model
    in every other case. *)
Theorem parse_cascade_errors (bs : list Z) :
  ((length bs < 16)%nat -> parse_cascade bs = inr TruncatedStream)
  /\ (forall depth count,
        declared bs = Some (depth, count) ->
        (invalid_shape depth count = true -> parse_cascade bs = inr InvalidShape)
        /\ (invalid_shape depth count = false ->
            Z.of_nat (length bs) < layout_size depth count ->
            parse_cascade bs = inr TruncatedStream)
        /\ (invalid_shape depth count = false ->
            layout_size depth count <= Z.of_nat (length bs) ->
            exists ts, parse_cascade bs = inl (mkModel depth count ts)
                       /\ Z.of_nat (length ts) = count)).
Proof.
  split; [apply parse_cascade_short_header|].
  intros depth count Hdecl. rewrite (parse_cascade_header bs depth count Hdecl).
  assert (Hlen : (16 <= length bs)%nat).
  { unfold declared in Hdecl.
    destruct (16 <=? length bs)%nat eqn:E; [by apply Nat.leb_le|done]. }
  split_and!.
  - by intros ->.
  - intros Hok Hshort. rewrite Hok.
    destruct (valid_shape_bounds _ _ Hok) as [Hd Hc].
    rewrite read_trees_short; [done|].
    rewrite length_drop. unfold layout_size in Hshort.
    pose proof (tree_bytes_size depth ltac:(lia)) as Hsz. nia.
  - intros Hok Hfull. rewrite Hok.
    destruct (valid_shape_bounds _ _ Hok) as [Hd Hc].
    destruct (read_trees_enough (Z.to_nat count) depth (drop 16 bs))
      as (ts & -> & Hts).
    { rewrite length_drop. unfold layout_size in Hfull.
      pose proof (tree_bytes_size depth ltac:(lia)) as Hsz. nia. }
    exists ts. split; [done|]. lia.
Qed.

Lemma parse_cascade_errors_witness :
  parse_cascade header_only_depth_0 = inr InvalidShape
  /\ parse_cascade (take 20 sample_cascade) = inr TruncatedStream
  /\ parse_cascade (take 5 sample_cascade) = inr TruncatedStream
  /\ exists ts, parse_cascade sample_cascade = inl (mkModel 1 1 ts)
                /\ Z.of_nat (length ts) = 1.
Proof.
  split_and!.
  - apply (proj2 (parse_cascade_errors header_only_depth_0) 0 1);
      by vm_compute.
  - apply (proj2 (parse_cascade_errors (take 20 sample_cascade)) 1 1);
      by vm_compute.
  - apply (proj1 (parse_cascade_errors (take 5 sample_cascade))).
    vm_compute. lia.
  - apply (proj2 (parse_cascade_errors sample_cascade) 1 1);
      [by vm_compute|by vm_compute|]. vm_compute. discriminate.
Defined.

End parse_cascade_facts.

(** ** The sweep of the specification *)
Section sweep_facts.
Import Cascade Window Runner.
Context `{Trig}.

Lemma positions_bounds (lo hi step x : Z) :
  1 <= step -> In x (positions lo hi step) -> lo <= x <= hi.
Proof.
  intros Hstep. unfold positions. destruct (hi <? lo) eqn:E; [done|].
  apply Z.ltb_ge in E. intros (k & <- & Hk%in_seq)%in_map_iff.
  assert (0 <= (hi - lo) / step) by (apply Z.div_pos; lia).
  assert (Z.of_nat k <= (hi - lo) / step) by lia.
  assert (step * ((hi - lo) / step) <= hi - lo)
    by (apply Z.mul_div_le; lia).
  nia.
Qed.

Lemma step_of_pos (p : Params) (s : Z) : 1 <= step_of p s.
Proof. unfold step_of. lia. Qed.

(** The windows of one scale have that scale and a centre between [s/2] and
    the extent minus [s/2] in both directions. *)
Lemma sweep_scale_bounds (m : Model) (im : Gray) (p : Params)
    (angle : spec_float) (s : Z) (d : Detection) :
  In d (sweep_scale m im p angle s) ->
  Scale d = s
  /\ Z.quot s 2 <= Row d <= rows im - Z.quot s 2
  /\ Z.quot s 2 <= Col d <= cols im - Z.quot s 2.
Proof.
  unfold sweep_scale.
  intros (r & Hr & (c & Hc & Hd)%in_flat_map)%in_flat_map.
  apply positions_bounds in Hr, Hc; try apply step_of_pos.
  destruct (classify m im r c s angle) as [q|]; [|done].
  destruct Hd as [<-|[]]. by simpl.
Qed.

(** Under I2 the scale grows by at least one at every step. *)
Lemma next_scale_grows (p : Params) (s : Z) :
  I2 p -> 0 <= s -> s < next_scale p s.
Proof.
  intros (Hf & _) Hs. unfold next_scale.
  assert (Hle : s <= Qfloor (inject_Z s * scale_factor p)).
  { rewrite <- (Qfloor_Z s) at 1. apply Qfloor_resp_le.
    destruct (scale_factor p) as [a b].
    unfold Qlt, Qle, Qmult, inject_Z in *. simpl in *. nia. }
  destruct (_ =? s) eqn:E; [lia|]. apply Z.eqb_neq in E. lia.
Qed.

Lemma sweep_bounds (fuel : nat) (m : Model) (im : Gray) (p : Params)
    (angle : spec_float) :
  I2 p ->
  forall (s : Z) (ds : list Detection),
  0 <= s ->
  sweep fuel m im p angle s = Some ds ->
  forall d, In d ds ->
    s <= Scale d <= max_size p
    /\ Z.quot (Scale d) 2 <= Row d <= rows im - Z.quot (Scale d) 2
    /\ Z.quot (Scale d) 2 <= Col d <= cols im - Z.quot (Scale d) 2.
Proof.
  intros HI2. induction fuel as [|fuel IH]; intros s ds Hs; simpl;
    destruct (max_size p <? s) eqn:E;
    try (intros [= <-] d []); try done.
  apply Z.ltb_ge in E.
  destruct (sweep fuel m im p angle (next_scale p s)) as [rest|] eqn:Hrest;
    [simpl|done].
  intros [= <-] d [Hd|Hd]%in_app_iff.
  - apply sweep_scale_bounds in Hd as (-> & Hr & Hc). lia.
  - pose proof (next_scale_grows p s HI2 Hs) as Hgrow.
    destruct (IH (next_scale p s) rest ltac:(lia) Hrest d Hd)
      as (Hsc & Hr & Hc). lia.
Qed.

Lemma sweep_terminates (fuel : nat) (m : Model) (im : Gray) (p : Params)
    (angle : spec_float) :
  I2 p ->
  forall s, 0 <= s -> max_size p - s + 1 <= Z.of_nat fuel ->
  is_Some (sweep fuel m im p angle s).
Proof.
  intros HI2. induction fuel as [|fuel IH]; intros s Hs Hfuel; simpl;
    destruct (max_size p <? s) eqn:E; try done.
  - apply Z.ltb_ge in E. lia.
  - apply Z.ltb_ge in E.
    pose proof (next_scale_grows p s HI2 Hs) as Hgrow.
    destruct (IH (next_scale p s)) as [rest ->]; [lia..|]. done.
Qed.

End sweep_facts.

(** C6, as stated, fails: the parameters satisfy I1 and I2 and the sweep of
    a one-pixel image with windows of side 1 emits a detection centred at
    row 0, column 0, on the edge of the image, and one centred at row 1,
    column 1, which is not a pixel of the image. *)
Lemma sweep_centre_outside_image :
  Runner.I1 unit_windows /\ Runner.I2 unit_windows
  /\ exists ds,
       @Runner.run_cascade series_trig sample_model one_pixel unit_windows
                           (S754_zero false) = Some ds
       /\ In (mkDetection 0 0 1 (float32.of_Z 6)) ds
       /\ ~ centre_strictly_inside one_pixel (mkDetection 0 0 1 (float32.of_Z 6))
       /\ In (mkDetection 1 1 1 (float32.of_Z 6)) ds
       /\ ~ centre_in_image one_pixel (mkDetection 1 1 1 (float32.of_Z 6)).
Proof.
  split; [by vm_compute|]. split; [by vm_compute|].
  eexists. split; [vm_compute; reflexivity|]. split_and!.
  - vm_compute. tauto.
  - unfold centre_strictly_inside. simpl. lia.
  - vm_compute. tauto.
  - unfold centre_in_image. simpl. lia.
Qed.

(** C6, amended.  With parameters satisfying I1 and I2 the sweep ends, and
    every detection [d] it emits satisfies [min_size <= d.scale <= max_size];
    its centre lies between [d.scale/2] and the image extent minus
    [d.scale/2] in both directions, hence strictly inside the image whenever
    [min_size >= 2]. *)
Theorem sweep_detections_bounded `{Window.Trig} (m : Cascade.Model)
    (im : Window.Gray) (p : Runner.Params) (angle : spec_float) :
  Runner.I1 p -> Runner.I2 p ->
  exists ds,
    Runner.run_cascade m im p angle = Some ds
    /\ forall d, In d ds ->
         Runner.min_size p <= Scale d <= Runner.max_size p
         /\ Z.quot (Scale d) 2 <= Row d <= Window.rows im - Z.quot (Scale d) 2
         /\ Z.quot (Scale d) 2 <= Col d <= Window.cols im - Z.quot (Scale d) 2
         /\ (2 <= Runner.min_size p -> centre_strictly_inside im d).
Proof.
  intros [Hpos Hle] HI2. unfold Runner.run_cascade.
  destruct (sweep_terminates (Runner.scale_steps p) m im p
              (Runner.reduce_angle angle) HI2 (Runner.min_size p))
    as [ds Hds]; [lia|unfold Runner.scale_steps; lia|].
  exists ds. split; [done|]. intros d Hd.
  destruct (sweep_bounds _ m im p _ HI2 (Runner.min_size p) ds ltac:(lia) Hds d Hd)
    as (Hs & Hr & Hc).
  split_and!; try lia.
  intros Hmin. unfold centre_strictly_inside.
  assert (1 <= Z.quot (Scale d) 2) by (apply Z.quot_le_lower_bound; lia).
  lia.
Qed.

Lemma sweep_detections_bounded_witness :
  exists ds,
    @Runner.run_cascade series_trig sample_model
       (Window.mkGray (luma_of_pix (pixbuf.Pix sample_photo)) 4 4 4)
       (Runner.mkParams 2 4 (1 # 10) (11 # 10)) (S754_zero false) = Some ds
    /\ forall d, In d ds ->
         2 <= Scale d <= 4
         /\ Z.quot (Scale d) 2 <= Row d <= 4 - Z.quot (Scale d) 2
         /\ Z.quot (Scale d) 2 <= Col d <= 4 - Z.quot (Scale d) 2
         /\ (2 <= 2 ->
             centre_strictly_inside
               (Window.mkGray (luma_of_pix (pixbuf.Pix sample_photo)) 4 4 4) d).
Proof.
  apply (@sweep_detections_bounded series_trig sample_model
           (Window.mkGray (luma_of_pix (pixbuf.Pix sample_photo)) 4 4 4)
           (Runner.mkParams 2 4 (1 # 10) (11 # 10)) (S754_zero false));
    by vm_compute.
Defined.

(** ** The clusterer of the specification *)
Section cluster_facts.
Import Clusterer.

Lemma pairs_ordered (n i j : nat) : In (i, j) (pairs n) -> (i < j)%nat.
Proof.
  unfold pairs.
  intros (i' & _ & (j' & [= <- <-] & Hj%in_seq)%in_map_iff)%in_flat_map. lia.
Qed.

(** Without a joined pair the partition stays the one of singletons. *)
Lemma partition_separated (t : spec_float) (ds : list Detection) :
  separated t ds ->
  partition (clamp_threshold t) ds = seq 0 (length ds).
Proof.
  intros Hsep. unfold partition.
  generalize (pairs_ordered (length ds)).
  generalize (pairs (length ds)) as l. generalize (seq 0 (length ds)) as p.
  intros p l. revert p. induction l as [|[i j] l IH]; intros p Hord; [done|].
  cbn [fold_left]. assert (Hij : (i < j)%nat) by (apply Hord; by left).
  replace (link (clamp_threshold t) ds p (i, j)) with p.
  - apply IH. intros i' j' Hin. apply Hord. by right.
  - unfold link. cbn [fst snd].
    destruct (ds !! i) as [a|] eqn:Ha; [|done].
    destruct (ds !! j) as [b|] eqn:Hb; [|done].
    rewrite (Hsep i j a b Ha Hb); [done|lia].
Qed.

Lemma find_singletons (fuel n i : nat) : find fuel (seq 0 n) i = i.
Proof.
  destruct fuel as [|fuel]; [done|]. cbn [find].
  destruct (seq 0 n !! i) as [j|] eqn:Hj; [|done].
  apply lookup_seq in Hj as [-> _]. by rewrite Nat.eqb_refl.
Qed.

Lemma members_from_other (n root j : nat) (ds : list Detection) :
  (root < j)%nat -> members_from (seq 0 n) n root j ds = [].
Proof.
  revert j. induction ds as [|d ds IH]; intros j Hj; [done|].
  cbn [members_from]. rewrite find_singletons.
  destruct (j =? root)%nat eqn:E; [apply Nat.eqb_eq in E; lia|].
  rewrite IH by lia. done.
Qed.

Lemma members_from_single (n j i : nat) (ds : list Detection) (d : Detection) :
  ds !! i = Some d -> members_from (seq 0 n) n (j + i) j ds = [d].
Proof.
  revert j i. induction ds as [|x ds IH]; intros j i Hi; [done|].
  cbn [members_from]. rewrite find_singletons. destruct i as [|i].
  - injection Hi as ->. rewrite Nat.add_0_r, Nat.eqb_refl.
    rewrite members_from_other by lia. done.
  - destruct (j =? j + S i)%nat eqn:E; [apply Nat.eqb_eq in E; lia|].
    replace (j + S i)%nat with (S j + i)%nat by lia.
    rewrite (IH (S j) i Hi). done.
Qed.

(** A list is rebuilt from its elements taken by index. *)
Lemma rebuild (ds : list Detection) (g : nat -> list Detection) (k : nat) :
  (forall i d, ds !! i = Some d -> g (k + i)%nat = [d]) ->
  flat_map g (seq k (length ds)) = ds.
Proof.
  revert k. induction ds as [|x ds IH]; intros k Hg; [done|].
  cbn [length seq flat_map].
  pose proof (Hg 0%nat x eq_refl) as H0. rewrite Nat.add_0_r in H0.
  rewrite H0. simpl. f_equal.
  apply IH. intros i d Hi. replace (S k + i)%nat with (k + S i)%nat by lia.
  by apply Hg.
Qed.

(** A list without a joined pair, each element of which is its own
    weighted mean, is left as it is. *)
Lemma cluster_separated (ds : list Detection) (t : spec_float) :
  separated t ds ->
  (forall d, In d ds -> representative [d] = d) ->
  cluster ds t = ds.
Proof.
  intros Hsep Hfix. unfold cluster. rewrite (partition_separated t ds Hsep).
  apply (rebuild ds _ 0). intros i d Hi. cbn [Nat.add].
  rewrite find_singletons, Nat.eqb_refl.
  unfold members.
  pose proof (members_from_single (length ds) 0 i ds d Hi) as Hm.
  cbn [Nat.add] in Hm. rewrite Hm.
  rewrite Hfix; [done|]. apply list_elem_of_In. by eapply list_elem_of_lookup_2.
Qed.

End cluster_facts.

(** C7, as stated, fails: at threshold 0.2 the first pass merges the two
    windows side by side and keeps the third; their mean overlaps the third
    above the threshold, so a second pass merges again. *)
Lemma cluster_not_idempotent :
  Clusterer.cluster (Clusterer.cluster three_windows (tenths 2)) (tenths 2)
  <> Clusterer.cluster three_windows (tenths 2).
Proof. vm_compute. discriminate. Qed.

(** C7, amended.  Clustering is idempotent on every input whose clustered
    output has no two detections with IoU above the threshold and consists of
    detections that are their own weighted mean: then
    [cluster(cluster(D, t), t) = cluster(D, t)]. *)
Theorem cluster_idempotent_when_separated (ds : list Detection) (t : spec_float) :
  separated t (Clusterer.cluster ds t) ->
  (forall d, In d (Clusterer.cluster ds t) -> Clusterer.representative [d] = d) ->
  Clusterer.cluster (Clusterer.cluster ds t) t = Clusterer.cluster ds t.
Proof. apply cluster_separated. Qed.

Lemma two_windows_clustered :
  Clusterer.cluster two_windows (tenths 2) = two_windows.
Proof. vm_compute. reflexivity. Qed.

Lemma cluster_idempotent_when_separated_witness :
  Clusterer.cluster (Clusterer.cluster two_windows (tenths 2)) (tenths 2)
  = Clusterer.cluster two_windows (tenths 2).
Proof.
  apply cluster_idempotent_when_separated; rewrite two_windows_clustered.
  - intros [|[|i]] [|[|j]] a b Ha Hb Hij; try done;
      injection Ha as <-; injection Hb as <-; by vm_compute.
  - intros d [<-|[<-|[]]]; by vm_compute.
Defined.

(** ** The errors of a detection *)




(** ** Angles *)

(** The sine and cosine of the binary64 value of [2 pi]: the sine is
    [-0x1.1a62633145c07p-52], about [-2.45e-16], not 0. *)
Lemma trig_full_turn :
  trig.sin float64.two_pi = S754_finite true 4967757600021511 (-104)
  /\ trig.cos float64.two_pi = float64.of_Z 1.
Proof. by vm_compute. Qed.

(** From the angle 0 one more turn leads to 1.0, which lies in [0, 1] and is
    not reduced: the run at 0 takes the plain path, the run at 1.0 the
    rotation path.  From the angle 2^-60 it leads to 1.0 as well. *)
Lemma full_turn_from_zero :
  Runner.reduce_angle (S754_zero false) = S754_zero false
  /\ float64.ltb (S754_zero false) (S754_zero false) = false
  /\ Runner.reduce_angle (plus_full_turn (S754_zero false)) = float64.of_Z 1
  /\ float64.ltb (S754_zero false) (float64.of_Z 1) = true.
Proof. by vm_compute. Qed.

Lemma full_turn_absorbs_tiny_angle :
  Runner.reduce_angle (plus_full_turn tiny_angle) = float64.of_Z 1
  /\ Runner.reduce_angle tiny_angle = tiny_angle
  /\ tiny_angle <> float64.of_Z 1.
Proof. split_and!; [by vm_compute..|]. vm_compute. discriminate. Qed.

(** At the full turn the rotated displacement of the offsets (64, -127) in a
    window of side 4 is one row short of the plain one. *)
Lemma displacement_full_turn :
  @Window.displacement series_trig (S754_zero false) 4 64 (-127) = (1, -1)
  /\ @Window.displacement series_trig (float64.of_Z 1) 4 64 (-127) = (0, -1).
Proof. by vm_compute. Qed.






(** * Further properties of the package file and of the command *)

(** ** Lemmas *)

Section pixel_content.
Import image pixbuf imgconv.

Lemma for_range_inv {St : Type} (I : Z -> St -> Prop)
    (body : Z -> St -> option St) (n : nat) :
  forall (i : Z) (s s' : St),
  I i s ->
  (forall k s0 s1, i <= k < i + Z.of_nat n -> I k s0 ->
     body k s0 = Some s1 -> I (k + 1) s1) ->
  for_range n i body s = Some s' -> I (i + Z.of_nat n) s'.
Proof.
  induction n as [|n IH]; intros i s s' Hi Hstep; simpl.
  - intros [= <-]. by rewrite Z.add_0_r.
  - destruct (body i s) as [s1|] eqn:Hb; [simpl|done]. intros Hrun.
    replace (i + Z.of_nat (S n)) with (i + 1 + Z.of_nat n) by lia.
    apply (IH (i + 1) s1 s'); [|intros k s0 s2 Hk; apply Hstep; lia|done].
    apply (Hstep i s s1); [lia|done..].
Qed.

Lemma store_inv (pix pix' : list Z) (i v : Z) :
  store pix i v = Some pix' ->
  0 <= i < Z.of_nat (length pix) /\ pix' = <[Z.to_nat i := v]> pix.
Proof.
  unfold store. destruct (0 <=? i) eqn:H0; [|done].
  destruct (i <? _) eqn:H1; [|done]. simpl. intros [= <-]. split; [lia|done].
Qed.

Lemma store_pixel_inv (di : Z) (pix : list Z) (a b c d : Z) (s : Z * list Z) :
  0 <= di -> di + 4 < 2 ^ 63 ->
  store_pixel di pix a b c d = Some s ->
  di + 4 <= Z.of_nat (length pix)
  /\ s.1 = di + 4
  /\ length s.2 = length pix
  /\ s.2 !! Z.to_nat di = Some a
  /\ s.2 !! Z.to_nat (di + 1) = Some b
  /\ s.2 !! Z.to_nat (di + 2) = Some c
  /\ s.2 !! Z.to_nat (di + 3) = Some d
  /\ forall i, (i < Z.to_nat di)%nat -> s.2 !! i = pix !! i.
Proof.
  intros H0 H1. unfold store_pixel, GoInt.add.
  rewrite !wrap_id by (unfold GoInt.in_range; lia).
  destruct (store pix (di + 0) a) as [p1|] eqn:E1; [simpl|done].
  destruct (store p1 (di + 1) b) as [p2|] eqn:E2; [simpl|done].
  destruct (store p2 (di + 2) c) as [p3|] eqn:E3; [simpl|done].
  destruct (store p3 (di + 3) d) as [p4|] eqn:E4; [simpl|done].
  intros [= <-]. simpl.
  apply store_inv in E1 as [B1 ->], E2 as [B2 ->], E3 as [B3 ->], E4 as [B4 ->].
  rewrite !length_insert in *. rewrite Z.add_0_r in *.
  split_and!; try lia.
  - rewrite !list_lookup_insert_ne by lia.
    by rewrite list_lookup_insert_eq by lia.
  - rewrite !list_lookup_insert_ne by lia.
    by rewrite list_lookup_insert_eq by (rewrite ?length_insert; lia).
  - rewrite !list_lookup_insert_ne by lia.
    by rewrite list_lookup_insert_eq by (rewrite ?length_insert; lia).
  - by rewrite list_lookup_insert_eq by (rewrite ?length_insert; lia).
  - intros i Hi. by rewrite !list_lookup_insert_ne by lia.
Qed.

(** The offset of a pixel of a buffer laid out for its rectangle. *)
Lemma PixOffset_packed (pix : list Z) (r : Rectangle) (w h x y : Z) :
  Min r = mkPoint 0 0 -> 0 <= x < w -> 0 <= y < h -> 4 * w * h < 2 ^ 63 ->
  PixOffset (mkNRGBA pix (GoInt.mul 4 w) r) x y = 4 * w * y + 4 * x.
Proof.
  intros Hr Hx Hy Hwh. unfold PixOffset. simpl. rewrite Hr. simpl.
  unfold GoInt.add, GoInt.mul, GoInt.sub.
  rewrite !Z.sub_0_r.
  assert (4 * w <= 4 * w * h) by nia.
  assert (0 <= 4 * w * y + 4 * x + 4 <= 4 * w * h) by nia.
  rewrite (wrap_id y) by (unfold GoInt.in_range; nia).
  rewrite (wrap_id x) by (unfold GoInt.in_range; nia).
  rewrite (wrap_id (4 * w)) by (unfold GoInt.in_range; nia).
  rewrite (wrap_id (y * (4 * w))) by (unfold GoInt.in_range; nia).
  rewrite (wrap_id (x * 4)) by (unfold GoInt.in_range; lia).
  rewrite wrap_id by (unfold GoInt.in_range; nia). lia.
Qed.

Section per_pixel.
Context (r : Rectangle) (w h : Z).
Hypothesis Hr : Min r = mkPoint 0 0.
Hypothesis Hw : 0 <= w.
Hypothesis Hh : 0 <= h < 2 ^ 63.
Hypothesis Hwh : 4 * w * h < 2 ^ 63.

(** What the loop body does at (x, y): it stores four values with a given
    property, or panics. *)
Context (inner : Z -> Z -> Z * list Z -> option (Z * list Z)).
Context (P : Z -> Z -> Z -> Z -> Z -> Z -> Prop).
Hypothesis inner_spec : forall y x di pix s1,
  inner y x (di, pix) = Some s1 ->
  exists a b c d, P x y a b c d /\ store_pixel di pix a b c d = Some s1.

Let written (pix : list Z) (x y : Z) : Prop :=
  exists a b c d, P x y a b c d
    /\ pix !! Z.to_nat (4 * w * y + 4 * x) = Some a
    /\ pix !! Z.to_nat (4 * w * y + 4 * x + 1) = Some b
    /\ pix !! Z.to_nat (4 * w * y + 4 * x + 2) = Some c
    /\ pix !! Z.to_nat (4 * w * y + 4 * x + 3) = Some d.

Let Inv (di : Z) (pix : list Z) : Prop :=
  Z.of_nat (length pix) = 4 * w * h
  /\ forall x y, 0 <= x < w -> 0 <= y < h -> 4 * w * y + 4 * x < di ->
       written pix x y.

Lemma same_pixel (x y x' y' : Z) :
  0 <= x < w -> 0 <= x' < w -> 0 <= y -> 0 <= y' ->
  4 * w * y' + 4 * x' = 4 * w * y + 4 * x -> x' = x /\ y' = y.
Proof. intros. assert (y' = y) by nia. subst. lia. Qed.

Lemma per_pixel_loops (pix0 pix' : list Z) :
  Z.of_nat (length pix0) = 4 * w * h ->
  for_range (Z.to_nat h) 0 (fun dstY pix =>
    let di := PixOffset (mkNRGBA pix0 (GoInt.mul 4 w) r) 0 dstY in
    snd <$> for_range (Z.to_nat w) 0 (inner dstY) (di, pix)) pix0 = Some pix' ->
  Z.of_nat (length pix') = 4 * w * h
  /\ forall x y, 0 <= x < w -> 0 <= y < h -> written pix' x y.
Proof.
  intros Hlen Hrun.
  match type of Hrun with for_range _ _ ?f _ = _ => set (outer := f) in Hrun end.
  pose proof (for_range_inv (fun y pix => Inv (4 * w * y) pix)
                outer (Z.to_nat h) 0 pix0 pix') as Hout.
  destruct Hout as [Hl Hall]; [| |done|].
  - split; [done|]. intros x y Hx Hy Hlt. nia.
  - intros y pix pix1 Hy Hinv. subst outer. cbv beta zeta.
    rewrite (PixOffset_fresh _ r w h y) by (try done; lia).
    destruct (for_range (Z.to_nat w) 0 (inner y) _) as [[di1 pixr]|] eqn:Hin;
      [simpl|done].
    intros [= <-].
    pose proof (for_range_inv
      (fun x (st : Z * list Z) => st.1 = 4 * w * y + 4 * x /\ Inv st.1 st.2)
      (inner y) (Z.to_nat w) 0 (4 * w * y, pix) (di1, pixr)) as Hinn.
    destruct Hinn as [Hdi Hinv1]; [| |done|].
    + simpl. split; [lia|done].
    + intros x [di0 p0] s1 Hx [Hdi [Hl0 Hw0]] Hbody. simpl in Hdi, Hl0, Hw0.
      subst di0.
      destruct (inner_spec _ _ _ _ _ Hbody) as (a & b & c & d & HP & Hst).
      destruct (offset_bound w h x y) as [B0 B1]; [lia..|].
      apply store_pixel_inv in Hst
        as (_ & H1 & H2 & Ha & Hb & Hc & Hd & Hold); [|lia..].
      split; [lia|]. rewrite H1. split; [lia|].
      intros x' y' Hx' Hy' Hlt.
      destruct (Z.lt_ge_cases (4 * w * y' + 4 * x') (4 * w * y + 4 * x))
        as [Hdone|Hnew].
      * destruct (Hw0 x' y' Hx' Hy' Hdone) as (a' & b' & c' & d' & HP' & L).
        exists a', b', c', d'. split; [done|].
        rewrite !Hold by lia. done.
      * destruct (same_pixel x y x' y') as [-> ->]; [lia..|].
        exists a, b, c, d. done.
    + simpl in Hdi. subst di1. simpl in Hinv1.
      destruct Hinv1 as [Hl1 Hw1]. split; [done|].
      intros x' y' Hx' Hy' Hlt. apply Hw1; [done..|]. nia.
  - split; [done|]. intros x y Hx Hy. apply Hall; [done..|]. nia.
Qed.

End per_pixel.

(** The shape of a call that allocates: the bounds pass the allocation check,
    the pixel loop of the source's type fills a zeroed buffer, and the result
    sits at a fresh address. *)
Lemma ImgToNRGBA_allocates (h h' : heap) (img : Image) (l : loc) (b : Rectangle) :
  ImgToNRGBA h img = Some (h', l) ->
  Bounds h img = Some b ->
  (forall p, img = ImNRGBA p -> Min b <> mkPoint 0 0) ->
  let dst := mkNRGBA (replicate (Z.to_nat (4 * Dx b * Dy b)) 0)
                     (GoInt.mul 4 (Dx b)) (Sub b (Min b)) in
  0 <= Dx b /\ 0 <= Dy b < 2 ^ 63 /\ 4 * Dx b * Dy b < 2 ^ 63
  /\ exists pix,
       match img with
       | ImNRGBA p => src ← h !! p; fill_from_NRGBA src dst b (Dx b) (Dy b)
       | ImYCbCr src => fill_from_YCbCr src dst b (Dx b) (Dy b)
       | ImOther src => fill_from_Generic src dst b (Dx b) (Dy b)
       end = Some pix
       /\ h !! l = None
       /\ h' = <[l := mkNRGBA pix (GoInt.mul 4 (Dx b)) (Sub b (Min b))]> h.
Proof.
  intros Hrun Hb Hfresh dst. revert Hrun. unfold ImgToNRGBA. rewrite Hb. simpl.
  assert (Hsame :
    (if (X (Min b) =? 0) && (Y (Min b) =? 0)
     then match img with ImNRGBA p => Some p | _ => None end else None) = None).
  { destruct ((X (Min b) =? 0) && (Y (Min b) =? 0)) eqn:Hz; [|done].
    destruct img as [p| |]; [|done..].
    destruct (Hfresh p eq_refl). by apply point_zero. }
  rewrite Hsame. clear Hsame. unfold NewNRGBA. rewrite Dx_Sub_Min, Dy_Sub_Min.
  destruct (mul3NonNeg 4 (Dx b) (Dy b) <? 0) eqn:Hn; [done|]. simpl.
  destruct (mul3NonNeg_ok (Dx b) (Dy b)) as (Hw & Hh & _ & Hwh & ->); [lia|].
  assert (Hh' : Dy b < 2 ^ 63).
  { unfold Dy, GoInt.sub. pose proof (wrap_in_range (Y (Max b) - Y (Min b))) as Hr.
    unfold GoInt.in_range in Hr. lia. }
  fold dst.
  destruct (match img with ImNRGBA p => _ | _ => _ end) as [pix|] eqn:Hfill;
    simpl; [|done].
  intros [= <- <-]. split_and!; try done. exists pix. split_and!; try done.
  apply not_elem_of_dom, is_fresh.
Qed.

Lemma index_lookup (p : list Z) (i : Z) :
  0 <= i -> index p i = p !! Z.to_nat i.
Proof. intros Hi. unfold index. destruct (i <? 0) eqn:E; [lia|done]. Qed.

(** A channel of a packed buffer is the byte at its place in row-major
    order. *)
Lemma channel_at_packed (pix : list Z) (r : Rectangle) (w h x y k : Z) :
  Min r = mkPoint 0 0 -> 0 <= x < w -> 0 <= y < h -> 4 * w * h < 2 ^ 63 ->
  0 <= k < 4 ->
  channel_at (mkNRGBA pix (GoInt.mul 4 w) r) x y k
  = pix !! Z.to_nat (4 * w * y + 4 * x + k).
Proof.
  intros Hr Hx Hy Hwh Hk. unfold channel_at.
  rewrite (PixOffset_packed pix r w h x y) by done. cbn [Pix].
  destruct (offset_bound w h x y) as [B0 B1]; [lia..|].
  unfold GoInt.add. rewrite wrap_id by (unfold GoInt.in_range; lia).
  apply index_lookup. lia.
Qed.

End pixel_content.

Section row_copy.
Import image pixbuf imgconv.

Lemma wrap_add_wrap_l (a b : Z) : GoInt.wrap (GoInt.wrap a + b) = GoInt.wrap (a + b).
Proof.
  unfold GoInt.wrap. f_equal.
  replace ((a + 2 ^ 63) mod 2 ^ 64 - 2 ^ 63 + b + 2 ^ 63)
    with ((a + 2 ^ 63) mod 2 ^ 64 + b) by lia.
  rewrite Zplus_mod_idemp_l. f_equal. lia.
Qed.

Lemma wrap_past (z : Z) : 2 ^ 63 <= z < 2 ^ 64 -> GoInt.wrap z = z - 2 ^ 64.
Proof.
  intros Hz. unfold GoInt.wrap.
  replace (z + 2 ^ 63) with (z - 2 ^ 63 + 1 * 2 ^ 64) by lia.
  rewrite Z_mod_plus_full, Z.mod_small by lia. lia.
Qed.

(** Adding the offset of a column to the offset of a row. *)
Lemma offset_arith (T mx x : Z) :
  GoInt.wrap T = T ->
  (0 <= x -> 0 <= T -> T + 4 * x < 2 ^ 63 ->
   GoInt.add T (GoInt.mul (GoInt.sub (GoInt.add mx x) mx) 4) = T + 4 * x)
  /\ GoInt.add T (GoInt.mul (GoInt.sub mx mx) 4) = T.
Proof.
  intros HT. split.
  - intros Hx H0 Hfit.
    assert (Hdx : GoInt.sub (GoInt.add mx x) mx = x).
    { unfold GoInt.sub, GoInt.add.
      replace (GoInt.wrap (mx + x) - mx) with (GoInt.wrap (mx + x) + - mx) by lia.
      rewrite wrap_add_wrap_l. replace (mx + x + - mx) with x by lia.
      apply wrap_id. unfold GoInt.in_range. lia. }
    rewrite Hdx. unfold GoInt.add, GoInt.mul.
    rewrite (wrap_id (x * 4)) by (unfold GoInt.in_range; lia).
    rewrite wrap_id by (unfold GoInt.in_range; lia). lia.
  - rewrite sub_diag. unfold GoInt.add, GoInt.mul. rewrite Z.mul_0_l.
    rewrite (wrap_id 0) by (unfold GoInt.in_range; lia).
    by rewrite Z.add_0_r.
Qed.

Lemma slice_inv (p s : list Z) (lo hi : Z) :
  slice p lo hi = Some s ->
  0 <= lo <= hi /\ hi <= Z.of_nat (length p)
  /\ s = take (Z.to_nat (hi - lo)) (drop (Z.to_nat lo) p).
Proof.
  unfold slice. destruct (_ && _) eqn:Hc; [|done]. intros [= <-].
  apply andb_prop in Hc as [[H0 H1]%andb_prop H2]. split_and!; try lia. done.
Qed.

(** [copy] on a destination range that exists: the source range exists
    too, the bytes of the range are those of the source, the others stay. *)
Lemma copy_inv (pix src pix' : list Z) (di si n : Z) :
  copy pix di src si n = Some pix' ->
  0 <= n -> 0 <= di -> di + n < 2 ^ 63 -> GoInt.in_range si ->
  0 <= si /\ si + n <= Z.of_nat (length src) /\ si + n < 2 ^ 63
  /\ di + n <= Z.of_nat (length pix)
  /\ length pix' = length pix
  /\ (forall j, 0 <= j < n ->
        pix' !! Z.to_nat (di + j) = src !! Z.to_nat (si + j))
  /\ (forall i, (i < Z.to_nat di)%nat \/ (Z.to_nat (di + n) <= i)%nat ->
        pix' !! i = pix !! i).
Proof.
  intros Hcopy Hn Hdi Hfit Hsi. revert Hcopy. unfold copy.
  destruct (slice pix di _) as [d|] eqn:Hd; [simpl|done].
  destruct (slice src si _) as [s|] eqn:Hs; [simpl|done].
  intros [= <-].
  apply slice_inv in Hd as (Hd0 & Hd1 & ->), Hs as (Hs0 & Hs1 & ->).
  unfold GoInt.add in *. rewrite wrap_id in * by (unfold GoInt.in_range; lia).
  assert (Hhi : GoInt.wrap (si + n) = si + n).
  { destruct (Z.lt_ge_cases (si + n) (2 ^ 63)) as [Hlt|Hge].
    - apply wrap_id. unfold GoInt.in_range. lia.
    - unfold GoInt.in_range in Hsi. rewrite wrap_past in Hs0 by lia. lia. }
  rewrite Hhi in *.
  pose proof (wrap_in_range (si + n)) as Hr. rewrite Hhi in Hr.
  unfold GoInt.in_range in Hr.
  replace (di + n - di) with n by lia. replace (si + n - si) with n by lia.
  rewrite !length_take, !length_drop.
  replace (Nat.min (Nat.min (Z.to_nat n) (length pix - Z.to_nat di))
                   (Nat.min (Z.to_nat n) (length src - Z.to_nat si)))
    with (Z.to_nat n) by lia.
  split_and!; try lia.
  - rewrite !length_app, !length_take, !length_drop. lia.
  - intros j Hj. rewrite lookup_app_r by (rewrite length_take; lia).
    rewrite length_take.
    replace (Z.to_nat (di + j) - Z.to_nat di `min` length pix)%nat
      with (Z.to_nat j) by lia.
    rewrite lookup_app_l by (rewrite !length_take, length_drop; lia).
    rewrite !lookup_take_lt by lia. rewrite lookup_drop. f_equal. lia.
  - intros i [Hi|Hi].
    + rewrite lookup_app_l by (rewrite length_take; lia).
      by rewrite lookup_take_lt by lia.
    + rewrite lookup_app_r by (rewrite length_take; lia).
      rewrite lookup_app_r by (rewrite !length_take, length_drop; lia).
      rewrite !length_take, length_drop, lookup_drop. f_equal. lia.
Qed.

End row_copy.

Section row_loops.
Import image pixbuf imgconv.
Context (r : Rectangle) (w h : Z).
Hypothesis Hr : Min r = mkPoint 0 0.
Hypothesis Hw : 0 <= w.
Hypothesis Hh : 0 <= h < 2 ^ 63.
Hypothesis Hwh : 4 * w * h < 2 ^ 63.
Context (src : NRGBA) (b : Rectangle).

Let si (y : Z) : Z := PixOffset src (X (Min b)) (GoInt.add (Y (Min b)) y).

Let row (pix : list Z) (y : Z) : Prop :=
  0 <= si y /\ si y + 4 * w <= Z.of_nat (length (Pix src))
  /\ si y + 4 * w < 2 ^ 63
  /\ forall j, 0 <= j < 4 * w ->
       pix !! Z.to_nat (4 * w * y + j) = Pix src !! Z.to_nat (si y + j).

Lemma si_in_range (y : Z) : GoInt.in_range (si y).
Proof. apply wrap_in_range. Qed.

Lemma row_loops (pix0 pix' : list Z) :
  Z.of_nat (length pix0) = 4 * w * h ->
  for_range (Z.to_nat h) 0 (fun dstY pix =>
    let di := PixOffset (mkNRGBA pix0 (GoInt.mul 4 w) r) 0 dstY in
    let si := PixOffset src (X (Min b)) (GoInt.add (Y (Min b)) dstY) in
    for_range (Z.to_nat w) 0 (fun _ pix =>
      copy pix di (Pix src) si (GoInt.mul w 4)) pix) pix0 = Some pix' ->
  Z.of_nat (length pix') = 4 * w * h
  /\ forall y, 0 <= y < h -> 0 < w -> row pix' y.
Proof.
  intros Hlen Hrun.
  match type of Hrun with for_range _ _ ?f _ = _ => set (outer := f) in Hrun end.
  destruct (for_range_inv
    (fun y pix => Z.of_nat (length pix) = 4 * w * h
                  /\ forall y', 0 <= y' < y -> 0 < w -> row pix y')
    outer (Z.to_nat h) 0 pix0 pix') as [Hl Hall]; [| |done|].
  - split; [done|]. intros; lia.
  - intros y pix pix1 Hy [Hl0 Hrows]. subst outer. cbv beta zeta.
    rewrite (PixOffset_fresh _ r w h y) by (try done; lia).
    fold (si y). intros Hin.
    assert (Hrow : GoInt.mul w 4 = 4 * w).
    { unfold GoInt.mul. rewrite wrap_id by (unfold GoInt.in_range; nia). lia. }
    rewrite Hrow in Hin.
    destruct (for_range_inv
      (fun x (p : list Z) =>
         Z.of_nat (length p) = 4 * w * h
         /\ (forall y', 0 <= y' < y -> 0 < w -> row p y')
         /\ (0 < x -> row p y))
      (fun _ p => copy p (4 * w * y) (Pix src) (si y) (4 * w))
      (Z.to_nat w) 0 pix pix1) as (Hl1 & Hprev & Hcur); [| |done|].
    + split_and!; [done..|lia].
    + intros x p p1 Hx (Hlp & Hprevp & _) Hcopy.
      apply copy_inv in Hcopy
        as (S0 & S1 & S2 & D1 & L1 & Hnew & Hold);
        [|nia|nia|nia|apply si_in_range].
      split_and!.
      * lia.
      * intros y' Hy' Hw'. destruct (Hprevp y' Hy' Hw') as (A0 & A1 & A2 & A3).
        split_and!; try done. intros j Hj. rewrite Hold; [by apply A3|].
        left. nia.
      * intros _. split_and!; done.
    + split; [done|]. intros y' Hy' Hw'.
      destruct (Z.eq_dec y' y) as [->|Hne]; [apply Hcur; lia|apply Hprev; lia].
  - split; [done|]. intros y Hy. apply Hall. lia.
Qed.

(** The offset of the source pixel a destination pixel comes from. *)
Lemma PixOffset_moved (x y : Z) :
  NRGBA_Rect src = b ->
  0 <= x < w -> 0 <= si y -> si y + 4 * w < 2 ^ 63 ->
  PixOffset src (GoInt.add (X (Min b)) x) (GoInt.add (Y (Min b)) y) = si y + 4 * x.
Proof.
  intros Hb Hx. unfold si, PixOffset. rewrite Hb.
  set (T := GoInt.mul (GoInt.sub (GoInt.add (Y (Min b)) y) (Y (Min b)))
                      (Stride src)).
  assert (HT : GoInt.wrap T = T) by apply wrap_wrap. clearbody T.
  rewrite (proj2 (offset_arith T (X (Min b)) x HT)).
  intros H0 Hfit. apply offset_arith; [done|lia..].
Qed.

End row_loops.

Section fills.
Import image pixbuf imgconv.
Context (b : Rectangle).
Hypothesis Hw : 0 <= Dx b.
Hypothesis Hh : 0 <= Dy b < 2 ^ 63.
Hypothesis Hwh : 4 * Dx b * Dy b < 2 ^ 63.

Let dst : NRGBA :=
  mkNRGBA (replicate (Z.to_nat (4 * Dx b * Dy b)) 0)
          (GoInt.mul 4 (Dx b)) (Sub b (Min b)).

Lemma zeroed_length : Z.of_nat (length (Pix dst)) = 4 * Dx b * Dy b.
Proof.
  simpl. rewrite length_replicate, Z2Nat.id; [done|].
  apply Z.mul_nonneg_nonneg; lia.
Qed.

Lemma fill_from_Generic_spec (g : Generic) (pix : list Z) :
  fill_from_Generic g dst b (Dx b) (Dy b) = Some pix ->
  Z.of_nat (length pix) = 4 * Dx b * Dy b
  /\ forall x y, 0 <= x < Dx b -> 0 <= y < Dy b ->
       let c := Generic_At g (GoInt.add (X (Min b)) x) (GoInt.add (Y (Min b)) y) in
       let i := 4 * Dx b * y + 4 * x in
       pix !! Z.to_nat i = Some (color.R c)
       /\ pix !! Z.to_nat (i + 1) = Some (color.G c)
       /\ pix !! Z.to_nat (i + 2) = Some (color.B c)
       /\ pix !! Z.to_nat (i + 3) = Some (color.A c).
Proof.
  unfold fill_from_Generic. intros Hfill.
  destruct (per_pixel_loops (Sub b (Min b)) (Dx b) (Dy b)
              (Min_Sub_Min b) Hw Hh Hwh
              (fun dstY dstX '(di, pix) =>
                 let c := Generic_At g (GoInt.add (X (Min b)) dstX)
                                       (GoInt.add (Y (Min b)) dstY) in
                 store_pixel di pix (color.R c) (color.G c) (color.B c) (color.A c))
              (fun x y a b0 c0 d0 =>
                 let c := Generic_At g (GoInt.add (X (Min b)) x)
                                       (GoInt.add (Y (Min b)) y) in
                 a = color.R c /\ b0 = color.G c /\ c0 = color.B c /\ d0 = color.A c)
              ltac:(intros; eexists _, _, _, _; split; [by split_and!|done])
              _ pix zeroed_length Hfill)
    as [Hlen Hall].
  split; [done|]. intros x y Hx Hy.
  by destruct (Hall x y Hx Hy) as (? & ? & ? & ? & (-> & -> & -> & ->) & ?).
Qed.

Lemma fill_from_YCbCr_spec (src : YCbCr) (pix : list Z) :
  fill_from_YCbCr src dst b (Dx b) (Dy b) = Some pix ->
  Z.of_nat (length pix) = 4 * Dx b * Dy b
  /\ forall x y, 0 <= x < Dx b -> 0 <= y < Dy b ->
       let srcX := GoInt.add (X (Min b)) x in
       let srcY := GoInt.add (Y (Min b)) y in
       let i := 4 * Dx b * y + 4 * x in
       exists vy vcb vcr,
         index (YPlane src) (YOffset src srcX srcY) = Some vy
         /\ index (CbPlane src) (COffset src srcX srcY) = Some vcb
         /\ index (CrPlane src) (COffset src srcX srcY) = Some vcr
         /\ pix !! Z.to_nat i = Some (color.YCbCrToRGB vy vcb vcr).1.1
         /\ pix !! Z.to_nat (i + 1) = Some (color.YCbCrToRGB vy vcb vcr).1.2
         /\ pix !! Z.to_nat (i + 2) = Some (color.YCbCrToRGB vy vcb vcr).2
         /\ pix !! Z.to_nat (i + 3) = Some 255.
Proof.
  unfold fill_from_YCbCr. intros Hfill.
  destruct (fun Hspec => per_pixel_loops (Sub b (Min b)) (Dx b) (Dy b)
              (Min_Sub_Min b) Hw Hh Hwh
              (fun dstY dstX '(di, pix) =>
                 let srcX := GoInt.add (X (Min b)) dstX in
                 let srcY := GoInt.add (Y (Min b)) dstY in
                 let siy := YOffset src srcX srcY in
                 let sic := COffset src srcX srcY in
                 y ← index (YPlane src) siy;
                 cb ← index (CbPlane src) sic;
                 cr ← index (CrPlane src) sic;
                 let '(r, g, b) := color.YCbCrToRGB y cb cr in
                 store_pixel di pix r g b 255)
              (fun x y a b0 c0 d0 =>
                 let srcX := GoInt.add (X (Min b)) x in
                 let srcY := GoInt.add (Y (Min b)) y in
                 exists vy vcb vcr,
                   index (YPlane src) (YOffset src srcX srcY) = Some vy
                   /\ index (CbPlane src) (COffset src srcX srcY) = Some vcb
                   /\ index (CrPlane src) (COffset src srcX srcY) = Some vcr
                   /\ (a, b0, c0) = color.YCbCrToRGB vy vcb vcr /\ d0 = 255)
              Hspec _ pix zeroed_length Hfill)
    as [Hlen Hall].
  - intros y0 x0 di pix0 s1. cbv zeta.
    destruct (index (YPlane src) _) as [vy|]; [|done].
    destruct (index (CbPlane src) _) as [vcb|]; [|done].
    destruct (index (CrPlane src) _) as [vcr|]; [|done].
    cbn [mbind option_bind].
    destruct (color.YCbCrToRGB vy vcb vcr) as [[cr cg] cb] eqn:Hc.
    intros Hst. exists cr, cg, cb, 255. split; [|done].
    exists vy, vcb, vcr. by rewrite Hc.
  - split; [done|]. intros x y Hx Hy.
    destruct (Hall x y Hx Hy)
      as (a & b0 & c0 & d0 & (vy & vcb & vcr & Ey & Ecb & Ecr & Ec & ->)
          & L0 & L1 & L2 & L3).
    exists vy, vcb, vcr. cbv zeta. rewrite <- Ec. simpl. by split_and!.
Qed.

Lemma fill_from_NRGBA_spec (src : NRGBA) (pix : list Z) :
  fill_from_NRGBA src dst b (Dx b) (Dy b) = Some pix ->
  Z.of_nat (length pix) = 4 * Dx b * Dy b
  /\ forall y, 0 <= y < Dy b -> 0 < Dx b ->
       let si := PixOffset src (X (Min b)) (GoInt.add (Y (Min b)) y) in
       0 <= si /\ si + 4 * Dx b <= Z.of_nat (length (Pix src))
       /\ si + 4 * Dx b < 2 ^ 63
       /\ forall j, 0 <= j < 4 * Dx b ->
            pix !! Z.to_nat (4 * Dx b * y + j) = Pix src !! Z.to_nat (si + j).
Proof.
  unfold fill_from_NRGBA. intros Hfill.
  exact (row_loops (Sub b (Min b)) (Dx b) (Dy b) (Min_Sub_Min b) Hw Hh Hwh
           src b _ pix zeroed_length Hfill).
Qed.

End fills.

Lemma Point_eq_dec (p q : image.Point) : {p = q} + {p <> q}.
Proof. decide equality; apply Z.eq_dec. Qed.

(** The buffer a call allocates, for every type of source: laid out for
    its rectangle, with the size of the source bounds. *)
Lemma ImgToNRGBA_allocates_packed (h h' : imgconv.heap) (img : imgconv.Image)
    (l : imgconv.loc) (b : image.Rectangle) :
  imgconv.ImgToNRGBA h img = Some (h', l) ->
  imgconv.Bounds h img = Some b ->
  (forall p, img = imgconv.ImNRGBA p -> image.Min b <> image.mkPoint 0 0) ->
  exists pix,
    h' = <[l := pixbuf.mkNRGBA pix (GoInt.mul 4 (image.Dx b))
                (image.Sub b (image.Min b))]> h
    /\ h !! l = None
    /\ Z.of_nat (length pix) = 4 * image.Dx b * image.Dy b
    /\ 0 <= image.Dx b /\ 0 <= image.Dy b < 2 ^ 63
    /\ 4 * image.Dx b * image.Dy b < 2 ^ 63.
Proof.
  intros Hrun Hb Hfresh.
  destruct (ImgToNRGBA_allocates h h' img l b Hrun Hb Hfresh)
    as (Hw & Hh & Hwh & pix & Hfill & Hl & ->).
  assert (Hlen : Z.of_nat (length pix) = 4 * image.Dx b * image.Dy b).
  { destruct img as [p|y|g].
    - destruct (h !! p) as [src|]; [|done]. cbn [mbind option_bind] in Hfill.
      by destruct (fill_from_NRGBA_spec b Hw Hh Hwh src pix Hfill).
    - by destruct (fill_from_YCbCr_spec b Hw Hh Hwh y pix Hfill).
    - by destruct (fill_from_Generic_spec b Hw Hh Hwh g pix Hfill). }
  exists pix. split_and!; try done; lia.
Qed.

Lemma OpenFile_content (fs fs1 : os.FileSys) (name : string) :
  os.OpenFile fs name = inl fs1 ->
  os.files fs1 !! name = Some (content_of fs name)
  /\ os.creatable fs1 = os.creatable fs
  /\ forall other, other <> name -> os.files fs1 !! other = os.files fs !! other.
Proof.
  unfold os.OpenFile, content_of.
  destruct (os.files fs !! name) as [old|] eqn:Hold.
  - intros [= <-]. by rewrite Hold.
  - destruct (os.creatable fs name); [|done]. intros [= <-]. simpl.
    rewrite lookup_insert_eq. split_and!; try done.
    intros other Hne. by rewrite lookup_insert_ne.
Qed.

Lemma Write_content (fs : os.FileSys) (name : string) (data old : list Z) :
  os.files fs !! name = Some old ->
  os.files (os.Write fs name data) !! name = Some (overwrite data old)
  /\ os.creatable (os.Write fs name data) = os.creatable fs
  /\ forall other, other <> name ->
       os.files (os.Write fs name data) !! other = os.files fs !! other.
Proof.
  intros Hold. unfold os.Write. rewrite Hold. simpl.
  rewrite lookup_insert_eq. split_and!; try done.
  intros other Hne. by rewrite lookup_insert_ne.
Qed.

Lemma encode_for_encoding `{Encoders} (ext : string) (picture : gg.Context) :
  encode_for ext picture
  = if bool_decide (ext ∈ encoded_extensions)
    then Some (encoding ext picture) else None.
Proof.
  unfold encode_for, encoding, encoded_extensions.
  destruct (String.eqb ext ".jpg") eqn:E1.
  { apply String.eqb_eq in E1 as ->. done. }
  destruct (String.eqb ext ".jpeg") eqn:E2.
  { apply String.eqb_eq in E2 as ->. done. }
  destruct (String.eqb ext ".png") eqn:E3.
  { apply String.eqb_eq in E3 as ->. done. }
  apply String.eqb_neq in E1, E2, E3. simpl.
  rewrite bool_decide_eq_false_2; [done|].
  rewrite !elem_of_cons, elem_of_nil. intros [->|[->|[->|[]]]]; congruence.
Qed.

(** What a call does once [dc] is set, in one equation. *)
Lemma DrawFaces_eq `{Encoders} (fd : faceDetector) (w : World)
    (faces : list Detection) (isCircle : bool) (ctx : gg.Context) :
  dc w = Some ctx ->
  let picture := marked isCircle faces ctx in
  let dest := destination fd in
  DrawFaces fd w faces isCircle
  = match os.OpenFile (fsys w) dest with
    | inr err => Return (mkWorld (Some picture) (fsys w) (hp w)) ([], [], Some err)
    | inl fs1 =>
        let rects := map face_rect (List.filter above_qThresh faces) in
        if bool_decide (Ext dest ∈ encoded_extensions)
        then Return (mkWorld (Some picture)
                       (os.Write fs1 dest (encoding (Ext dest) picture)) (hp w))
                    (overwrite (encoding (Ext dest) picture)
                               (content_of (fsys w) dest), rects, None)
        else Return (mkWorld (Some picture) fs1 (hp w))
                    (content_of (fsys w) dest, rects, None)
    end.
Proof.
  intros Hdc picture dest. unfold DrawFaces. rewrite Hdc, mark_faces_spec.
  fold picture dest.
  destruct (os.OpenFile (fsys w) dest) as [fs1|e] eqn:Hopen; [|done].
  destruct (OpenFile_content _ _ _ Hopen) as (Hc & _ & _).
  rewrite encode_for_encoding. cbv zeta.
  destruct (bool_decide (Ext dest ∈ encoded_extensions)).
  - destruct (Write_content fs1 dest (encoding (Ext dest) picture) _ Hc)
      as (Hw & _ & _).
    unfold os.ReadFile. by rewrite Hw.
  - unfold os.ReadFile. by rewrite Hc.
Qed.

Lemma DrawFaces_needs_dc `{Encoders} (fd : faceDetector) (w w' : World)
    (faces : list Detection) (isCircle : bool)
    (r : list Z * list image.Rectangle * option error) :
  DrawFaces fd w faces isCircle = Return w' r ->
  exists ctx, dc w = Some ctx /\ dc w' = Some (marked isCircle faces ctx).
Proof.
  destruct (dc w) as [ctx|] eqn:Hdc; [|unfold DrawFaces; by rewrite Hdc].
  rewrite (DrawFaces_eq fd w faces isCircle ctx Hdc). cbv zeta.
  intros Hrun. exists ctx. split; [done|].
  destruct (os.OpenFile _ _); [destruct (bool_decide _)|];
    by injection Hrun as <- _.
Qed.

(** The constant 1.05 is the binary64 number nearest to it; neither it nor
    a NaN is below it. *)
Lemma min_scale_value : cmd.min_scale = S754_finite false 4728779608739021 (-52).
Proof. vm_compute. reflexivity. Qed.

Lemma min_scale_edges :
  float64.ltb cmd.min_scale cmd.min_scale = false
  /\ float64.ltb S754_nan cmd.min_scale = false.
Proof. by vm_compute. Qed.

Lemma length_zero_empty (s : string) :
  (String.length s =? 0)%nat = true <-> s = EmptyString.
Proof. destruct s; simpl; split; done. Qed.

(** The file types [main] accepts are the extensions [DrawFaces] encodes. *)
Lemma inSlice_fileTypes (ext : string) :
  cmd.inSlice ext cmd.fileTypes = bool_decide (ext ∈ encoded_extensions).
Proof.
  unfold cmd.fileTypes, encoded_extensions. cbn [cmd.inSlice].
  rewrite (String.eqb_sym ".jpg"), (String.eqb_sym ".jpeg"), (String.eqb_sym ".png").
  destruct (String.eqb ext ".jpg") eqn:E1.
  { apply String.eqb_eq in E1 as ->. done. }
  destruct (String.eqb ext ".jpeg") eqn:E2.
  { apply String.eqb_eq in E2 as ->. done. }
  destruct (String.eqb ext ".png") eqn:E3.
  { apply String.eqb_eq in E3 as ->. done. }
  apply String.eqb_neq in E1, E2, E3.
  rewrite bool_decide_eq_false_2; [done|].
  rewrite !elem_of_cons, elem_of_nil. intros [->|[->|[->|[]]]]; congruence.
Qed.

Lemma checks_extension (f : cmd.flags) :
  cmd.checks f = None -> Ext (cmd.destination f) ∈ encoded_extensions.
Proof.
  unfold cmd.checks. rewrite inSlice_fileTypes.
  destruct (_ || _ || _)%bool; [done|].
  destruct (bool_decide (Ext (cmd.destination f) ∈ encoded_extensions)) eqn:E;
    [|done].
  intros _. by apply bool_decide_eq_true in E.
Qed.

Lemma WriteFile_content (fs : os.FileSys) (name : string) (data : list Z) :
  (is_Some (os.files fs !! name) \/ os.creatable fs name = true ->
   os.files (cmd.WriteFile fs name data) !! name = Some data)
  /\ forall other, other <> name ->
       os.files (cmd.WriteFile fs name data) !! other = os.files fs !! other.
Proof.
  unfold cmd.WriteFile. split.
  - intros Hcan. destruct (os.files fs !! name) as [old|] eqn:Hold.
    + simpl. apply lookup_insert_eq.
    + destruct Hcan as [[? ?]| ->]; [done|]. simpl. apply lookup_insert_eq.
  - intros other Hne. destruct (os.files fs !! name) as [old|].
    + simpl. by rewrite lookup_insert_ne.
    + destruct (os.creatable fs name); [|done]. simpl. by rewrite lookup_insert_ne.
Qed.

Lemma next_mod (n : nat) : spinner.next (n mod 4) = (S n mod 4)%nat.
Proof.
  unfold spinner.next. simpl length.
  pose proof (Nat.mod_upper_bound n 4 ltac:(lia)) as Hlt.
  pose proof (Nat.div_mod_eq n 4) as Hn.
  destruct (S (n mod 4) <? 4)%nat eqn:E.
  - apply Nat.ltb_lt in E.
    apply (Nat.mod_unique (S n) 4 (n / 4)); lia.
  - apply Nat.ltb_ge in E.
    apply (Nat.mod_unique (S n) 4 (S (n / 4))); lia.
Qed.

Lemma frame_nth (i : nat) :
  (i < 4)%nat -> spinner.frames !! i = Some (spinner.rune i).
Proof. intros Hi. do 4 (destruct i as [|i]; [done|]). lia. Qed.

Lemma spinning_start : spinning (spinner.start spinner.new).
Proof.
  split; [done|]. split.
  - exists 0%nat. split; [by left|done].
  - simpl. intros j Hj. lia.
Qed.

Lemma spinning_turn (k : nat) (s : spinner.state) :
  spinning s -> spinning (default s (spinner.turn k s)).
Proof.
  intros Hs. pose proof Hs as (Hc & (i & [Hr|Hr] & Hi) & Hp);
    unfold spinner.turn; rewrite Hr; (destruct k as [|k]; [|done]).
  - rewrite Hc. cbn -[spinner.rune spinner.next Nat.modulo].
    split; [done|]. cbn -[spinner.rune spinner.next Nat.modulo].
    split; [|done]. exists i. split; [by right|done].
  - cbn -[spinner.rune spinner.next Nat.modulo].
    split; [done|]. cbn -[spinner.rune spinner.next Nat.modulo]. split.
    + exists (spinner.next i). split; [by left|].
      rewrite length_app. cbn [length]. rewrite Nat.add_1_r. subst i.
      apply next_mod.
    + intros j. rewrite length_app. cbn [length]. intros Hj.
      destruct (decide (j < length (spinner.printed s))%nat) as [Hlt|Hge].
      * rewrite lookup_app_l by done. by apply Hp.
      * assert (j = length (spinner.printed s)) as -> by lia.
        rewrite lookup_app_r by lia. rewrite Nat.sub_diag.
        cbn [lookup list_lookup].
        rewrite <- Hi. symmetry. apply frame_nth.
        subst i. apply Nat.mod_upper_bound. lia.
Qed.

Lemma spinning_run (schedule : list nat) (s : spinner.state) :
  spinning s -> spinning (spinner.run schedule s).
Proof.
  revert s. induction schedule as [|k schedule IH]; intros s Hs; [done|].
  simpl. apply IH. by apply spinning_turn.
Qed.

Lemma spinning_stop (s : spinner.state) :
  spinning s ->
  exists stopped m,
    spinner.stop s = Some stopped /\ (m <= 2)%nat
    /\ stopping (spinner.printed s) m stopped.
Proof.
  intros (Hc & (i & [Hr|Hr] & _) & _); unfold spinner.stop; rewrite Hc; simpl.
  - eexists. exists 1%nat. split; [reflexivity|]. split; [lia|]. simpl.
    split_and!; [done|by exists i|]. exists []. rewrite app_nil_r.
    split; [done|simpl; lia].
  - eexists. exists 2%nat. split; [reflexivity|]. split; [lia|]. simpl.
    split_and!; [done|by exists i|done].
Qed.

Lemma stopping_other (p : list ascii) (m k : nat) (s : spinner.state) :
  stopping p m s -> k <> 0%nat -> spinner.turn k s = None.
Proof.
  intros Hs Hk. unfold spinner.turn.
  destruct k as [|k]; [done|].
  destruct m as [|[|m]].
  - destruct Hs as (-> & _). done.
  - destruct Hs as (_ & (i & ->) & _). done.
  - destruct Hs as (_ & (i & ->) & _). done.
Qed.

Lemma stopping_first (p : list ascii) (m : nat) (s : spinner.state) :
  (m <= 2)%nat -> stopping p m s ->
  stopping p (pred m) (default s (spinner.turn 0 s)).
Proof.
  intros Hm Hs. unfold spinner.turn.
  destruct m as [|[|[|m]]]; [| | |lia].
  - destruct Hs as (Hr & Hl). rewrite Hr. simpl. by split.
  - destruct Hs as (Hc & (i & Hr) & Hl). rewrite Hr, Hc. simpl. by split.
  - destruct Hs as (Hc & (i & Hr) & Hl). rewrite Hr.
    cbn -[spinner.rune spinner.next]. split_and!; [done|by eexists|].
    cbn -[spinner.rune spinner.next].
    exists [spinner.rune i]. rewrite Hl. split; [done|simpl; lia].
Qed.

Lemma stopping_run (p : list ascii) (after : list nat) (m : nat)
    (s : spinner.state) :
  (m <= 2)%nat -> stopping p m s ->
  stopping p (m - turns_of_first after) (spinner.run after s).
Proof.
  revert m s. induction after as [|k after IH]; intros m s Hm Hs.
  - simpl. by rewrite Nat.sub_0_r.
  - simpl. unfold turns_of_first. destruct (decide (k = 0%nat)) as [->|Hk].
    + rewrite filter_cons_True by done. cbn [length].
      replace (m - S (length (filter (fun k => k = 0%nat) after)))%nat
        with (pred m - turns_of_first after)%nat by (unfold turns_of_first; lia).
      apply IH; [lia|]. by apply stopping_first.
    + rewrite filter_cons_False by done.
      rewrite (stopping_other p m k s Hs Hk). simpl. by apply IH.
Qed.

Lemma stopping_late (p : list ascii) (m : nat) (s : spinner.state) :
  stopping p m s ->
  exists late, spinner.printed s = p ++ late /\ (length late <= 1)%nat.
Proof.
  destruct m as [|[|m]]; simpl.
  - by intros (_ & H).
  - by intros (_ & _ & H).
  - intros (_ & _ & ->). exists []. rewrite app_nil_r. split; [done|simpl; lia].
Qed.

(** ** Sample runs *)

Lemma sample_generic_run :
  imgconv.ImgToNRGBA ∅ (imgconv.ImOther sample_generic)
  = Some (<[1%positive := sample_generic_converted]> ∅, 1%positive).
Proof. vm_compute. reflexivity. Qed.

Lemma sample_ycbcr_run :
  imgconv.ImgToNRGBA ∅ (imgconv.ImYCbCr sample_ycbcr)
  = Some (<[1%positive := sample_ycbcr_converted]> ∅, 1%positive).
Proof. vm_compute. reflexivity. Qed.

Lemma sample_second_run :
  @DetectFaces (@spec_core series_trig) sample_detector sample_world_after
               (imgconv.ImOther sample_negative)
  = Return sample_world_negative_after (inl []).
Proof. vm_compute. reflexivity. Qed.

Lemma sample_draw :
  @DrawFaces signature_encoders sample_detector sample_world_after sample_faces false
  = Return sample_world_drawn ([137; 80; 78; 71], [image.Rect 1 1 2 2], None).
Proof. vm_compute. reflexivity. Qed.

Lemma sample_draw_again :
  @DrawFaces signature_encoders sample_detector sample_world_drawn sample_faces true
  = Return sample_world_drawn_twice ([137; 80; 78; 71], [image.Rect 1 1 2 2], None).
Proof. vm_compute. reflexivity. Qed.

Lemma sample_open_stale :
  os.OpenFile (fsys sample_world_stale) (destination sample_detector)
  = inl (fsys sample_world_stale).
Proof. vm_compute. reflexivity. Qed.

Lemma sample_open_gif :
  os.OpenFile (fsys sample_world_after) (destination sample_detector_gif)
  = inl sample_files_gif.
Proof. vm_compute. reflexivity. Qed.

Lemma sample_extension_png : Ext (destination sample_detector) ∈ encoded_extensions.
Proof.
  change (Ext (destination sample_detector)) with ".png"%string.
  unfold encoded_extensions. rewrite !elem_of_cons. auto.
Qed.

Lemma sample_extension_gif :
  Ext (destination sample_detector_gif) ∉ encoded_extensions.
Proof.
  change (Ext (destination sample_detector_gif)) with ".gif"%string.
  unfold encoded_extensions. rewrite !elem_of_cons, elem_of_nil.
  intros [?|[?|[?|[]]]]; discriminate.
Qed.

Lemma sample_getimage :
  @GetImage sample_decoder sample_world_input "in.png"
  = (sample_world_decoded, inl (imgconv.ImNRGBA 1%positive)).
Proof. vm_compute. reflexivity. Qed.

Lemma sample_main :
  @cmd.main signature_encoders sample_json sample_detect sample_flags sample_world
  = Return sample_world_done cmd.Done.
Proof. vm_compute. reflexivity. Qed.

Lemma sample_generic_size :
  image.Dx (pixbuf.Generic_Bounds sample_generic) = 2
  /\ image.Dy (pixbuf.Generic_Bounds sample_generic) = 1.
Proof. by vm_compute. Qed.

Lemma sample_ycbcr_size :
  image.Dx (pixbuf.YCbCr_Rect sample_ycbcr) = 2
  /\ image.Dy (pixbuf.YCbCr_Rect sample_ycbcr) = 2.
Proof. by vm_compute. Qed.

Lemma sample_nrgba_stored :
  sample_heap !! 5%positive = Some sample_nrgba
  /\ imgconv.Bounds sample_heap (imgconv.ImNRGBA 5%positive)
     = Some (pixbuf.NRGBA_Rect sample_nrgba)
  /\ image.Dx (pixbuf.NRGBA_Rect sample_nrgba) = 2
  /\ image.Dy (pixbuf.NRGBA_Rect sample_nrgba) = 2.
Proof. by vm_compute. Qed.

Lemma sample_backwards_width :
  image.Dx (pixbuf.Generic_Bounds sample_backwards) = -3.
Proof. by vm_compute. Qed.

Lemma sample_locked_destination :
  os.files (fsys sample_world_locked) !! destination sample_detector = None.
Proof. by vm_compute. Qed.

Lemma sample_stale_content :
  content_of (fsys sample_world_stale) (destination sample_detector)
  = [1; 2; 3; 4; 5; 6].
Proof. by vm_compute. Qed.

Lemma borderline_not_above :
  Forall (fun face => above_qThresh face = false) borderline_faces.
Proof. repeat constructor. Qed.

Lemma sample_input_file :
  os.files (fsys sample_world_input) !! "in.png"%string = Some [137; 80].
Proof. by vm_compute. Qed.

Lemma sample_main_locked :
  @cmd.main signature_encoders sample_json sample_detect sample_flags
            sample_world_locked
  = Return (mkWorld (Some sample_picture) (fsys sample_world_locked)
                    (hp sample_world_locked))
           (cmd.Fatal (cmd.OutputError (PathError "open" "out.png"))).
Proof. vm_compute. reflexivity. Qed.

Lemma sample_spin :
  length (spinner.printed
            (spinner.run (replicate 10 0%nat) (spinner.start spinner.new)))
  = 5%nat.
Proof. reflexivity. Qed.

(** ** Properties *)

(** X1.  The pixels of a converted [*image.NRGBA].  At every point of its
    rectangle the result holds the four channel bytes the source holds at
    the point moved by the min-point of the source; when the source is not
    at the origin the bytes are there, in a buffer other than the source's. *)
Theorem ImgToNRGBA_pixels_of_NRGBA (h h' : imgconv.heap) (p l : imgconv.loc)
    (src : pixbuf.NRGBA) (x y k : Z) :
  imgconv.ImgToNRGBA h (imgconv.ImNRGBA p) = Some (h', l) ->
  h !! p = Some src ->
  0 <= x < image.Dx (pixbuf.NRGBA_Rect src) ->
  0 <= y < image.Dy (pixbuf.NRGBA_Rect src) ->
  0 <= k < 4 ->
  exists d,
    h' !! l = Some d
    /\ channel_at d x y k
       = channel_at src
           (GoInt.add (image.X (image.Min (pixbuf.NRGBA_Rect src))) x)
           (GoInt.add (image.Y (image.Min (pixbuf.NRGBA_Rect src))) y) k
    /\ (image.Min (pixbuf.NRGBA_Rect src) <> image.mkPoint 0 0 ->
        l <> p /\ is_Some (channel_at d x y k)).
Proof.
  intros Hrun Hsrc Hx Hy Hk. set (b := pixbuf.NRGBA_Rect src) in *.
  assert (Hb : imgconv.Bounds h (imgconv.ImNRGBA p) = Some b).
  { simpl. by rewrite Hsrc. }
  destruct (Point_eq_dec (image.Min b) (image.mkPoint 0 0)) as [Hmin|Hmin].
  - rewrite (ImgToNRGBA_normalised h p src Hsrc Hmin) in Hrun.
    injection Hrun as <- <-. exists src. split; [done|]. split; [|done].
    rewrite Hmin. simpl.
    pose proof (wrap_in_range (image.X (image.Max b) - image.X (image.Min b))) as Bx.
    pose proof (wrap_in_range (image.Y (image.Max b) - image.Y (image.Min b))) as By.
    unfold GoInt.in_range, image.Dx, image.Dy, GoInt.sub in *.
    assert (Ex : GoInt.add 0 x = x) by (apply wrap_id; unfold GoInt.in_range; lia).
    assert (Ey : GoInt.add 0 y = y) by (apply wrap_id; unfold GoInt.in_range; lia).
    by rewrite Ex, Ey.
  - destruct (ImgToNRGBA_allocates h h' _ l b Hrun Hb)
      as (Hw & Hh & Hwh & pix & Hfill & Hfresh & ->).
    { by intros p0 _. }
    rewrite Hsrc in Hfill. cbn [mbind option_bind] in Hfill.
    destruct (fill_from_NRGBA_spec b Hw Hh Hwh src pix Hfill) as [_ Hrows].
    destruct (Hrows y Hy) as (S0 & S1 & S2 & Hbytes); [lia|].
    pose proof (Min_Sub_Min b) as Hmin0.
    eexists. rewrite lookup_insert_eq. split; [reflexivity|].
    rewrite (channel_at_packed _ _ _ (image.Dy b)) by (try done; lia).
    unfold channel_at at 1.
    rewrite (PixOffset_moved (image.Dx b) src b x y eq_refl) by (try done; lia).
    unfold GoInt.add at 1. rewrite wrap_id by (unfold GoInt.in_range; lia).
    rewrite index_lookup by lia.
    replace (4 * image.Dx b * y + 4 * x + k)
      with (4 * image.Dx b * y + (4 * x + k)) by lia.
    rewrite Hbytes by lia.
    replace (pixbuf.PixOffset src (image.X (image.Min b))
               (GoInt.add (image.Y (image.Min b)) y) + (4 * x + k))
      with (pixbuf.PixOffset src (image.X (image.Min b))
               (GoInt.add (image.Y (image.Min b)) y) + 4 * x + k) by lia.
    split; [done|]. intros _. split.
    + intros ->. congruence.
    + apply lookup_lt_is_Some. lia.
Qed.

Lemma ImgToNRGBA_pixels_of_NRGBA_witness :
  exists d,
    <[6%positive := sample_converted]> sample_heap !! 6%positive = Some d
    /\ channel_at d 1 1 2 = channel_at sample_nrgba (GoInt.add 1 1) (GoInt.add 1 1) 2
    /\ (image.Min (pixbuf.NRGBA_Rect sample_nrgba) <> image.mkPoint 0 0 ->
        6%positive <> 5%positive /\ is_Some (channel_at d 1 1 2)).
Proof.
  apply (ImgToNRGBA_pixels_of_NRGBA sample_heap _ 5%positive 6%positive
           sample_nrgba 1 1 2 ImgToNRGBA_sample (proj1 sample_nrgba_stored)).
  - rewrite (proj1 (proj2 (proj2 sample_nrgba_stored))). lia.
  - rewrite (proj2 (proj2 (proj2 sample_nrgba_stored))). lia.
  - lia.
Defined.

(** X2.  The pixels of a converted [*image.YCbCr].  At every point of its
    rectangle the result holds what [color.YCbCrToRGB] makes of the three
    samples the source has for the point moved by the min-point, and the
    alpha value 255. *)
Theorem ImgToNRGBA_pixels_of_YCbCr (h h' : imgconv.heap) (src : pixbuf.YCbCr)
    (l : imgconv.loc) (x y : Z) :
  imgconv.ImgToNRGBA h (imgconv.ImYCbCr src) = Some (h', l) ->
  0 <= x < image.Dx (pixbuf.YCbCr_Rect src) ->
  0 <= y < image.Dy (pixbuf.YCbCr_Rect src) ->
  exists d vy vcb vcr,
    let srcX := GoInt.add (image.X (image.Min (pixbuf.YCbCr_Rect src))) x in
    let srcY := GoInt.add (image.Y (image.Min (pixbuf.YCbCr_Rect src))) y in
    h' !! l = Some d
    /\ pixbuf.index (pixbuf.YPlane src) (pixbuf.YOffset src srcX srcY) = Some vy
    /\ pixbuf.index (pixbuf.CbPlane src) (pixbuf.COffset src srcX srcY) = Some vcb
    /\ pixbuf.index (pixbuf.CrPlane src) (pixbuf.COffset src srcX srcY) = Some vcr
    /\ channel_at d x y 0 = Some (color.YCbCrToRGB vy vcb vcr).1.1
    /\ channel_at d x y 1 = Some (color.YCbCrToRGB vy vcb vcr).1.2
    /\ channel_at d x y 2 = Some (color.YCbCrToRGB vy vcb vcr).2
    /\ channel_at d x y 3 = Some 255.
Proof.
  intros Hrun Hx Hy. set (b := pixbuf.YCbCr_Rect src) in *.
  destruct (ImgToNRGBA_allocates h h' _ l b Hrun eq_refl)
    as (Hw & Hh & Hwh & pix & Hfill & _ & ->); [done|].
  destruct (fill_from_YCbCr_spec b Hw Hh Hwh src pix Hfill) as [_ Hall].
  destruct (Hall x y Hx Hy) as (vy & vcb & vcr & Ey & Ecb & Ecr & L0 & L1 & L2 & L3).
  eexists _, vy, vcb, vcr. cbv zeta. rewrite lookup_insert_eq.
  split; [reflexivity|]. split_and!; try done.
  all: pose proof (Min_Sub_Min b) as Hmin.
  all: rewrite !(channel_at_packed _ _ _ (image.Dy b)) by (try done; lia).
  all: rewrite ?Z.add_0_r; done.
Qed.

Lemma ImgToNRGBA_pixels_of_YCbCr_witness :
  exists d vy vcb vcr,
    (<[1%positive := sample_ycbcr_converted]> ∅ : imgconv.heap) !! 1%positive
    = Some d
    /\ pixbuf.index (pixbuf.YPlane sample_ycbcr) 3 = Some vy
    /\ pixbuf.index (pixbuf.CbPlane sample_ycbcr) 0 = Some vcb
    /\ pixbuf.index (pixbuf.CrPlane sample_ycbcr) 0 = Some vcr
    /\ channel_at d 1 1 0 = Some (color.YCbCrToRGB vy vcb vcr).1.1
    /\ channel_at d 1 1 1 = Some (color.YCbCrToRGB vy vcb vcr).1.2
    /\ channel_at d 1 1 2 = Some (color.YCbCrToRGB vy vcb vcr).2
    /\ channel_at d 1 1 3 = Some 255.
Proof.
  apply (ImgToNRGBA_pixels_of_YCbCr ∅ _ sample_ycbcr 1%positive 1 1
           sample_ycbcr_run).
  - rewrite (proj1 sample_ycbcr_size). lia.
  - rewrite (proj2 sample_ycbcr_size). lia.
Defined.

(** X3.  The pixels of a converted image of any other type.  At every point
    of its rectangle the result holds the colour the source gives at the
    point moved by the min-point of its bounds. *)
Theorem ImgToNRGBA_pixels_of_other (h h' : imgconv.heap) (g : pixbuf.Generic)
    (l : imgconv.loc) (x y : Z) :
  imgconv.ImgToNRGBA h (imgconv.ImOther g) = Some (h', l) ->
  0 <= x < image.Dx (pixbuf.Generic_Bounds g) ->
  0 <= y < image.Dy (pixbuf.Generic_Bounds g) ->
  exists d,
    h' !! l = Some d
    /\ let c := pixbuf.Generic_At g
                 (GoInt.add (image.X (image.Min (pixbuf.Generic_Bounds g))) x)
                 (GoInt.add (image.Y (image.Min (pixbuf.Generic_Bounds g))) y) in
       channel_at d x y 0 = Some (color.R c)
       /\ channel_at d x y 1 = Some (color.G c)
       /\ channel_at d x y 2 = Some (color.B c)
       /\ channel_at d x y 3 = Some (color.A c).
Proof.
  intros Hrun Hx Hy. set (b := pixbuf.Generic_Bounds g) in *.
  destruct (ImgToNRGBA_allocates h h' _ l b Hrun eq_refl)
    as (Hw & Hh & Hwh & pix & Hfill & _ & ->); [done|].
  eexists. rewrite lookup_insert_eq. split; [reflexivity|].
  destruct (fill_from_Generic_spec b Hw Hh Hwh g pix Hfill) as [_ Hall].
  destruct (Hall x y Hx Hy) as (L0 & L1 & L2 & L3). cbv zeta.
  pose proof (Min_Sub_Min b) as Hmin.
  rewrite !(channel_at_packed _ _ _ (image.Dy b)) by (try done; lia).
  rewrite Z.add_0_r. done.
Qed.

Lemma ImgToNRGBA_pixels_of_other_witness :
  exists d,
    (<[1%positive := sample_generic_converted]> ∅ : imgconv.heap) !! 1%positive
    = Some d
    /\ channel_at d 1 0 0 = Some 40 /\ channel_at d 1 0 1 = Some 50
    /\ channel_at d 1 0 2 = Some 7 /\ channel_at d 1 0 3 = Some 255.
Proof.
  apply (ImgToNRGBA_pixels_of_other ∅ _ sample_generic 1%positive 1 0
           sample_generic_run).
  - rewrite (proj1 sample_generic_size). lia.
  - rewrite (proj2 sample_generic_size). lia.
Defined.

(** X4.  The layout of a new buffer.  Unless the argument is handed back,
    the result is laid out for its rectangle and nothing more: the rectangle
    runs from (0, 0) to the width and height of the source bounds, the
    buffer holds four bytes for each of its pixels, and a row - when there
    is one - takes four bytes per pixel with no padding. *)
Theorem ImgToNRGBA_result_packed (h h' : imgconv.heap) (img : imgconv.Image)
    (l : imgconv.loc) (b : image.Rectangle) :
  imgconv.ImgToNRGBA h img = Some (h', l) ->
  imgconv.Bounds h img = Some b ->
  (forall p, img = imgconv.ImNRGBA p -> image.Min b <> image.mkPoint 0 0) ->
  exists d,
    h' !! l = Some d
    /\ pixbuf.NRGBA_Rect d
       = image.mkRectangle (image.mkPoint 0 0)
                           (image.mkPoint (image.Dx b) (image.Dy b))
    /\ Z.of_nat (length (pixbuf.Pix d)) = 4 * image.Dx b * image.Dy b
    /\ (0 < image.Dy b -> pixbuf.Stride d = 4 * image.Dx b).
Proof.
  intros Hrun Hb Hfresh.
  destruct (ImgToNRGBA_allocates_packed h h' img l b Hrun Hb Hfresh)
    as (pix & -> & _ & Hlen & Hw & Hh & Hwh).
  eexists. rewrite lookup_insert_eq. split; [reflexivity|]. simpl.
  split_and!; [|done|].
  - unfold image.Sub. simpl. by rewrite !sub_diag.
  - intros Hrows. apply wrap_id. unfold GoInt.in_range. nia.
Qed.

Lemma ImgToNRGBA_result_packed_witness :
  exists d,
    <[6%positive := sample_converted]> sample_heap !! 6%positive = Some d
    /\ pixbuf.NRGBA_Rect d
       = image.mkRectangle (image.mkPoint 0 0) (image.mkPoint 2 2)
    /\ Z.of_nat (length (pixbuf.Pix d)) = 4 * 2 * 2
    /\ (0 < 2 -> pixbuf.Stride d = 4 * 2).
Proof.
  apply (ImgToNRGBA_result_packed sample_heap _ (imgconv.ImNRGBA 5%positive)
           6%positive (pixbuf.NRGBA_Rect sample_nrgba) ImgToNRGBA_sample
           (proj1 (proj2 sample_nrgba_stored))).
  intros p _. discriminate.
Defined.

(** X5.  [ImgToNRGBA] and the buffers that exist.  The call writes to none
    of them: each is in the store afterwards as it was.  The result is one
    of them only when it is the argument itself, an [*image.NRGBA] with
    min-point (0, 0), and then the store is unchanged; in every other case
    the result is the one new buffer of the store. *)
Theorem ImgToNRGBA_no_aliasing (h h' : imgconv.heap) (img : imgconv.Image)
    (l : imgconv.loc) :
  imgconv.ImgToNRGBA h img = Some (h', l) ->
  h ⊆ h'
  /\ (forall n, h !! l = Some n ->
        img = imgconv.ImNRGBA l /\ h' = h
        /\ image.Min (pixbuf.NRGBA_Rect n) = image.mkPoint 0 0)
  /\ (h !! l = None -> dom h' = {[l]} ∪ dom h).
Proof.
  intros Hrun. split; [by eapply ImgToNRGBA_extends|].
  destruct (ImgToNRGBA_cases _ _ _ _ Hrun)
    as [(n & -> & -> & Hn & Hmin)|(b & pix & stride & Hb & Hfresh & ->)].
  - split.
    + intros n' Hn'. rewrite Hn in Hn'. by injection Hn' as <-.
    + intros Hnone. congruence.
  - split.
    + intros n Hn. congruence.
    + intros _. by rewrite dom_insert_L.
Qed.

Lemma ImgToNRGBA_no_aliasing_witness :
  sample_heap ⊆ <[6%positive := sample_converted]> sample_heap
  /\ (forall n, sample_heap !! 6%positive = Some n ->
        imgconv.ImNRGBA 5%positive = imgconv.ImNRGBA 6%positive
        /\ <[6%positive := sample_converted]> sample_heap = sample_heap
        /\ image.Min (pixbuf.NRGBA_Rect n) = image.mkPoint 0 0)
  /\ (sample_heap !! 6%positive = None ->
      dom (<[6%positive := sample_converted]> sample_heap)
      = {[6%positive]} ∪ dom sample_heap).
Proof.
  exact (ImgToNRGBA_no_aliasing sample_heap _ (imgconv.ImNRGBA 5%positive)
           6%positive ImgToNRGBA_sample).
Defined.

(** X6.  Bounds that cannot be allocated.  Unless the argument is handed
    back, a source whose bounds have a negative width or height, or need a
    buffer longer than an [int] can count, makes [ImgToNRGBA] panic - and
    with it [DetectFaces], before it has written the drawing context or read
    the cascade file. *)
Theorem ImgToNRGBA_panics_on_bad_bounds `{PigoCore} (fd : faceDetector)
    (w : World) (img : imgconv.Image) (b : image.Rectangle) :
  imgconv.Bounds (hp w) img = Some b ->
  (forall p, img = imgconv.ImNRGBA p -> image.Min b <> image.mkPoint 0 0) ->
  image.Dx b < 0 \/ image.Dy b < 0 \/ 2 ^ 63 <= 4 * image.Dx b * image.Dy b ->
  imgconv.ImgToNRGBA (hp w) img = None /\ DetectFaces fd w img = Panic.
Proof.
  intros Hb Hfresh Hbad.
  assert (Hconv : imgconv.ImgToNRGBA (hp w) img = None).
  { destruct (imgconv.ImgToNRGBA (hp w) img) as [[h' l]|] eqn:Hrun; [|done].
    destruct (ImgToNRGBA_allocates_packed _ _ _ _ _ Hrun Hb Hfresh)
      as (pix & _ & _ & _ & Hw & Hh & Hwh). lia. }
  split; [done|]. unfold DetectFaces. by rewrite Hconv.
Qed.

Lemma ImgToNRGBA_panics_on_bad_bounds_witness :
  imgconv.ImgToNRGBA (hp sample_world) (imgconv.ImOther sample_backwards) = None
  /\ @DetectFaces (@spec_core series_trig) sample_detector sample_world
                  (imgconv.ImOther sample_backwards) = Panic.
Proof.
  apply (@ImgToNRGBA_panics_on_bad_bounds (@spec_core series_trig) sample_detector
           sample_world (imgconv.ImOther sample_backwards)
           (pixbuf.Generic_Bounds sample_backwards) eq_refl).
  - intros p. discriminate.
  - left. rewrite sample_backwards_width. lia.
Defined.

(** X7.  What the sweep is run on.  The image [DetectFaces] hands to
    [RunCascade] is the grayscale of the converted buffer, which has the
    width and height of the source bounds, declared with the coordinates of
    the max-point of the bounds as its rows, columns and stride; the sizes,
    the factors, the angle and the threshold are those of the detector. *)
Theorem DetectFaces_sweep_input `{PigoCore} (fd : faceDetector) (w w' : World)
    (src : imgconv.Image) (faces : list Detection) :
  DetectFaces fd w src = Return w' (inl faces) ->
  exists cascade_bytes classifier h1 res converted b pixels raw,
    os.ReadFile (fsys w) (cascadeFile fd) = inl cascade_bytes
    /\ Unpack cascade_bytes = Yields (inl classifier)
    /\ imgconv.ImgToNRGBA (hp w) src = Some (h1, res)
    /\ h1 !! res = Some converted
    /\ imgconv.Bounds (hp w) src = Some b
    /\ image.Dx (pixbuf.NRGBA_Rect converted) = image.Dx b
    /\ image.Dy (pixbuf.NRGBA_Rect converted) = image.Dy b
    /\ RgbToGrayscale converted = Yields pixels
    /\ RunCascade classifier
         (mkCascadeParams (minSize fd) (maxSize fd)
            (shiftFactor fd) (scaleFactor fd)
            (mkImageParams pixels
               (image.Y (image.Max b)) (image.X (image.Max b))
               (image.X (image.Max b))))
         (angle fd) = Yields raw
    /\ ClusterDetections classifier raw (iouThreshold fd) = Yields faces.
Proof.
  intros Hrun.
  destruct (DetectFaces_inv _ _ _ _ _ Hrun)
    as (h1 & res & d & b & pixels & ctx & Hconv & Hd & Hb & Hg & _ & _ & Hr).
  destruct (ImgToNRGBA_result _ _ _ _ Hconv) as (b' & d' & Hb' & Hd' & _ & Hx & Hy).
  rewrite Hb in Hb'. injection Hb' as <-. rewrite Hd in Hd'. injection Hd' as <-.
  unfold detection_result in Hr.
  destruct (os.ReadFile _ _) as [bytes|e]; [|done].
  destruct (Unpack bytes) as [[cl|e]| |] eqn:Hcl; [|done..].
  destruct (RunCascade cl _ _) as [raw| |] eqn:Hraw; [|done..].
  destruct (ClusterDetections cl raw _) as [fs| |] eqn:Hfs; [|done..].
  injection Hr as <-. exists bytes, cl, h1, res, d, b, pixels, raw. by split_and!.
Qed.

Lemma DetectFaces_sweep_input_witness :
  exists cascade_bytes classifier h1 res converted b pixels raw,
    os.ReadFile (fsys sample_world) (cascadeFile sample_detector) = inl cascade_bytes
    /\ @Unpack (@spec_core series_trig) cascade_bytes = Yields (inl classifier)
    /\ imgconv.ImgToNRGBA (hp sample_world) (imgconv.ImNRGBA 1%positive)
       = Some (h1, res)
    /\ h1 !! res = Some converted
    /\ imgconv.Bounds (hp sample_world) (imgconv.ImNRGBA 1%positive) = Some b
    /\ image.Dx (pixbuf.NRGBA_Rect converted) = image.Dx b
    /\ image.Dy (pixbuf.NRGBA_Rect converted) = image.Dy b
    /\ @RgbToGrayscale (@spec_core series_trig) converted = Yields pixels
    /\ @RunCascade (@spec_core series_trig) classifier
         (mkCascadeParams 2 4 (tenths 1) (tenths 11)
            (mkImageParams pixels
               (image.Y (image.Max b)) (image.X (image.Max b))
               (image.X (image.Max b))))
         (S754_zero false) = Yields raw
    /\ @ClusterDetections (@spec_core series_trig) classifier raw (tenths 2)
       = Yields sample_faces.
Proof.
  exact (@DetectFaces_sweep_input (@spec_core series_trig) sample_detector
           sample_world sample_world_after (imgconv.ImNRGBA 1%positive)
           sample_faces sample_run).
Defined.

(** X8.  The drawing context is one variable of the package, shared by all
    detectors: after two detections [DrawFaces] - called on any detector,
    with any faces - marks the picture of the second image, a context of
    the size of [image.Rect(0, 0, Max.X, Max.Y)] for the max-point of its
    bounds on which that image has been drawn; the picture of the first is
    gone. *)
Theorem DrawFaces_marks_latest_image `{PigoCore} `{Encoders}
    (fd1 fd2 fd : faceDetector) (w w1 w2 : World) (src1 src2 : imgconv.Image)
    (r1 r2 : list Detection + error) (faces : list Detection) (isCircle : bool) :
  DetectFaces fd1 w src1 = Return w1 r1 ->
  DetectFaces fd2 w1 src2 = Return w2 r2 ->
  exists b2 w3 out,
    imgconv.Bounds (hp w1) src2 = Some b2
    /\ DrawFaces fd w2 faces isCircle = Return w3 out
    /\ let canvas :=
         image.Rect 0 0 (image.X (image.Max b2)) (image.Y (image.Max b2)) in
       dc w3 = Some (marked isCircle faces
                       (fresh_canvas src2 (image.Dx canvas) (image.Dy canvas))).
Proof.
  intros _ (h2 & res & d & b2 & pixels & ctx & _ & _ & Hb & _ & Hctx & -> & _)%DetectFaces_inv.
  destruct (NewContext_inv _ _ _ Hctx) as (-> & _).
  set (picture := gg.call _ (gg.DrawImage src2 0 0)).
  destruct (DrawFaces_inv fd (mkWorld (Some picture) (fsys w1) h2)
              faces isCircle picture eq_refl) as (w3 & bytes & err & Hd & Hdc & _).
  eexists b2, w3, _. by split_and!.
Qed.

Lemma DrawFaces_marks_latest_image_witness :
  exists b2 w3 out,
    imgconv.Bounds (hp sample_world_after) (imgconv.ImOther sample_negative)
    = Some b2
    /\ @DrawFaces signature_encoders sample_detector_gif
                  sample_world_negative_after sample_faces true = Return w3 out
    /\ let canvas :=
         image.Rect 0 0 (image.X (image.Max b2)) (image.Y (image.Max b2)) in
       dc w3 = Some (marked true sample_faces
                       (fresh_canvas (imgconv.ImOther sample_negative)
                          (image.Dx canvas) (image.Dy canvas))).
Proof.
  exact (@DrawFaces_marks_latest_image (@spec_core series_trig) signature_encoders
           sample_detector sample_detector sample_detector_gif
           sample_world sample_world_after sample_world_negative_after
           (imgconv.ImNRGBA 1%positive) (imgconv.ImOther sample_negative)
           (inl sample_faces) (inl []) sample_faces true
           sample_run sample_second_run).
Defined.

(** X9.  When the destination does not exist and cannot be created,
    [DrawFaces] returns the error of opening it with no bytes and no
    rectangles - not even those of the faces it has marked; the markers stay
    on the drawing context, the files and the pixel buffers are as before. *)
Theorem DrawFaces_destination_not_opened `{Encoders} (fd : faceDetector)
    (w : World) (faces : list Detection) (isCircle : bool) (ctx : gg.Context) :
  dc w = Some ctx ->
  os.files (fsys w) !! destination fd = None ->
  os.creatable (fsys w) (destination fd) = false ->
  DrawFaces fd w faces isCircle
  = Return (mkWorld (Some (marked isCircle faces ctx)) (fsys w) (hp w))
           ([], [], Some (PathError "open" (destination fd))).
Proof.
  intros Hdc Hnone Hcreate. rewrite (DrawFaces_eq fd w faces isCircle ctx Hdc).
  cbv zeta. unfold os.OpenFile. by rewrite Hnone, Hcreate.
Qed.

Lemma DrawFaces_destination_not_opened_witness :
  @DrawFaces signature_encoders sample_detector sample_world_locked sample_faces false
  = Return (mkWorld (Some sample_picture) (fsys sample_world_locked)
                    (hp sample_world_locked))
           ([], [], Some (PathError "open" "out.png")).
Proof.
  exact (@DrawFaces_destination_not_opened signature_encoders sample_detector
           sample_world_locked sample_faces false
           (fresh_canvas (imgconv.ImNRGBA 1%positive) 4 4)
           eq_refl sample_locked_destination eq_refl).
Defined.

(** X10.  With a destination whose extension is .jpg, .jpeg or .png,
    [DrawFaces] encodes the picture with its markers - as JPEG for the first
    two, as PNG for the third - and writes it from the start of the file
    without truncating it: the bytes returned, which are the content of the
    file afterwards, are the encoding followed by what an older, longer file
    held beyond it. *)
Theorem DrawFaces_writes_encoding `{Encoders} (fd : faceDetector) (w : World)
    (faces : list Detection) (isCircle : bool) (ctx : gg.Context)
    (fs1 : os.FileSys) :
  dc w = Some ctx ->
  os.OpenFile (fsys w) (destination fd) = inl fs1 ->
  Ext (destination fd) ∈ encoded_extensions ->
  let picture := marked isCircle faces ctx in
  let data := if String.eqb (Ext (destination fd)) ".png"
              then png_Encode picture else jpeg_Encode picture in
  let bytes := data ++ drop (length data) (content_of (fsys w) (destination fd)) in
  exists fs2,
    DrawFaces fd w faces isCircle
    = Return (mkWorld (Some picture) fs2 (hp w))
             (bytes, map face_rect (List.filter above_qThresh faces), None)
    /\ os.files fs2 !! destination fd = Some bytes.
Proof.
  intros Hdc Hopen Hext picture data bytes.
  rewrite (DrawFaces_eq fd w faces isCircle ctx Hdc). cbv zeta. rewrite Hopen.
  rewrite bool_decide_eq_true_2 by done.
  eexists. split; [reflexivity|].
  destruct (OpenFile_content _ _ _ Hopen) as (Hc & _ & _).
  by destruct (Write_content fs1 (destination fd)
                 (encoding (Ext (destination fd)) (marked isCircle faces ctx)) _ Hc)
    as (Hw & _ & _).
Qed.

Lemma DrawFaces_writes_encoding_witness :
  exists fs2,
    @DrawFaces signature_encoders sample_detector sample_world_stale sample_faces false
    = Return (mkWorld (Some sample_picture) fs2 (hp sample_world_stale))
             ([137; 80; 78; 71]
                ++ drop 4 (content_of (fsys sample_world_stale) "out.png"),
              [image.Rect 1 1 2 2], None)
    /\ os.files fs2 !! "out.png"%string
       = Some ([137; 80; 78; 71]
                 ++ drop 4 (content_of (fsys sample_world_stale) "out.png")).
Proof.
  exact (@DrawFaces_writes_encoding signature_encoders sample_detector
           sample_world_stale sample_faces false
           (fresh_canvas (imgconv.ImNRGBA 1%positive) 4 4)
           (fsys sample_world_stale) eq_refl sample_open_stale
           sample_extension_png).
Defined.

(** X11.  With any other extension [DrawFaces] encodes nothing and returns
    no error: the destination is created empty when it did not exist and is
    left as it is otherwise, and the bytes returned are its content; the
    markers are drawn and the rectangles returned as usual. *)
Theorem DrawFaces_other_extension `{Encoders} (fd : faceDetector) (w : World)
    (faces : list Detection) (isCircle : bool) (ctx : gg.Context)
    (fs1 : os.FileSys) :
  dc w = Some ctx ->
  os.OpenFile (fsys w) (destination fd) = inl fs1 ->
  Ext (destination fd) ∉ encoded_extensions ->
  DrawFaces fd w faces isCircle
  = Return (mkWorld (Some (marked isCircle faces ctx)) fs1 (hp w))
           (content_of (fsys w) (destination fd),
            map face_rect (List.filter above_qThresh faces), None)
  /\ os.files fs1 !! destination fd = Some (content_of (fsys w) (destination fd)).
Proof.
  intros Hdc Hopen Hext.
  rewrite (DrawFaces_eq fd w faces isCircle ctx Hdc). cbv zeta. rewrite Hopen.
  rewrite bool_decide_eq_false_2 by done. split; [done|].
  by destruct (OpenFile_content _ _ _ Hopen) as (Hc & _ & _).
Qed.

Lemma DrawFaces_other_extension_witness :
  @DrawFaces signature_encoders sample_detector_gif sample_world_after
             sample_faces false
  = Return (mkWorld (Some sample_picture) sample_files_gif (hp sample_world_after))
           (content_of (fsys sample_world_after) "out.gif",
            [image.Rect 1 1 2 2], None)
  /\ os.files sample_files_gif !! "out.gif"%string
     = Some (content_of (fsys sample_world_after) "out.gif").
Proof.
  exact (@DrawFaces_other_extension signature_encoders sample_detector_gif
           sample_world_after sample_faces false
           (fresh_canvas (imgconv.ImNRGBA 1%positive) 4 4)
           sample_files_gif eq_refl sample_open_gif sample_extension_gif).
Defined.

(** X12.  [DrawFaces] changes no file but the destination, removes none,
    and leaves every pixel buffer as it was. *)
Theorem DrawFaces_frame `{Encoders} (fd : faceDetector) (w w' : World)
    (faces : list Detection) (isCircle : bool)
    (r : list Z * list image.Rectangle * option error) :
  DrawFaces fd w faces isCircle = Return w' r ->
  hp w' = hp w
  /\ (forall name, name <> destination fd ->
        os.files (fsys w') !! name = os.files (fsys w) !! name)
  /\ (forall name, is_Some (os.files (fsys w) !! name) ->
        is_Some (os.files (fsys w') !! name)).
Proof.
  destruct (dc w) as [ctx|] eqn:Hdc; [|unfold DrawFaces; by rewrite Hdc].
  rewrite (DrawFaces_eq fd w faces isCircle ctx Hdc). cbv zeta.
  destruct (os.OpenFile _ _) as [fs1|e] eqn:Hopen.
  - destruct (OpenFile_content _ _ _ Hopen) as (Hc & _ & Hother).
    destruct (Write_content fs1 (destination fd)
                (encoding (Ext (destination fd)) (marked isCircle faces ctx)) _ Hc)
      as (Hw & _ & Hother').
    destruct (bool_decide _); intros [= <- <-]; simpl.
    + split_and!; [done| |].
      * intros name Hne. by rewrite Hother', Hother.
      * intros name Hsome. destruct (decide (name = destination fd)) as [->|Hne].
        -- by rewrite Hw.
        -- by rewrite Hother', Hother.
    + split_and!; [done| |].
      * intros name Hne. by rewrite Hother.
      * intros name Hsome. destruct (decide (name = destination fd)) as [->|Hne].
        -- by rewrite Hc.
        -- by rewrite Hother.
  - intros [= <- <-]. done.
Qed.

Lemma DrawFaces_frame_witness :
  hp sample_world_drawn = hp sample_world_after
  /\ (forall name, name <> destination sample_detector ->
        os.files (fsys sample_world_drawn) !! name
        = os.files (fsys sample_world_after) !! name)
  /\ (forall name, is_Some (os.files (fsys sample_world_after) !! name) ->
        is_Some (os.files (fsys sample_world_drawn) !! name)).
Proof.
  exact (@DrawFaces_frame signature_encoders sample_detector sample_world_after
           sample_world_drawn sample_faces false _ sample_draw).
Defined.

(** X13.  [DrawFaces] never clears the drawing context: after two calls it
    holds what it held before the first, then the markers of the first call,
    then those of the second. *)
Theorem DrawFaces_accumulates `{Encoders} (fd1 fd2 : faceDetector)
    (w w1 w2 : World) (faces1 faces2 : list Detection) (circle1 circle2 : bool)
    (r1 r2 : list Z * list image.Rectangle * option error) :
  DrawFaces fd1 w faces1 circle1 = Return w1 r1 ->
  DrawFaces fd2 w1 faces2 circle2 = Return w2 r2 ->
  exists ctx ctx2,
    dc w = Some ctx /\ dc w2 = Some ctx2
    /\ gg.width ctx2 = gg.width ctx /\ gg.height ctx2 = gg.height ctx
    /\ gg.ops ctx2
       = gg.ops ctx
         ++ flat_map (face_marker circle1) (List.filter above_qThresh faces1)
         ++ flat_map (face_marker circle2) (List.filter above_qThresh faces2).
Proof.
  intros (ctx & Hdc & Hdc1)%DrawFaces_needs_dc (ctx1 & Hdc1' & Hdc2)%DrawFaces_needs_dc.
  rewrite Hdc1 in Hdc1'. injection Hdc1' as <-.
  eexists ctx, _. split_and!; [done|exact Hdc2|done..|].
  simpl. by rewrite <- app_assoc.
Qed.

Lemma DrawFaces_accumulates_witness :
  exists ctx ctx2,
    dc sample_world_after = Some ctx /\ dc sample_world_drawn_twice = Some ctx2
    /\ gg.width ctx2 = gg.width ctx /\ gg.height ctx2 = gg.height ctx
    /\ gg.ops ctx2
       = gg.ops ctx
         ++ flat_map (face_marker false) (List.filter above_qThresh sample_faces)
         ++ flat_map (face_marker true) (List.filter above_qThresh sample_faces).
Proof.
  exact (@DrawFaces_accumulates signature_encoders sample_detector sample_detector
           sample_world_after sample_world_drawn sample_world_drawn_twice
           sample_faces sample_faces false true _ _ sample_draw sample_draw_again).
Defined.

(** X14.  When no face has a score above 5.0 - an empty list, or a face
    whose score is exactly 5.0 - [DrawFaces] draws nothing and returns no
    rectangle, and encodes and writes the picture all the same. *)
Theorem DrawFaces_nothing_to_mark `{Encoders} (fd : faceDetector) (w : World)
    (faces : list Detection) (isCircle : bool) (ctx : gg.Context)
    (fs1 : os.FileSys) :
  dc w = Some ctx ->
  os.OpenFile (fsys w) (destination fd) = inl fs1 ->
  Ext (destination fd) ∈ encoded_extensions ->
  Forall (fun face => above_qThresh face = false) faces ->
  DrawFaces fd w faces isCircle
  = Return (mkWorld (Some ctx)
              (os.Write fs1 (destination fd) (encoding (Ext (destination fd)) ctx))
              (hp w))
           (overwrite (encoding (Ext (destination fd)) ctx)
                      (content_of (fsys w) (destination fd)), [], None).
Proof.
  intros Hdc Hopen Hext Hno.
  rewrite (DrawFaces_eq fd w faces isCircle ctx Hdc). cbv zeta. rewrite Hopen.
  rewrite bool_decide_eq_true_2 by done.
  assert (Hf : List.filter above_qThresh faces = []).
  { induction Hno as [|f fs Hf _ IH]; [done|]. simpl. by rewrite Hf. }
  unfold marked. rewrite Hf. simpl. rewrite app_nil_r. by destruct ctx.
Qed.

Lemma DrawFaces_nothing_to_mark_witness :
  @DrawFaces signature_encoders sample_detector sample_world_after
             borderline_faces true
  = Return (mkWorld (Some (fresh_canvas (imgconv.ImNRGBA 1%positive) 4 4))
              (os.Write sample_files_opened "out.png" [137; 80; 78; 71])
              (hp sample_world_after))
           (overwrite [137; 80; 78; 71] (content_of (fsys sample_world_after) "out.png"),
            [], None).
Proof.
  exact (@DrawFaces_nothing_to_mark signature_encoders sample_detector
           sample_world_after borderline_faces true
           (fresh_canvas (imgconv.ImNRGBA 1%positive) 4 4) sample_files_opened
           eq_refl sample_open sample_extension_png borderline_not_above).
Defined.

(** X15.  The rectangle [DrawFaces] returns for a face and the square it
    draws for it share their first corner; they are the same rectangle
    exactly when that corner is the origin. *)
Theorem face_rect_is_drawn_square_iff (face : Detection) :
  0 < Scale face ->
  face_rect face = drawn_square face
  <-> GoInt.sub (Col face) (GoInt.quot (Scale face) 2) = 0
      /\ GoInt.sub (Row face) (GoInt.quot (Scale face) 2) = 0.
Proof.
  intros Hs. unfold face_rect, drawn_square.
  generalize (GoInt.sub (Col face) (GoInt.quot (Scale face) 2)).
  generalize (GoInt.sub (Row face) (GoInt.quot (Scale face) 2)).
  intros y x. cbv zeta. unfold image.Rect.
  destruct (Scale face <? x) eqn:E1; destruct (Scale face <? y) eqn:E2;
    destruct (x + Scale face <? x) eqn:E3; try lia;
    destruct (y + Scale face <? y) eqn:E4; try lia.
  all: split; [intros [= ? ?]; lia|intros [-> ->]; try lia].
  do 2 f_equal; lia.
Qed.

Lemma face_rect_is_drawn_square_iff_witness :
  face_rect (mkDetection 2 2 2 (float32.of_Z 6))
  = drawn_square (mkDetection 2 2 2 (float32.of_Z 6))
  <-> GoInt.sub 2 (GoInt.quot 2 2) = 0 /\ GoInt.sub 2 (GoInt.quot 2 2) = 0.
Proof.
  apply (face_rect_is_drawn_square_iff (mkDetection 2 2 2 (float32.of_Z 6))).
  simpl. lia.
Defined.

(** X17.  [GetImage], then [DetectFaces].  An image [GetImage] has decoded
    to an [*image.NRGBA] with min-point (0, 0) is converted in place: the
    conversion hands back the decoded buffer, and a detection on the image
    allocates nothing. *)
Theorem DetectFaces_on_decoded_NRGBA `{Decoder} `{PigoCore} (fd : faceDetector)
    (w w1 : World) (input : string) (img : imgconv.Image)
    (file : list Z) (n : pixbuf.NRGBA) :
  os.files (fsys w) !! input = Some file ->
  image_Decode file = inl (DecodedNRGBA n) ->
  image.Min (pixbuf.NRGBA_Rect n) = image.mkPoint 0 0 ->
  GetImage w input = (w1, inl img) ->
  exists l,
    img = imgconv.ImNRGBA l /\ hp w !! l = None /\ hp w1 !! l = Some n
    /\ imgconv.ImgToNRGBA (hp w1) img = Some (hp w1, l)
    /\ forall w2 r, DetectFaces fd w1 img = Return w2 r -> hp w2 = hp w1.
Proof.
  intros Hfile Hdec Hmin. unfold GetImage, os_Open. rewrite Hfile, Hdec. simpl.
  intros [= <- <-].
  set (l := fresh (dom (hp w))). set (h1 := <[l := n]> (hp w)).
  assert (Hl : h1 !! l = Some n) by apply lookup_insert_eq.
  pose proof (ImgToNRGBA_normalised h1 l n Hl Hmin) as Hconv.
  exists l. split_and!; try done.
  - apply not_elem_of_dom, is_fresh.
  - intros w2 r Hrun.
    destruct (DetectFaces_inv _ _ _ _ _ Hrun)
      as (h2 & res & d & b & pixels & ctx & Hc & _ & _ & _ & _ & -> & _).
    simpl in Hc. rewrite Hconv in Hc. by injection Hc as <- <-.
Qed.

Lemma DetectFaces_on_decoded_NRGBA_witness :
  exists l,
    imgconv.ImNRGBA 1%positive = imgconv.ImNRGBA l
    /\ hp sample_world_input !! l = None
    /\ hp sample_world_decoded !! l = Some sample_photo
    /\ imgconv.ImgToNRGBA (hp sample_world_decoded) (imgconv.ImNRGBA 1%positive)
       = Some (hp sample_world_decoded, l)
    /\ forall w2 r,
         @DetectFaces (@spec_core series_trig) sample_detector sample_world_decoded
                      (imgconv.ImNRGBA 1%positive) = Return w2 r ->
         hp w2 = hp sample_world_decoded.
Proof.
  exact (@DetectFaces_on_decoded_NRGBA sample_decoder (@spec_core series_trig)
           sample_detector sample_world_input sample_world_decoded "in.png"
           (imgconv.ImNRGBA 1%positive) [137; 80] sample_photo
           sample_input_file eq_refl eq_refl sample_getimage).
Defined.

(** X18.  [inSlice] is membership: it returns true exactly when the string
    is one of the elements of the slice. *)
Theorem inSlice_elem_of (ext : string) (types : list string) :
  cmd.inSlice ext types = true <-> ext ∈ types.
Proof.
  induction types as [|t types IH]; simpl.
  - split; [done|]. by intros ?%elem_of_nil.
  - rewrite elem_of_cons. destruct (String.eqb t ext) eqn:E.
    + apply String.eqb_eq in E. split; [intros _; by left|done].
    + apply String.eqb_neq in E. rewrite IH.
      split; [by right|]. intros [->|?]; done.
Qed.

(** X19.  The checks of [main].  The flags pass exactly when the three
    paths are given, the extension of the destination is one of .jpg, .jpeg
    and .png, and the scale factor is not below 1.05 (so 1.05 itself passes,
    and so does a NaN); flags that fail end [main] with the message of the
    first failed check, before anything is read, drawn or written. *)
Theorem main_checks_pass_iff `{Encoders} `{cmd.Json} (f : cmd.flags) :
  (cmd.checks f = None <->
     cmd.source f <> EmptyString /\ cmd.destination f <> EmptyString
     /\ cmd.cascadeFile f <> EmptyString
     /\ Ext (cmd.destination f) ∈ encoded_extensions
     /\ float64.ltb (cmd.scaleFactor f) cmd.min_scale = false)
  /\ (forall m detect w,
        cmd.checks f = Some m -> cmd.main detect f w = Return w (cmd.Fatal m)).
Proof.
  split.
  - unfold cmd.checks. rewrite inSlice_fileTypes.
    rewrite <- !length_zero_empty.
    destruct (String.length (cmd.source f) =? 0)%nat;
      [split; [done|by intros [? _]]|].
    destruct (String.length (cmd.destination f) =? 0)%nat;
      [split; [done|by intros (_ & ? & _)]|].
    destruct (String.length (cmd.cascadeFile f) =? 0)%nat;
      [split; [done|by intros (_ & _ & ? & _)]|].
    cbn [orb].
    destruct (bool_decide (Ext (cmd.destination f) ∈ encoded_extensions)) eqn:E.
    + apply bool_decide_eq_true in E. cbn [negb].
      destruct (float64.ltb (cmd.scaleFactor f) cmd.min_scale);
        [split; [done|by intros (_ & _ & _ & _ & ?)]|].
      split; [intros _|done]. by split_and!.
    + apply bool_decide_eq_false in E. cbn [negb].
      split; [done|]. by intros (_ & _ & _ & ? & _).
  - intros m detect w Hm. unfold cmd.main. by rewrite Hm.
Qed.

(** X20.  A run of [main] that ends well.  When [main] ends without a
    fatal message the flags have passed the checks, the detection - run with
    the detector whose fields are the flags of the same name - has returned
    faces, and the destination holds the encoded picture of the marked
    faces.  With -json, and [output.json] present or creatable, that file
    holds the marshalled rectangles of the faces above the score gate;
    without -json it is as the detection left it.  All other files are as
    the detection left them. *)
Theorem main_done `{Encoders} `{cmd.Json}
    (detect : faceDetector -> World -> string -> outcome (list Detection + error))
    (f : cmd.flags) (w w3 : World) :
  cmd.main detect f w = Return w3 cmd.Done ->
  let fd := mkFaceDetector (cmd.angle f) (cmd.cascadeFile f) (cmd.destination f)
              (cmd.minSize f) (cmd.maxSize f) (cmd.shiftFactor f)
              (cmd.scaleFactor f) (cmd.iouThreshold f) in
  let dest := cmd.destination f in
  exists w1 faces ctx,
    cmd.checks f = None
    /\ detect fd w (cmd.source f) = Return w1 (inl faces)
    /\ dc w1 = Some ctx
    /\ os.files (fsys w3) !! dest
       = Some (overwrite
                 (encoding (Ext dest) (marked (cmd.circleMarker f) faces ctx))
                 (content_of (fsys w1) dest))
    /\ (if cmd.outputAsJSON f
        then is_Some (os.files (fsys w1) !! "output.json"%string)
             \/ os.creatable (fsys w1) "output.json" = true ->
             os.files (fsys w3) !! "output.json"%string
             = Some (cmd.json_Marshal
                       (map face_rect (List.filter above_qThresh faces)))
        else os.files (fsys w3) !! "output.json"%string
             = os.files (fsys w1) !! "output.json"%string)
    /\ (forall name, name <> dest -> name <> "output.json"%string ->
          os.files (fsys w3) !! name = os.files (fsys w1) !! name).
Proof.
  intros Hmain fd dest. revert Hmain. unfold cmd.main.
  destruct (cmd.checks f) as [m|] eqn:Hchecks; [done|].
  change (cmd.detector f) with fd.
  destruct (detect fd w (cmd.source f)) as [| |w1 [faces|e]] eqn:Hdet;
    [done|done| |done].
  destruct (dc w1) as [ctx|] eqn:Hdc; [|unfold DrawFaces; by rewrite Hdc].
  rewrite (DrawFaces_eq fd w1 faces (cmd.circleMarker f) ctx Hdc). cbv zeta.
  change (destination fd) with dest.
  pose proof (checks_extension f Hchecks) as Hext. fold dest in Hext.
  assert (Hjson : "output.json"%string <> dest).
  { intros E. rewrite <- E in Hext.
    change (Ext "output.json") with ".json"%string in Hext.
    unfold encoded_extensions in Hext.
    rewrite !elem_of_cons, elem_of_nil in Hext.
    destruct Hext as [?|[?|[?|[]]]]; discriminate. }
  destruct (os.OpenFile (fsys w1) dest) as [fs1|e] eqn:Hopen; [|done].
  rewrite bool_decide_eq_true_2 by done.
  destruct (OpenFile_content _ _ _ Hopen) as (Hc & Hcr & Hother).
  destruct (Write_content fs1 dest
              (encoding (Ext dest) (marked (cmd.circleMarker f) faces ctx)) _ Hc)
    as (Hw & Hcr' & Hother').
  set (fs2 := os.Write fs1 dest _) in *.
  intros Hend. exists w1, faces, ctx. split_and!; try done.
  - destruct (cmd.outputAsJSON f); injection Hend as <-; simpl; [|done].
    by rewrite (proj2 (WriteFile_content _ _ _)).
  - destruct (cmd.outputAsJSON f); injection Hend as <-; simpl.
    + intros Hcan. apply WriteFile_content.
      rewrite Hother', Hother, Hcr', Hcr by done. exact Hcan.
    + by rewrite Hother', Hother.
  - intros name Hn1 Hn2.
    destruct (cmd.outputAsJSON f); injection Hend as <-; simpl.
    + rewrite (proj2 (WriteFile_content _ _ _)) by done.
      by rewrite Hother', Hother.
    + by rewrite Hother', Hother.
Qed.

Lemma main_done_witness :
  exists w1 faces ctx,
    cmd.checks sample_flags = None
    /\ sample_detect sample_detector sample_world "in.png" = Return w1 (inl faces)
    /\ dc w1 = Some ctx
    /\ os.files (fsys sample_world_done) !! "out.png"%string
       = Some (overwrite (@encoding signature_encoders ".png" (marked false faces ctx))
                         (content_of (fsys w1) "out.png"))
    /\ (is_Some (os.files (fsys w1) !! "output.json"%string)
        \/ os.creatable (fsys w1) "output.json" = true ->
        os.files (fsys sample_world_done) !! "output.json"%string
        = Some (@cmd.json_Marshal sample_json
                  (map face_rect (List.filter above_qThresh faces))))
    /\ (forall name, name <> "out.png"%string -> name <> "output.json"%string ->
          os.files (fsys sample_world_done) !! name = os.files (fsys w1) !! name).
Proof.
  exact (@main_done signature_encoders sample_json sample_detect sample_flags
           sample_world sample_world_done sample_main).
Defined.

(** X21.  A run of [main] that ends in a fatal message.  The message is
    that of a failed check, and nothing has happened; or it carries the
    error of the detection, and the state is as the detection left it; or it
    carries the error of opening the destination, and the files and pixel
    buffers are as the detection left them.  In no case has [main] written
    the destination or [output.json]. *)
Theorem main_fatal `{Encoders} `{cmd.Json}
    (detect : faceDetector -> World -> string -> outcome (list Detection + error))
    (f : cmd.flags) (w w' : World) (m : cmd.fatal) :
  cmd.main detect f w = Return w' (cmd.Fatal m) ->
  (cmd.checks f = Some m /\ w' = w)
  \/ (cmd.checks f = None
      /\ exists err, m = cmd.DetectionError err
           /\ detect (cmd.detector f) w (cmd.source f) = Return w' (inr err))
  \/ (cmd.checks f = None
      /\ exists err w1 faces,
           m = cmd.OutputError err
           /\ detect (cmd.detector f) w (cmd.source f) = Return w1 (inl faces)
           /\ fsys w' = fsys w1 /\ hp w' = hp w1
           /\ os.OpenFile (fsys w1) (cmd.destination f) = inr err).
Proof.
  unfold cmd.main. destruct (cmd.checks f) as [m0|] eqn:Hchecks.
  { intros [= <- <-]. by left. }
  destruct (detect (cmd.detector f) w (cmd.source f))
    as [| |w1 [faces|e]] eqn:Hdet; [done|done| |].
  - destruct (dc w1) as [ctx|] eqn:Hdc; [|unfold DrawFaces; by rewrite Hdc].
    rewrite (DrawFaces_eq (cmd.detector f) w1 faces (cmd.circleMarker f) ctx Hdc).
    cbv zeta. change (destination (cmd.detector f)) with (cmd.destination f).
    destruct (os.OpenFile (fsys w1) (cmd.destination f)) as [fs1|e] eqn:Hopen.
    + destruct (bool_decide _), (cmd.outputAsJSON f); done.
    + intros [= <- <-]. right. right. split; [done|].
      exists e, w1, faces. by split_and!.
  - intros [= <- <-]. right. left. split; [done|]. by exists e.
Qed.

Lemma main_fatal_witness :
  let w' := mkWorld (Some sample_picture) (fsys sample_world_locked)
                    (hp sample_world_locked) in
  let m := cmd.OutputError (PathError "open" "out.png") in
  (cmd.checks sample_flags = Some m /\ w' = sample_world_locked)
  \/ (cmd.checks sample_flags = None
      /\ exists err, m = cmd.DetectionError err
           /\ sample_detect (cmd.detector sample_flags) sample_world_locked
                            "in.png" = Return w' (inr err))
  \/ (cmd.checks sample_flags = None
      /\ exists err w1 faces,
           m = cmd.OutputError err
           /\ sample_detect (cmd.detector sample_flags) sample_world_locked
                            "in.png" = Return w1 (inl faces)
           /\ fsys w' = fsys w1 /\ hp w' = hp w1
           /\ os.OpenFile (fsys w1) "out.png" = inr err).
Proof.
  exact (@main_fatal signature_encoders sample_json sample_detect sample_flags
           sample_world_locked _ _ sample_main_locked).
Defined.

(** X22.  [stop] ends the spinner.  However far the goroutine of a started
    spinner has come, [stop] does not block; after it the goroutine prints
    one more rune at most - the one whose [select] it had passed - and has
    returned once it has taken two more turns.  On a spinner that was never
    started [stop] blocks. *)
Theorem stop_ends_spinner (schedule after : list nat) :
  exists stopped,
    spinner.stop (spinner.run schedule (spinner.start spinner.new)) = Some stopped
    /\ (exists late,
          spinner.printed (spinner.run after stopped)
          = spinner.printed (spinner.run schedule (spinner.start spinner.new)) ++ late
          /\ (length late <= 1)%nat)
    /\ ((2 <= turns_of_first after)%nat ->
        spinner.routines (spinner.run after stopped) = [spinner.Returned]
        /\ forall k, spinner.turn k (spinner.run after stopped) = None)
    /\ spinner.stop spinner.new = None.
Proof.
  destruct (spinning_stop _ (spinning_run schedule _ spinning_start))
    as (stopped & m & Hstop & Hm & Hs).
  exists stopped. split; [done|].
  pose proof (stopping_run _ after m stopped Hm Hs) as Hrun.
  split_and!; [by eapply stopping_late| |done].
  intros Hturns.
  replace (m - turns_of_first after)%nat with 0%nat in Hrun by lia.
  destruct Hrun as (Hr & _). split; [done|].
  intros k. unfold spinner.turn. rewrite Hr. by destruct k.
Qed.

(** X23.  Until it is stopped, a started spinner prints the runes of
    [-\|/] in their order, over and over: the rune printed in place [j]
    is the one at index [j mod 4] of the string. *)
Theorem spinner_frames_in_order (schedule : list nat) (j : nat) :
  (j < length (spinner.printed (spinner.run schedule (spinner.start spinner.new))))%nat ->
  spinner.printed (spinner.run schedule (spinner.start spinner.new)) !! j
  = spinner.frames !! (j mod 4)%nat.
Proof.
  destruct (spinning_run schedule _ spinning_start) as (_ & _ & Hp).
  apply Hp.
Qed.

Lemma spinner_frames_in_order_witness :
  spinner.printed (spinner.run (replicate 10 0%nat) (spinner.start spinner.new))
    !! 4%nat
  = spinner.frames !! (4 mod 4)%nat.
Proof.
  apply (spinner_frames_in_order (replicate 10 0%nat) 4).
  rewrite sample_spin. lia.
Defined.

